(** * gammapy: Dataset / Datasets aggregation and parameter Covariance

    A shallow embedding of [gammapy/datasets/core.py] and
    [gammapy/modeling/covariance.py].

    - float64 values are Rocq's primitive binary64 floats, so every
      definition below evaluates on concrete inputs;
    - numpy arrays are lists (1-D) and lists of rows (2-D);
    - Python exceptions are the [Raise] branch of [result];
    - mutable objects that are shared by reference (models) live in an
      explicit heap, keyed by object identity. *)

From Stdlib Require Import ZArith List Bool Ascii String DecimalString Lia.
From Stdlib Require Import PrimFloat FloatOps FloatAxioms SpecFloat.
From stdpp Require Import base option list gmap strings.

Local Open Scope string_scope.
Local Open Scope list_scope.
Local Open Scope Z_scope.

(** ** Python results and exceptions *)

(** The exception classes the two modules raise or let escape.  [msg] is
    [Some text] where the source spells the text out, and [None] where the
    text is chosen by the Python or numpy runtime. *)
Inductive exn_class :=
  ValueError | TypeError | AttributeError | IndexError | OverflowError.

Record exn := mk_exn { exn_cls : exn_class; exn_msg : option string }.

Inductive result (A : Type) :=
| Ok (a : A)
| Raise (e : exn).
Arguments Ok {A} a.
Arguments Raise {A} e.

#[global] Instance result_ret : MRet result := fun A a => Ok a.
#[global] Instance result_bind : MBind result :=
  fun A B f m => match m with Ok a => f a | Raise e => Raise e end.
#[global] Instance result_fmap : FMap result :=
  fun A B f m => match m with Ok a => Ok (f a) | Raise e => Raise e end.

Definition raise {A} (c : exn_class) (msg : option string) : result A :=
  Raise (mk_exn c msg).

(** [[f(x) for x in l]] where [f] may raise: the first exception escapes. *)
Fixpoint mapR {A B} (f : A -> result B) (l : list A) : result (list B) :=
  match l with
  | [] => Ok []
  | x :: l' => y ← f x; ys ← mapR f l'; Ok (y :: ys)
  end.

(** A [for] loop threading an accumulator through a body that may raise. *)
Fixpoint foldR {A S} (body : S -> A -> result S) (acc : S) (l : list A)
  : result S :=
  match l with
  | [] => Ok acc
  | x :: l' => acc' ← body acc x; foldR body acc' l'
  end.

(** Python numbers as far as [stat_sum] needs them: the accumulator starts
    as the [int] literal [0] and becomes a float64 at the first addition. *)
Inductive pynum :=
| PyInt (z : Z)
| PyFloat (f : float).

(** [int] to float64, round to nearest even. *)
Definition float_of_Z (z : Z) : float :=
  SF2Prim (binary_normalize prec emax z 0 false).

(** [a + b] on Python numbers. *)
Definition py_add (a b : pynum) : pynum :=
  match a, b with
  | PyInt x, PyInt y => PyInt (x + y)
  | PyInt x, PyFloat y => PyFloat (float_of_Z x + y)
  | PyFloat x, PyInt y => PyFloat (x + float_of_Z y)
  | PyFloat x, PyFloat y => PyFloat (x + y)
  end.

(** [x ** 2] on a Python float.  [float.__pow__] hands the operands to the
    [pow] of the C library and raises OverflowError when the result is out
    of range.  The C library does not fix the last bit of the result (it
    need not be the correctly rounded product [x * x]), so the operation
    is an interface. *)
Class Square := float_square : float -> result float.

(** The instance used to evaluate the definitions on concrete inputs whose
    square is exact: the float64 product, and the OverflowError where the
    product of a finite operand with itself is out of range. *)
Definition square_product : Square :=
  fun x =>
    let y := (x * x)%float in
    if is_infinity y && negb (is_infinity x)
    then raise OverflowError (Some "(34, 'Numerical result out of range')")
    else Ok y.

(** ** Python lists *)

Module PyList.
Section ops.
Context {A : Type}.

(** Normalise a possibly negative index against [len(l)];
    [None] is Python's IndexError. *)
Definition norm_index (l : list A) (i : Z) : option nat :=
  let n := Z.of_nat (length l) in
  let j := if i <? 0 then i + n else i in
  if (0 <=? j) && (j <? n) then Some (Z.to_nat j) else None.

(** [l[i]] *)
Definition getitem (l : list A) (i : Z) : result A :=
  match norm_index l i with
  | Some j =>
      match l !! j with
      | Some x => Ok x
      | None => raise IndexError None
      end
  | None => raise IndexError None
  end.

(** [l[i] = x] *)
Definition setitem (l : list A) (i : Z) (x : A) : result (list A) :=
  match norm_index l i with
  | Some j => Ok (<[j := x]> l)
  | None => raise IndexError None
  end.

(** [l.insert(i, x)]: the position is clamped to [0 .. len(l)]. *)
Definition insert (l : list A) (i : Z) (x : A) : list A :=
  let n := Z.of_nat (length l) in
  let j := if i <? 0 then Z.max 0 (i + n) else Z.min i n in
  take (Z.to_nat j) l ++ x :: drop (Z.to_nat j) l.

(** Bounds of [l[start:stop]] (step 1), clamped as CPython does. *)
Definition slice_bound (l : list A) (dflt : Z) (b : option Z) : nat :=
  let n := Z.of_nat (length l) in
  match b with
  | None => Z.to_nat dflt
  | Some i =>
      let j := if i <? 0 then Z.max 0 (i + n) else Z.min i n in
      Z.to_nat j
  end.

(** [l[start:stop]] *)
Definition getslice (l : list A) (start stop : option Z) : list A :=
  let lo := slice_bound l 0 start in
  let hi := slice_bound l (Z.of_nat (length l)) stop in
  take (hi - lo)%nat (drop lo l).

(** [l.index(x)] with equality test [eqb]; [None] is ValueError. *)
Fixpoint index (eqb : A -> A -> bool) (x : A) (l : list A) : option nat :=
  match l with
  | [] => None
  | y :: l' => if eqb x y then Some 0%nat else S <$> index eqb x l'
  end.

(** [del l[i]] *)
Definition delitem (l : list A) (i : Z) : result (list A) :=
  match norm_index l i with
  | Some j => Ok (delete j l)
  | None => raise IndexError None
  end.

(** [del l[start:stop]] *)
Definition delslice (l : list A) (start stop : option Z) : list A :=
  let lo := slice_bound l 0 start in
  let hi := slice_bound l (Z.of_nat (length l)) stop in
  take lo l ++ drop (Nat.max lo hi) l.
End ops.
End PyList.

(** ** Python [repr] of a [str] *)

(** Characters are code points 0..255.  [repr] picks the quote, escapes
    the quote, the backslash, tab, newline and carriage return, and writes
    every other non-printable code point as [\xNN]. *)
Module PyStr.
Definition squote : ascii := "'"%char.
Definition dquote : ascii := ascii_of_nat 34.
Definition backslash : ascii := "\"%char.

Definition hex_digit (n : nat) : ascii :=
  nth n (list_ascii_of_string "0123456789abcdef") "0"%char.

Definition printable (n : nat) : bool :=
  if (n <? 32)%nat then false
  else if (n =? 127)%nat then false
  else if (128 <=? n)%nat && (n <=? 160)%nat then false
  else if (n =? 173)%nat then false
  else true.

Definition repr_char (quote c : ascii) : string :=
  let n := nat_of_ascii c in
  if Ascii.eqb c quote || Ascii.eqb c backslash then
    String backslash (String c EmptyString)
  else if (n =? 9)%nat then String backslash "t"
  else if (n =? 10)%nat then String backslash "n"
  else if (n =? 13)%nat then String backslash "r"
  else if printable n then String c EmptyString
  else String backslash
         (String "x" (String (hex_digit (n / 16)) (String (hex_digit (n mod 16)) EmptyString))).

Fixpoint contains (c : ascii) (s : string) : bool :=
  match s with
  | EmptyString => false
  | String c' s' => Ascii.eqb c c' || contains c s'
  end.

Fixpoint repr_body (quote : ascii) (s : string) : string :=
  match s with
  | EmptyString => EmptyString
  | String c s' => repr_char quote c ++ repr_body quote s'
  end.

(** [repr(s)], which is what [{s!r}] formats. *)
Definition repr (s : string) : string :=
  let quote := if contains squote s && negb (contains dquote s)
               then dquote else squote in
  String quote (repr_body quote s ++ String quote EmptyString).

(** [s.startswith(needle)] *)
Fixpoint starts_with (needle s : string) : bool :=
  match needle, s with
  | EmptyString, _ => true
  | String a needle', String b s' => Ascii.eqb a b && starts_with needle' s'
  | String _ _, EmptyString => false
  end.

(** [needle in s] for strings. *)
Fixpoint is_substring (needle s : string) : bool :=
  starts_with needle s ||
  match s with
  | EmptyString => false
  | String _ s' => is_substring needle s'
  end.
End PyStr.

(** ** numpy on float64 arrays *)

Module Np.
Local Open Scope float_scope.

(** [np.sum(a, dtype=np.float64)].  numpy fixes the values that are added
    but not the order in which it associates them (it adds pairwise, in
    blocks, and the details vary with the version), so the reduction is
    an interface. *)
Class Sum := sum : list float -> float.

(** The strictly left-to-right reduction from 0.0: the instance used to
    evaluate the definitions on concrete arrays. *)
Definition sum_serial : Sum := fun a => fold_left add a 0.

(** 1-D broadcasting of two operands: equal lengths, or one of length 1. *)
Definition broadcast1 {A B} (a : list A) (b : list B)
  : result (list (A * B)) :=
  if (length a =? length b)%nat then Ok (combine a b)
  else match a, b with
       | [x], _ => Ok (map (fun y => (x, y)) b)
       | _, [y] => Ok (map (fun x => (x, y)) a)
       | _, _ => raise ValueError None
       end.

(** An element-wise binary ufunc on 1-D arrays. *)
Definition ufunc2 {A B C} (f : A -> B -> C) (a : list A) (b : list B)
  : result (list C) :=
  (fun ps => map (fun p => f (fst p) (snd p)) ps) <$> broadcast1 a b.

(** [a[mask]] with a boolean mask of the same shape: the selected entries
    in storage order; a mask of another shape is an IndexError. *)
Fixpoint select {A} (a : list A) (mask : list bool) : list A :=
  match a, mask with
  | x :: a', true :: m' => x :: select a' m'
  | _ :: a', false :: m' => select a' m'
  | _, _ => []
  end.

Definition bool_index {A} (a : list A) (mask : list bool) : result (list A) :=
  if (length a =? length mask)%nat then Ok (select a mask)
  else raise IndexError None.

(** [np.sqrt(a)] *)
Definition sqrt1 (a : list float) : list float := map sqrt a.

(** *** 2-D arrays: a list of rows of equal length *)

Abbreviation matrix := (list (list float)).

Definition nrows (m : matrix) : nat := length m.
Definition ncols (m : matrix) : nat :=
  match m with
  | [] => 0
  | r :: _ => length r
  end.

(** [m.shape] *)
Definition shape (m : matrix) : nat * nat := (nrows m, ncols m).

Definition shape_eqb (s1 s2 : nat * nat) : bool :=
  (fst s1 =? fst s2)%nat && (snd s1 =? snd s2)%nat.

(** Every row has [c] entries and there are [r] rows. *)
Definition is_shape (r c : nat) (m : matrix) : bool :=
  (length m =? r)%nat && forallb (fun row => (length row =? c)%nat) m.

(** The entry at [(i, j)]; used below only at positions known to exist. *)
Definition get (m : matrix) (i j : nat) : float :=
  default 0 (m !! i ≫= fun row => row !! j).

Definition tabulate {A} (r c : nat) (f : nat -> nat -> A) : list (list A) :=
  map (fun i => map (f i) (seq 0 c)) (seq 0 r).

(** [np.zeros((r, c))] *)
Definition zeros (r c : nat) : matrix := tabulate r c (fun _ _ => 0).

(** [np.diag(v)] for a 1-D [v]: the square matrix with [v] on the diagonal. *)
Definition diag (v : list float) : matrix :=
  tabulate (length v) (length v)
           (fun i j => if (i =? j)%nat then default 0 (v !! i) else 0).

(** [np.diag(m)] for a 2-D [m]: its diagonal. *)
Definition diagonal (m : matrix) : list float :=
  map (fun i => get m i i) (seq 0 (Nat.min (nrows m) (ncols m))).

(** [np.outer(a, b)] *)
Definition outer (a b : list float) : matrix :=
  map (fun x => map (fun y => x * y) b) a.

(** [m.ravel()]: the entries in row-major order. *)
Definition ravel (m : matrix) : list float := concat m.

(** One axis of numpy's broadcasting rule. *)
Definition broadcast_dim (n1 n2 : nat) : result nat :=
  if (n1 =? n2)%nat then Ok n1
  else if (n1 =? 1)%nat then Ok n2
  else if (n2 =? 1)%nat then Ok n1
  else raise ValueError None.

(** [m] read at [(i, j)] of a shape it broadcasts to. *)
Definition get_bc (m : matrix) (i j : nat) : float :=
  get m (if (nrows m =? 1)%nat then 0 else i)
        (if (ncols m =? 1)%nat then 0 else j).

(** An element-wise binary ufunc on 2-D arrays, with broadcasting. *)
Definition ufunc2_2d {C} (f : float -> float -> C) (a b : matrix)
  : result (list (list C)) :=
  r ← broadcast_dim (nrows a) (nrows b);
  c ← broadcast_dim (ncols a) (ncols b);
  Ok (tabulate r c (fun i j => f (get_bc a i j) (get_bc b i j))).

(** [np.ix_(idx, idx)] read: [m[np.ix_(idx, idx)]]. *)
Definition in_range (m : matrix) (idx : list nat) : bool :=
  forallb (fun i => (i <? nrows m)%nat && (i <? ncols m)%nat) idx.

Definition ix_get (m : matrix) (idx : list nat) : result matrix :=
  if in_range m idx
  then Ok (map (fun i => map (fun j => get m i j) idx) idx)
  else raise IndexError None.

(** Position of the last occurrence of [i] in [idx]. *)
Fixpoint last_index_of (i : nat) (idx : list nat) : option nat :=
  match idx with
  | [] => None
  | j :: idx' =>
      match last_index_of i idx' with
      | Some k => Some (S k)
      | None => if (i =? j)%nat then Some 0%nat else None
      end
  end.

(** [m[idx, :] = 0] *)
Definition zero_rows (idx : list nat) (m : matrix) : result matrix :=
  if forallb (fun i => (i <? nrows m)%nat) idx
  then Ok (tabulate (nrows m) (ncols m)
             (fun i j => if decide (i ∈ idx) then 0 else get m i j))
  else raise IndexError None.

(** [m[:, idx] = 0] *)
Definition zero_cols (idx : list nat) (m : matrix) : result matrix :=
  if forallb (fun j => (j <? ncols m)%nat) idx
  then Ok (tabulate (nrows m) (ncols m)
             (fun i j => if decide (j ∈ idx) then 0 else get m i j))
  else raise IndexError None.

(** [m[np.ix_(idx, idx)] = v]: [v] must broadcast to the shape of the
    block; where an index is repeated the last value assigned stays. *)
Definition ix_set (m : matrix) (idx : list nat) (v : matrix) : result matrix :=
  let k := length idx in
  if negb (in_range m idx) then raise IndexError None
  else if ((nrows v =? k)%nat || (nrows v =? 1)%nat)
          && ((ncols v =? k)%nat || (ncols v =? 1)%nat)
  then Ok (tabulate (nrows m) (ncols m)
             (fun i j =>
                match last_index_of i idx, last_index_of j idx with
                | Some a, Some b => get_bc v a b
                | _, _ => get m i j
                end))
  else raise ValueError None.

(** [rtol] and [atol] of [np.isclose]: the float64 nearest to 1e-05 and
    to 1e-08. *)
Definition rtol : float := 0x1.4f8b588e368f1p-17.
Definition atol : float := 0x1.5798ee2308c3ap-27.

(** [np.isclose(x, y)] on one pair of entries ([equal_nan=False]). *)
Definition isclose (x y : float) : bool :=
  if is_finite x && is_finite y
  then abs (x - y) <=? atol + rtol * abs y
  else x =? y.

(** [np.allclose(a, b)] *)
Definition allclose (a b : matrix) : result bool :=
  (fun c => forallb (forallb id) c) <$> ufunc2_2d isclose a b.

(** Largest finite float64. *)
Definition float_max : float := 0x1.fffffffffffffp+1023.

(** [np.nan_to_num] on one entry: NaN becomes 0.0, +inf the largest
    finite float64 and -inf the most negative one. *)
Definition nan_to_num1 (x : float) : float :=
  if is_nan x then 0
  else if x =? infinity then float_max
  else if x =? neg_infinity then - float_max
  else x.

Definition nan_to_num (m : matrix) : matrix := map (map nan_to_num1) m.

(** [m[mask] = vals] for a boolean [mask] of the shape of [m]: the
    positions where the mask holds receive the values in row-major
    order.  [assign_row] returns the new row and the values not yet used. *)
Fixpoint assign_row (row : list float) (mask : list bool) (vals : list float)
  : list float * list float :=
  match row, mask with
  | x :: row', b :: mask' =>
      match b, vals with
      | true, v :: vals' =>
          let '(out, rest) := assign_row row' mask' vals' in (v :: out, rest)
      | _, _ =>
          let '(out, rest) := assign_row row' mask' vals in (x :: out, rest)
      end
  | _, _ => (row, vals)
  end.

Fixpoint assign_rows (m : matrix) (mask : list (list bool)) (vals : list float)
  : matrix :=
  match m, mask with
  | row :: m', mrow :: mask' =>
      let '(out, rest) := assign_row row mrow vals in
      out :: assign_rows m' mask' rest
  | _, _ => m
  end.

Definition count_true (mask : list (list bool)) : nat :=
  length (filter (fun b => b = true) (concat mask)).

Definition mask_assign (m : matrix) (mask : list (list bool))
    (vals : list float) : result matrix :=
  let n := count_true mask in
  if (length vals =? n)%nat then Ok (assign_rows m mask vals)
  else match vals with
       | [v] => Ok (assign_rows m mask (replicate n v))
       | _ => raise ValueError None
       end.
End Np.

(** ** Model objects and the heap *)

(** Object identity ([id(obj)]). *)
Abbreviation ref := positive.

(** What [Dataset.copy] reads and writes of a model object. *)
Record Model := mk_Model {
  model_name : string;                     (* [_name] *)
  datasets_names : option (list string)    (* [None] or a list of names *)
}.

(** ** [class Dataset(abc.ABC)] *)

Module Dataset.

(** The state of one dataset object.  [stat_array] holds the value the
    abstract method [stat_array()] returns, flattened in storage order;
    the masks hold the [.data] of the mask maps, flattened alike. *)
Record t := mk {
  py_id : ref;
  _name : string;
  tag : string;
  mask_safe : option (list bool);
  mask_fit : option (list bool);
  stat_array : list float;
  _models : option (list ref);
  background_model : option ref   (* [None]: no such attribute, or None *)
}.

(** The objects reachable from datasets, by identity. *)
Record Heap := mk_Heap {
  h_datasets : gmap ref t;
  h_models : gmap ref Model
}.

Definition name (self : t) : string := _name self.

Definition _residuals_labels : list (string * string) :=
  [ ("diff", "data - model");
    ("diff/model", "(data - model) / model");
    ("diff/sqrt(model)", "(data - model) / sqrt(model)") ].

(** Modelled from the spec: the class of the mask maps is not part of the
    sources at hand.  [mask_safe & mask_fit] combines two maps over one
    geometry entry by entry (logical AND); maps of different shapes are
    refused with a ValueError. *)
Definition map_and (a b : list bool) : result (list bool) :=
  if (length a =? length b)%nat then Ok (zip_with andb a b)
  else raise ValueError None.

(** [mask]: combined fit and safe mask. *)
Definition mask (self : t) : result (option (list bool)) :=
  match mask_safe self, mask_fit self with
  | Some s, Some f => Some <$> map_and s f
  | _, Some f => Ok (Some f)
  | Some s, None => Ok (Some s)
  | None, None => Ok None
  end.

(** [stat_sum]: total statistic given the current model parameters. *)
Definition stat_sum `{Np.Sum} (self : t) : result float :=
  let stat := stat_array self in
  m ← mask self;
  stat ← match m with
         | Some mdata => Np.bool_index stat mdata
         | None => Ok stat
         end;
  Ok (Np.sum stat).

(** The three methods [_compute_residuals] accepts. *)
Definition valid_methods : list string :=
  ["diff"; "diff/model"; "diff/sqrt(model)"].

(** The text of the error [_compute_residuals] raises. *)
Definition invalid_method_msg (method : string) : string :=
  "Invalid method: " ++ PyStr.repr method
  ++ ". Choose between 'diff', 'diff/model' and 'diff/sqrt(model)'".

(** [_compute_residuals(data, model, method="diff")] on 1-D arrays. *)
Definition _compute_residuals (data model : list float) (method : string)
  : result (list float) :=
  if String.eqb method "diff" then
    Np.ufunc2 sub data model
  else if String.eqb method "diff/model" then
    d ← Np.ufunc2 sub data model; Np.ufunc2 div d model
  else if String.eqb method "diff/sqrt(model)" then
    d ← Np.ufunc2 sub data model; Np.ufunc2 div d (Np.sqrt1 model)
  else
    raise AttributeError (Some (invalid_method_msg method)).

(** Modelled from the spec: [make_name] of [gammapy.utils.scripts] is not
    part of the sources at hand.  A given name is kept; without one a
    freshly generated unique name is used, here the argument [generated]. *)
Definition make_name (generated : string) (name : option string) : string :=
  match name with
  | Some n => n
  | None => generated
  end.

(** The next unused object identity. *)
Definition fresh_ref (h : Heap) : ref :=
  fresh (dom (h_datasets h) ∪ dom (h_models h)).

(** [copy.deepcopy] of the models a dataset refers to.  [memo] maps the
    originals already copied to their copies, so that a model referred to
    twice is copied once.  The result is the list of the copies, in order. *)
Fixpoint deepcopy_models (refs : list ref) (memo : gmap ref ref) (h : Heap)
  : list ref * gmap ref ref * Heap :=
  match refs with
  | [] => ([], memo, h)
  | r :: refs' =>
      match memo !! r with
      | Some r' =>
          let '(out, memo', h') := deepcopy_models refs' memo h in
          (r' :: out, memo', h')
      | None =>
          match h_models h !! r with
          | Some m =>
              let r' := fresh_ref h in
              let h1 := mk_Heap (h_datasets h) (<[r' := m]> (h_models h)) in
              let '(out, memo', h') :=
                deepcopy_models refs' (<[r := r']> memo) h1 in
              (r' :: out, memo', h')
          | None =>
              (* a reference to no object: nothing to copy *)
              let '(out, memo', h') := deepcopy_models refs' memo h in
              (r :: out, memo', h')
          end
      end
  end.

(** [copy.deepcopy(self)]: the models first, then the dataset object
    itself, each at a fresh identity. *)
Definition deepcopy (h : Heap) (self : t) : t * Heap :=
  let '(models', memo, h1) :=
    match _models self with
    | Some refs =>
        let '(out, memo, h1) := deepcopy_models refs ∅ h in
        (Some out, memo, h1)
    | None => (None, ∅, h)
    end in
  let '(bkg', h2) :=
    match background_model self with
    | Some b =>
        let '(out, _, h2) := deepcopy_models [b] memo h1 in
        (head out, h2)
    | None => (None, h1)
    end in
  let r := fresh_ref h2 in
  let new := mk r (_name self) (tag self) (mask_safe self) (mask_fit self)
                (stat_array self) models' bkg' in
  (new, mk_Heap (<[r := new]> (h_datasets h2)) (h_models h2)).

(** The inner loop of [copy]:
    [for k, d in enumerate(m.datasets_names): if d == self.name: m.datasets_names[k] = name] *)
Definition rename_in (old new : string) (names : list string) : list string :=
  map (fun d => if String.eqb d old then new else d) names.

(** The body of [for m in new._models] on the model object at [r]. *)
Definition rewire_model (self_name name : string) (bkg : option ref)
    (hm : gmap ref Model) (r : ref) : gmap ref Model :=
  match hm !! r with
  | Some m =>
      match datasets_names m with
      | Some names =>
          let m1 := mk_Model (model_name m)
                      (Some (rename_in self_name name names)) in
          let m2 := if decide (bkg = Some r)
                    then mk_Model (name ++ "-bkg") (datasets_names m1)
                    else m1 in
          <[r := m2]> hm
      | None => hm
      end
  | None => hm
  end.

(** [copy(self, name=None)]: a deep copy.  Returns the identity of the
    new dataset and the heap after the call. *)
Definition copy (h : Heap) (self : ref) (name : option string)
    (generated : string) : option (ref * Heap) :=
  match h_datasets h !! self with
  | None => None
  | Some d =>
      let '(new, h1) := deepcopy h d in
      let name := make_name generated name in
      let new := mk (py_id new) name (tag new) (mask_safe new) (mask_fit new)
                   (stat_array new) (_models new) (background_model new) in
      let hd := <[py_id new := new]> (h_datasets h1) in
      (* [self.name] is read from the original at every comparison *)
      let self_name :=
        match hd !! self with Some d' => _name d' | None => _name d end in
      let hm :=
        match _models new with
        | Some refs =>
            fold_left (rewire_model self_name name (background_model new))
                      refs (h_models h1)
        | None => h_models h1
        end in
      Some (py_id new, mk_Heap hd hm)
  end.

(** What the loop of [copy] leaves of a model [m] of the copy: a model
    without [datasets_names] stays as it is; otherwise every occurrence
    of the old dataset name is replaced by the new one, and the
    background model is renamed after the new dataset. *)
Definition rewired (self_name name : string) (is_background : bool)
    (m : Model) : Model :=
  match datasets_names m with
  | Some names =>
      mk_Model (if is_background then name ++ "-bkg" else model_name m)
               (Some (rename_in self_name name names))
  | None => m
  end.
End Dataset.

(** ** [class Datasets(collections.abc.MutableSequence)] *)

Module Datasets.

Record t := mk { _datasets : list Dataset.t }.

(** What a caller may pass where a dataset or a list of datasets is
    expected.  [PyOther] is any other object, with its [repr] and the
    [repr] of its type. *)
Inductive pyobj :=
| PyDatasets (D : t)
| PyDataset (d : Dataset.t)
| PyList (l : list Dataset.t)
| PyOther (repr type_repr : string).

(** [isinstance(o, Dataset)]: the dataset, or else [repr(type(o))]. *)
Definition as_dataset (o : pyobj) : Dataset.t + string :=
  match o with
  | PyDataset d => inl d
  | PyDatasets _ => inr "<class 'gammapy.datasets.core.Datasets'>"
  | PyList _ => inr "<class 'list'>"
  | PyOther _ tr => inr tr
  end.

Definition unique_msg : string := "Dataset names must be unique".

(** [__init__(self, datasets=None)] *)
Definition __init__ (datasets : option pyobj) : result t :=
  let datasets := match datasets with None => PyList [] | Some o => o end in
  datasets ← match datasets with
             | PyDatasets D => Ok (_datasets D)
             | PyDataset d => Ok [d]
             | PyList l => Ok l
             | PyOther r _ => raise TypeError (Some ("Invalid type: " ++ r)%string)
             end;
  _ ← foldR (fun unique_names dataset =>
               if decide (Dataset.name dataset ∈ unique_names)
               then raise ValueError (Some unique_msg)
               else Ok (unique_names ++ [Dataset.name dataset]))
            ([] : list string) datasets;
  Ok (mk datasets).

Definition names (self : t) : list string :=
  map Dataset.name (_datasets self).

Definition __len__ (self : t) : nat := length (_datasets self).

(** Keys of the sequence protocol. *)
Inductive key :=
| KInt (i : Z)
| KSlice (start stop : option Z)
| KStr (s : string)
| KDataset (d : Dataset.t)
| KOther (type_repr : string).

(** What [index] returns: an [int] or the [slice] it was given. *)
Inductive position :=
| PInt (i : Z)
| PSlice (start stop : option Z).

(** Two dataset objects are equal when they are the same object. *)
Definition same_object (a b : Dataset.t) : bool :=
  Pos.eqb (Dataset.py_id a) (Dataset.py_id b).

Definition index (self : t) (k : key) : result position :=
  match k with
  | KInt i => Ok (PInt i)
  | KSlice a b => Ok (PSlice a b)
  | KStr s =>
      match PyList.index String.eqb s (names self) with
      | Some i => Ok (PInt (Z.of_nat i))
      | None => raise ValueError None
      end
  | KDataset d =>
      match PyList.index same_object d (_datasets self) with
      | Some i => Ok (PInt (Z.of_nat i))
      | None => raise ValueError None
      end
  | KOther tr => raise TypeError (Some ("Invalid type: " ++ tr)%string)
  end.

(** [self[key]] is one dataset, or a list of them for a slice. *)
Inductive item :=
| One (d : Dataset.t)
| Many (l : list Dataset.t).

Definition __getitem__ (self : t) (k : key) : result item :=
  p ← index self k;
  match p with
  | PInt i => One <$> PyList.getitem (_datasets self) i
  | PSlice a b => Ok (Many (PyList.getslice (_datasets self) a b))
  end.

(** The mutators return the outcome together with the collection after
    the call. *)
Definition __setitem__ (k : key) (dataset : pyobj) (self : t)
  : result unit * t :=
  match as_dataset dataset with
  | inl d =>
      if decide (Dataset.name d ∈ names self) then
        (raise ValueError (Some unique_msg), self)
      else
        match index self k with
        | Ok (PInt i) =>
            match PyList.setitem (_datasets self) i d with
            | Ok l => (Ok tt, mk l)
            | Raise e => (Raise e, self)
            end
        | Ok (PSlice _ _) =>
            (* a dataset is not iterable: slice assignment refuses it *)
            (raise TypeError None, self)
        | Raise e => (Raise e, self)
        end
  | inr tr => (raise TypeError (Some ("Invalid type: " ++ tr)%string), self)
  end.

Definition insert (idx : Z) (dataset : pyobj) (self : t)
  : result unit * t :=
  match as_dataset dataset with
  | inl d =>
      if decide (Dataset.name d ∈ names self) then
        (raise ValueError (Some unique_msg), self)
      else
        (Ok tt, mk (PyList.insert (_datasets self) idx d))
  | inr tr => (raise TypeError (Some ("Invalid type: " ++ tr)%string), self)
  end.

(** [Sequence.__iter__], which [for dataset in self] runs: it asks for
    [self[0]], [self[1]], ... until an IndexError.  [fuel] bounds the
    number of requests. *)
Fixpoint iter_from (fuel : nat) (i : Z) (self : t)
  : result (list Dataset.t) :=
  match fuel with
  | O => Ok []
  | S fuel' =>
      match __getitem__ self (KInt i) with
      | Ok (One v) => (fun rest => v :: rest) <$> iter_from fuel' (i + 1) self
      | Ok (Many _) => Ok []
      | Raise e =>
          match exn_cls e with
          | IndexError => Ok []
          | _ => Raise e
          end
      end
  end.

Definition __iter__ (self : t) : result (list Dataset.t) :=
  iter_from (S (__len__ self)) 0 self.

(** [stat_sum]: compute joint likelihood. *)
Definition stat_sum `{Np.Sum} (self : t) : result pynum :=
  ds ← __iter__ self;
  foldR (fun stat_sum dataset =>
           s ← Dataset.stat_sum dataset;
           Ok (py_add stat_sum (PyFloat s)))
        (PyInt 0) ds.

(** [__delitem__(self, key)] *)
Definition __delitem__ (k : key) (self : t) : result unit * t :=
  match index self k with
  | Ok (PInt i) =>
      match PyList.delitem (_datasets self) i with
      | Ok l => (Ok tt, mk l)
      | Raise e => (Raise e, self)
      end
  | Ok (PSlice a b) => (Ok tt, mk (PyList.delslice (_datasets self) a b))
  | Raise e => (Raise e, self)
  end.

(** [len(set(attr(_) for _ in self)) == 1], the body shared by
    [is_all_same_type] ([attr] is [__class__]), [is_all_same_shape]
    ([data_shape]) and [is_all_same_energy_shape] ([data_shape[0]]).  The
    attribute is read off the dataset object; the set is the list of the
    distinct values. *)
Definition is_all_same {C} `{EqDecision C} (attr : Dataset.t -> C) (self : t)
  : result bool :=
  ds ← __iter__ self;
  Ok (length (remove_dups (map attr ds)) =? 1)%nat.

Section select_time.
(** Times and tolerances are astropy objects; what [select_time] uses of
    them is their comparison and the shift of a time by a tolerance.
    [gti_span d] is [(d.gti.time_start[0], d.gti.time_stop[-1])], or [None]
    when [d.gti] is None. *)
Context {time quantity : Type}.
Variable time_ge time_le : time -> time -> bool.
Variable time_minus time_plus : time -> quantity -> time.
Variable gti_span : Dataset.t -> option (time * time).

(** The test of the loop body on one dataset. *)
Definition in_interval (t_min t_max : time) (atol : quantity)
    (dataset : Dataset.t) : result bool :=
  match gti_span dataset with
  | Some (t_start, t_stop) =>
      Ok (time_ge t_start (time_minus t_min atol)
          && time_le t_stop (time_plus t_max atol))
  | None => raise AttributeError None
  end.

(** The datasets [select_time] keeps: those with a GTI whose first start
    and last stop lie within the interval widened by [atol]. *)
Definition within_interval (t_min t_max : time) (atol : quantity)
    (dataset : Dataset.t) : bool :=
  match gti_span dataset with
  | Some (t_start, t_stop) =>
      time_ge t_start (time_minus t_min atol)
      && time_le t_stop (time_plus t_max atol)
  | None => false
  end.

(** [select_time(self, t_min, t_max, atol)] *)
Definition select_time (t_min t_max : time) (atol : quantity) (self : t)
  : result t :=
  ds ← __iter__ self;
  datasets ← foldR (fun datasets dataset =>
                      (fun keep : bool =>
                         if keep then datasets ++ [dataset] else datasets)
                      <$> in_interval t_min t_max atol dataset)
                   ([] : list Dataset.t) ds;
  __init__ (Some (PyList datasets)).
End select_time.
End Datasets.

(** ** Parameters *)

Module Param.
(** [class Parameter]: a named scalar parameter; [py_id] is the identity
    of the object. *)
Record t := mk {
  py_id : ref;
  name : string;
  value : float;
  error : float;
  scale : float;
  frozen : bool
}.

Definition same_object (a b : t) : bool := Pos.eqb (py_id a) (py_id b).
End Param.

Module ParameterPool.
(** [class Parameters]: an ordered pool of parameter references. *)
Abbreviation t := (list Param.t).

Definition ids (self : t) : list ref := map Param.py_id self.

(** Modelled from the spec: the class [Parameters] is not part of the
    sources at hand.  Index lookup is by identity: the position of the
    first reference to the same object, a ValueError when there is none. *)
Definition index (self : t) (par : Param.t) : result nat :=
  match PyList.index Param.same_object par self with
  | Some i => Ok i
  | None => raise ValueError None
  end.

(** Keep the first reference to every object. *)
Fixpoint unique (seen : list ref) (l : list Param.t) : t :=
  match l with
  | [] => []
  | p :: l' =>
      if decide (Param.py_id p ∈ seen) then unique seen l'
      else p :: unique (Param.py_id p :: seen) l'
  end.

(** Modelled from the spec: [from_stack] concatenates the pools, keeping
    the order of each, and merges shared references. *)
Definition from_stack (pools : list t) : t := unique [] (concat pools).
End ParameterPool.

(** ** [class Covariance] *)

Module Covariance.
Local Open Scope float_scope.

(** [parameters] and [_data]; the [filename] attribute plays no part in
    the operations below and is left out. *)
Record t := mk {
  parameters : ParameterPool.t;
  _data : Np.matrix
}.

(** [__init__(self, parameters, data=None)]: without data, the diagonal
    matrix of the squared parameter errors, [p.error ** 2] for each
    parameter in pool order; an exception of the squaring escapes. *)
Definition __init__ `{Square} (parameters : ParameterPool.t)
    (data : option Np.matrix) : result t :=
  data ← match data with
         | Some d => Ok d
         | None =>
             Np.diag <$> mapR (fun p => float_square (Param.error p))
                              parameters
         end;
  Ok (mk parameters data).

Definition shape (self : t) : nat * nat :=
  let npars := length (parameters self) in (npars, npars).

Definition data (self : t) : Np.matrix := _data self.

(** [_expand_factor_matrix]: expand covariance matrix with zeros for
    frozen parameters. *)
Definition _expand_factor_matrix (matrix : Np.matrix)
    (parameters : ParameterPool.t) : result Np.matrix :=
  let npars := length parameters in
  let matrix_expanded := Np.zeros npars npars in
  let mask := map Param.frozen parameters in
  match mask with
  | [] =>
      (* [np.array([])] is a float array, which [|] and [~] refuse *)
      raise TypeError None
  | _ =>
      let free_parameters :=
        Np.tabulate npars npars
          (fun i j => negb (default false (mask !! j)
                            || default false (mask !! i))) in
      Np.mask_assign matrix_expanded free_parameters (Np.ravel matrix)
  end.

(** [from_factor_matrix]: set covariance from factor covariance matrix. *)
Definition from_factor_matrix `{Square} (parameters : ParameterPool.t)
    (matrix : Np.matrix) : result t :=
  let npars := length parameters in
  matrix ← (if negb (Np.shape_eqb (Np.shape matrix) (npars, npars))
            then _expand_factor_matrix matrix parameters
            else Ok matrix);
  let scales := map Param.scale parameters in
  let scale_matrix := Np.outer scales scales in
  data ← Np.ufunc2_2d mul scale_matrix matrix;
  __init__ parameters (Some data).

(** [get_subcovariance(parameters)] *)
Definition get_subcovariance `{Square} (self : t) (pars : ParameterPool.t)
  : result t :=
  idx ← mapR (ParameterPool.index (parameters self)) pars;
  data ← Np.ix_get (_data self) idx;
  __init__ pars (Some data).

(** [set_subcovariance(covar)].  [covar.data] is an array of its own (it
    shares no memory with [self.data]).  The result is [self] after the
    call; the state left behind by a call that raises is not tracked. *)
Definition set_subcovariance (self covar : t) : result t :=
  idx ← mapR (ParameterPool.index (parameters self)) (parameters covar);
  sub ← Np.ix_get (data self) idx;
  close ← Np.allclose sub (data covar);
  data1 ← (if negb close
           then d ← Np.zero_rows idx (data self); Np.zero_cols idx d
           else Ok (data self));
  data2 ← Np.ix_set data1 idx (data covar);
  Ok (mk (parameters self) data2).

(** [from_stack(covar_list)]: stack sub-covariance matrices from list. *)
Definition from_stack `{Square} (covar_list : list t) : result t :=
  let parameters := ParameterPool.from_stack (map parameters covar_list) in
  covar ← __init__ parameters None;
  foldR set_subcovariance covar covar_list.

(** The description to compare [from_stack] with: the same steps, but
    starting from a zero covariance over the stacked pool. *)
Definition from_stack_zero_start (covar_list : list t) : result t :=
  let parameters := ParameterPool.from_stack (map parameters covar_list) in
  let npars := length parameters in
  let covar := mk parameters (Np.zeros npars npars) in
  foldR set_subcovariance covar covar_list.

(** [correlation]: the correlation matrix. *)
Definition correlation (self : t) : result Np.matrix :=
  let err := Np.sqrt1 (Np.diagonal (data self)) in
  correlation ← Np.ufunc2_2d div (data self) (Np.outer err err);
  Ok (Np.nan_to_num correlation).

(** [repr] of a shape tuple, as an f-string formats it: [(2, 3)]. *)
Definition repr_shape (shape : nat * nat) : string :=
  "(" ++ NilEmpty.string_of_uint (Nat.to_uint (fst shape)) ++ ", "
  ++ NilEmpty.string_of_uint (Nat.to_uint (snd shape)) ++ ")".

(** The setter of the [data] property. *)
Definition data_setter (self : t) (value : Np.matrix) : result t :=
  let npars := length (parameters self) in
  let shape := (npars, npars) in
  if negb (Np.shape_eqb (Np.shape value) shape) then
    raise ValueError
      (Some ("Invalid covariance shape: " ++ repr_shape (Np.shape value)
             ++ ", expected " ++ repr_shape shape)%string)
  else Ok (mk (parameters self) value).

(** A matrix that equals its transpose. *)
Definition symmetric (m : Np.matrix) : Prop :=
  forall i j, Np.get m i j = Np.get m j i.

(** The entries of [self.data] after [self.set_subcovariance(covar)], given
    the indices [idx] of the parameters of [covar] and the outcome [close]
    of the comparison of the block with [covar.data]. *)
Definition entries_after (close : bool) (idx : list nat) (old block : Np.matrix)
    (i j : nat) : float :=
  match Np.last_index_of i idx, Np.last_index_of j idx with
  | Some a, Some b => Np.get block a b
  | _, _ =>
      if close then Np.get old i j
      else if decide (i ∈ idx \/ j ∈ idx) then 0
      else Np.get old i j
  end.

(** The description to compare [from_factor_matrix] with.  [rank frozen i]
    counts the free (non-frozen) parameters before position [i], which is
    the row and column a free parameter has in the reduced matrix. *)
Fixpoint rank (frozen : list bool) (i : nat) : nat :=
  match i, frozen with
  | S i', b :: frozen' => (if b then 0 else 1) + rank frozen' i'
  | _, _ => 0
  end.

Definition count_free (frozen : list bool) : nat :=
  length (filter (fun b => b = false) frozen).

(** The expansion of a reduced matrix: its entries at the index pairs of
    free parameters, 0.0 in every row and column of a frozen parameter. *)
Definition expansion (matrix : Np.matrix) (parameters : ParameterPool.t)
  : Np.matrix :=
  let frozen := map Param.frozen parameters in
  let n := length parameters in
  Np.tabulate n n
    (fun i j =>
       if default false (frozen !! i) || default false (frozen !! j) then 0
       else Np.get matrix (rank frozen i) (rank frozen j)).

(** The element-wise product of the outer product of the scales with [m]. *)
Definition scaled (parameters : ParameterPool.t) (m : Np.matrix) : Np.matrix :=
  let scales := map Param.scale parameters in
  let n := length parameters in
  Np.tabulate n n
    (fun i j => (default 0 (scales !! i) * default 0 (scales !! j))
                * Np.get m i j).

(** [vals] laid out over the positions that are not frozen, [d] elsewhere. *)
Fixpoint spread {A} (d : A) (frozen : list bool) (vals : list A) : list A :=
  match frozen with
  | [] => []
  | true :: frozen' => d :: spread d frozen' vals
  | false :: frozen' =>
      match vals with
      | v :: vals' => v :: spread d frozen' vals'
      | [] => d :: spread d frozen' []
      end
  end.

(** A covariance is well formed when its data is N x N for its N
    parameters and no parameter occurs twice in its pool. *)
Definition well_formed (self : t) : Prop :=
  let n := length (parameters self) in
  Np.is_shape n n (data self) = true
  /\ NoDup (ParameterPool.ids (parameters self)).

(** The description to compare [correlation] with: every entry is the
    quotient [data[i][j] / (sqrt(data[i][i]) * sqrt(data[j][j]))], or 0.0
    where that quotient is NaN or infinite. *)
Definition quotient (m : Np.matrix) (i j : nat) : float :=
  Np.get m i j / (sqrt (Np.get m i i) * sqrt (Np.get m j j)).

Definition correlation_zeroing (self : t) : Np.matrix :=
  let n := length (parameters self) in
  Np.tabulate n n
    (fun i j =>
       let q := quotient (data self) i j in
       if is_nan q || is_infinity q then 0 else q).
End Covariance.

(** ** Concrete inputs *)

Module Examples.
Local Open Scope float_scope.

(** Three single-bin datasets with statistic sums 1.0, 2.5 and 0.75. *)
Definition one_bin (id : ref) (name : string) (v : float) : Dataset.t :=
  Dataset.mk id name "SpectrumDataset" None None [v] None None.

Definition three : Datasets.t :=
  Datasets.mk [one_bin 1 "obs-1" 1; one_bin 2 "obs-2" 2.5; one_bin 3 "obs-3" 0.75].

(** Observation spans of the three datasets, in seconds since a common
    reference: 0 to 10, 20 to 30 and 40 to 50. *)
Definition span (dataset : Dataset.t) : option (Z * Z) :=
  match Dataset.py_id dataset with
  | 1%positive => Some (0, 10)%Z
  | 2%positive => Some (20, 30)%Z
  | 3%positive => Some (40, 50)%Z
  | _ => None
  end.

(** A dataset of three bins whose fit mask leaves the second bin out and
    whose safe mask keeps all three. *)
Definition masked : Dataset.t :=
  Dataset.mk 4 "obs-4" "SpectrumDataset"
             (Some [true; true; true]) (Some [true; false; true])
             [1; 2.5; 0.75] None None.

(** A dataset with two models, one of them its background model, the
    other referred to twice. *)
Definition observed : Dataset.t :=
  Dataset.mk 1 "obs-1" "MapDataset" None None []
             (Some [5; 6; 5]%positive) (Some 6%positive).

Definition heap : Dataset.Heap :=
  Dataset.mk_Heap
    {[ 1%positive := observed ]}
    {[ 5%positive := mk_Model "source" (Some ["obs-1"; "obs-2"]);
       6%positive := mk_Model "obs-1-bkg" (Some ["obs-1"]) ]}.

(** Parameters [a], [b], [c]; only [c] has a nonzero error. *)
Definition par (id : ref) (name : string) (error : float) : Param.t :=
  Param.mk id name 1 error 1 false.

Definition a : Param.t := par 11 "index" 0.
Definition b : Param.t := par 12 "amplitude" 0.
Definition c : Param.t := par 13 "reference" 1.

(** Two sub-covariances whose pools share [b]. *)
Definition ab : Covariance.t := Covariance.mk [a; b] [[1; 0.5]; [0.5; 1]].
Definition bc : Covariance.t := Covariance.mk [b; c] [[1; 0]; [0; 1]].

(** A covariance whose first parameter has variance 0 and a nonzero
    covariance with the second, and one with variances 2 and 4. *)
Definition zero_variance : Covariance.t :=
  Covariance.mk [a; b] [[0; 1]; [1; 1]].
Definition two_four : Covariance.t :=
  Covariance.mk [a; b] [[2; 1]; [1; 4]].

(** A covariance over [a], [b], [c] with cross terms, and a sub-covariance
    over [c] and [a], in that order. *)
Definition abc : Covariance.t :=
  Covariance.mk [a; b; c] [[1; 0.5; 0.25]; [0.5; 2; 0.75]; [0.25; 0.75; 3]].
Definition ca : Covariance.t :=
  Covariance.mk [c; a] [[9; 0.125]; [0.125; 4]].

(** A covariance over one parameter whose error is the float64 nearest
    to 1e200: the square of the error is out of the range of float64. *)
Definition huge : Covariance.t :=
  Covariance.mk [par 16 "norm" 0x1.4e718d7d7625ap+664] [[1]].

(** Two sub-covariances over disjoint pools, of 2 and of 3 parameters. *)
Definition d : Param.t := par 14 "lambda" 0.5.
Definition e : Param.t := par 15 "alpha" 0.
Definition pair : Covariance.t :=
  Covariance.mk [a; b] [[1; 0.5]; [0.5; 2]].
Definition triple : Covariance.t :=
  Covariance.mk [c; d; e] [[3; 0.25; 0.125]; [0.25; 4; 0.75]; [0.125; 0.75; 5]].

(** A pool with scales 1, 2, 3 whose second parameter is frozen, and a
    factor matrix over its two free parameters. *)
Definition scaled_pool : ParameterPool.t :=
  [ Param.mk 21 "index" 2 0 1 false;
    Param.mk 22 "amplitude" 1 0 2 true;
    Param.mk 23 "reference" 1 0 3 false ].
Definition reduced : Np.matrix := [[1; 2]; [3; 4]].
End Examples.

(** * Properties *)

(** ** The result monad and Python lists *)

Lemma bind_Ok {A B} (f : A -> result B) (a : A) : (Ok a ≫= f) = f a.
Proof. reflexivity. Qed.

Lemma fmap_Ok {A B} (f : A -> B) (a : A) : f <$> Ok a = Ok (f a).
Proof. reflexivity. Qed.

Lemma norm_index_nat {A} (l : list A) (k : nat) :
  PyList.norm_index l (Z.of_nat k)
  = if decide (k < length l)%nat then Some k else None.
Proof.
  unfold PyList.norm_index.
  destruct (Z.ltb_spec (Z.of_nat k) 0) as [Hneg|_]; [lia|].
  destruct (Z.leb_spec 0 (Z.of_nat k)) as [_|Hneg]; [|lia].
  destruct (Z.ltb_spec (Z.of_nat k) (Z.of_nat (length l))) as [Hlt|Hge];
    case_decide; try lia; simpl.
  - by rewrite Nat2Z.id.
  - done.
Qed.

Lemma getitem_nat_Some {A} (l : list A) (k : nat) (x : A) :
  l !! k = Some x -> PyList.getitem l (Z.of_nat k) = Ok x.
Proof.
  intros Hk. unfold PyList.getitem. rewrite norm_index_nat.
  apply lookup_lt_Some in Hk as Hlt. case_decide; [|lia]. by rewrite Hk.
Qed.

Lemma getitem_nat_None {A} (l : list A) (k : nat) :
  (length l <= k)%nat -> PyList.getitem l (Z.of_nat k) = raise IndexError None.
Proof.
  intros Hk. unfold PyList.getitem. rewrite norm_index_nat.
  case_decide; [lia|done].
Qed.

(** ** Iterating over a [Datasets] *)

Lemma iter_from_drop (l : list Dataset.t) (fuel k : nat) :
  (length l - k < fuel)%nat ->
  Datasets.iter_from fuel (Z.of_nat k) (Datasets.mk l) = Ok (drop k l).
Proof.
  revert k. induction fuel as [|fuel IH]; intros k Hfuel; [lia|].
  simpl. unfold Datasets.__getitem__. simpl.
  destruct (l !! k) as [x|] eqn:Hk.
  - rewrite (getitem_nat_Some _ _ _ Hk). simpl.
    apply lookup_lt_Some in Hk as Hlt.
    replace (Z.of_nat k + 1) with (Z.of_nat (S k)) by lia.
    rewrite IH by lia. simpl.
    by rewrite (drop_S _ _ _ Hk).
  - apply lookup_ge_None in Hk.
    rewrite (getitem_nat_None _ _ Hk). simpl.
    by rewrite drop_ge.
Qed.

(** [for dataset in self] visits the stored datasets, in order. *)
Lemma iter_datasets (D : Datasets.t) :
  Datasets.__iter__ D = Ok (Datasets._datasets D).
Proof.
  destruct D as [l].
  exact (iter_from_drop l (S (length l)) 0 ltac:(lia)).
Qed.

Lemma stat_sum_loop `{Np.Sum} (ds : list Dataset.t) (vs : list float) (acc : pynum) :
  Forall2 (fun d v => Dataset.stat_sum d = Ok v) ds vs ->
  foldR (fun stat_sum dataset =>
           s ← Dataset.stat_sum dataset; Ok (py_add stat_sum (PyFloat s)))
        acc ds
  = Ok (fold_left py_add (map PyFloat vs) acc).
Proof.
  intros Hall. revert acc.
  induction Hall as [|d v ds vs Hd _ IH]; intros acc; [done|].
  simpl. rewrite Hd. simpl. apply IH.
Qed.

(** ** Datasets.stat_sum *)

(** C1.  For every collection [D] whose datasets have the statistic sums
    [vs], [D.stat_sum()] is the sum of those values accumulated one after
    the other, in the order of the collection, starting from the integer 0. *)
Theorem Datasets_stat_sum_serial `{Np.Sum} (D : Datasets.t) (vs : list float) :
  Forall2 (fun d v => Dataset.stat_sum d = Ok v) (Datasets._datasets D) vs ->
  Datasets.stat_sum D = Ok (fold_left py_add (map PyFloat vs) (PyInt 0)).
Proof.
  intros Hall. unfold Datasets.stat_sum.
  rewrite iter_datasets, bind_Ok. by apply stat_sum_loop.
Qed.

Lemma Datasets_stat_sum_serial_witness :
  Datasets.stat_sum (H := Np.sum_serial) Examples.three = Ok (PyFloat 4.25).
Proof.
  apply (Datasets_stat_sum_serial (H := Np.sum_serial) Examples.three
           [1; 2.5; 0.75]%float).
  repeat constructor.
Defined.

(** C10.  A collection constructed without argument is empty, and the
    statistic sum of an empty collection is the integer 0. *)
Theorem Datasets_empty_stat_sum :
  Datasets.__init__ None = Ok (Datasets.mk [])
  /\ Datasets.__len__ (Datasets.mk []) = 0%nat
  /\ forall S : Np.Sum, Datasets.stat_sum (Datasets.mk []) = Ok (PyInt 0).
Proof. repeat split. Qed.

(** ** Name uniqueness of a [Datasets] *)

Lemma not_NoDup_cons {A} `{EqDecision A} (x : A) (l : list A) :
  ~ NoDup (x :: l) -> x ∈ l \/ ~ NoDup l.
Proof.
  intros Hnd. destruct (decide (x ∈ l)) as [Hin|Hnin]; [by left|].
  right. intros Hl. apply Hnd. by constructor.
Qed.

(** The loop of [__init__] raises as soon as a name is met twice. *)
Lemma init_loop_duplicate (l : list Dataset.t) (seen : list string) :
  (exists n, n ∈ seen /\ n ∈ map Dataset.name l) \/ ~ NoDup (map Dataset.name l) ->
  foldR (fun unique_names dataset =>
           if decide (Dataset.name dataset ∈ unique_names)
           then raise ValueError (Some Datasets.unique_msg)
           else Ok (unique_names ++ [Dataset.name dataset]))
        seen l
  = raise ValueError (Some Datasets.unique_msg).
Proof.
  revert seen. induction l as [|x l IH]; intros seen Hdup.
  - destruct Hdup as [(n & _ & Hn)|Hnd].
    + by apply elem_of_nil in Hn.
    + exfalso. apply Hnd. constructor.
  - cbn [foldR map]. case_decide as Hx; [done|].
    rewrite bind_Ok. apply IH.
    destruct Hdup as [(n & Hseen & Hn)|Hnd].
    + cbn [map] in Hn. apply elem_of_cons in Hn as [->|Hn]; [done|].
      left. exists n. split; [|done]. apply elem_of_app. by left.
    + cbn [map] in Hnd. apply not_NoDup_cons in Hnd as [Hin|Hnd]; [|by right].
      left. exists (Dataset.name x). split; [|done].
      apply elem_of_app. right. by apply list_elem_of_singleton.
Qed.

Lemma init_duplicate (l : list Dataset.t) :
  ~ NoDup (map Dataset.name l) ->
  Datasets.__init__ (Some (Datasets.PyList l))
  = raise ValueError (Some Datasets.unique_msg).
Proof.
  intros Hnd. unfold Datasets.__init__. rewrite bind_Ok.
  by rewrite init_loop_duplicate by by right.
Qed.

Lemma insert_names_duplicate (l : list Dataset.t) (idx : Z) (d : Dataset.t) :
  Dataset.name d ∈ map Dataset.name l ->
  ~ NoDup (map Dataset.name (PyList.insert l idx d)).
Proof.
  intros Hin Hnd. unfold PyList.insert in Hnd.
  set (j := Z.to_nat _) in Hnd.
  rewrite map_app in Hnd. cbn [map] in Hnd.
  apply NoDup_app in Hnd as (_ & Hl & Hr).
  apply NoDup_cons in Hr as [Hr _].
  rewrite <- (take_drop j l), map_app in Hin.
  apply elem_of_app in Hin as [Hin|Hin]; [|done].
  apply (Hl _ Hin). by left.
Qed.

(** C2.  When the name of [d] is already the name of a dataset of [D]:
    [insert] and [__setitem__] raise the ValueError and leave [D] as it
    was (so its length and its names are what they were), and constructing
    a collection from the datasets of [D] with [d] among them raises the
    same error. *)
Theorem Datasets_duplicate_name_rejected (D : Datasets.t) (d : Dataset.t) :
  Dataset.name d ∈ Datasets.names D ->
  (forall idx,
      Datasets.insert idx (Datasets.PyDataset d) D
      = (raise ValueError (Some Datasets.unique_msg), D))
  /\ (forall k,
      Datasets.__setitem__ k (Datasets.PyDataset d) D
      = (raise ValueError (Some Datasets.unique_msg), D))
  /\ (forall idx,
      Datasets.__init__
        (Some (Datasets.PyList (PyList.insert (Datasets._datasets D) idx d)))
      = raise ValueError (Some Datasets.unique_msg))
  /\ (forall idx k D',
      D' = snd (Datasets.insert idx (Datasets.PyDataset d) D)
      \/ D' = snd (Datasets.__setitem__ k (Datasets.PyDataset d) D) ->
      Datasets.__len__ D' = Datasets.__len__ D
      /\ Datasets.names D' = Datasets.names D).
Proof.
  intros Hin.
  assert (Hins : forall idx, Datasets.insert idx (Datasets.PyDataset d) D
                 = (raise ValueError (Some Datasets.unique_msg), D)).
  { intros idx. unfold Datasets.insert. cbn [Datasets.as_dataset].
    by case_decide. }
  assert (Hset : forall k, Datasets.__setitem__ k (Datasets.PyDataset d) D
                 = (raise ValueError (Some Datasets.unique_msg), D)).
  { intros k. unfold Datasets.__setitem__. cbn [Datasets.as_dataset].
    by case_decide. }
  repeat split.
  - exact Hins.
  - exact Hset.
  - intros idx. apply init_duplicate. by apply insert_names_duplicate.
  - destruct H as [->| ->]; [by rewrite Hins|by rewrite Hset].
  - destruct H as [->| ->]; [by rewrite Hins|by rewrite Hset].
Qed.

Lemma Datasets_duplicate_name_rejected_witness :
  Datasets.insert 1 (Datasets.PyDataset (Examples.one_bin 9 "obs-2" 0)) Examples.three
  = (raise ValueError (Some Datasets.unique_msg), Examples.three).
Proof.
  refine (proj1 (Datasets_duplicate_name_rejected Examples.three
                   (Examples.one_bin 9 "obs-2" 0) _) 1).
  vm_compute. apply list_elem_of_In. simpl. tauto.
Defined.

(** ** Dataset.stat_sum *)

Lemma select_filter {A} (a : list A) (m : list bool) :
  Np.select a m = (filter (fun p => snd p = true) (zip a m)).*1.
Proof.
  revert m. induction a as [|x a IH]; intros [|b m]; try done.
  change (zip (x :: a) (b :: m)) with ((x, b) :: zip a m).
  rewrite filter_cons. destruct b; cbn [Np.select]; case_decide; try done.
  rewrite fmap_cons. cbn [fst]. by rewrite IH.
Qed.

(** C6.  [d.stat_sum()] is the float64 sum of the entries of
    [d.stat_array()] at which [d.mask] holds when there is a mask, and the
    sum of all entries when [d.mask] is None.  (A mask of another shape than
    the array is numpy's IndexError, and an error of [d.mask] escapes.) *)
Theorem Dataset_stat_sum_mask `{Np.Sum} (d : Dataset.t) :
  match Dataset.mask d with
  | Ok None => Dataset.stat_sum d = Ok (Np.sum (Dataset.stat_array d))
  | Ok (Some m) =>
      if decide (length (Dataset.stat_array d) = length m) then
        Dataset.stat_sum d
        = Ok (Np.sum ((filter (fun p => snd p = true)
                         (zip (Dataset.stat_array d) m)).*1))
      else Dataset.stat_sum d = raise IndexError None
  | Raise e => Dataset.stat_sum d = Raise e
  end.
Proof.
  unfold Dataset.stat_sum.
  destruct (Dataset.mask d) as [[m|]|e]; try reflexivity.
  rewrite bind_Ok. unfold Np.bool_index.
  case_decide as Hlen.
  - rewrite (proj2 (Nat.eqb_eq _ _) Hlen). rewrite bind_Ok.
    by rewrite select_filter.
  - by rewrite (proj2 (Nat.eqb_neq _ _) Hlen).
Qed.

Lemma Dataset_stat_sum_mask_witness :
  Dataset.mask Examples.masked = Ok (Some [true; false; true])
  /\ Dataset.stat_sum (H := Np.sum_serial) Examples.masked = Ok 1.75%float.
Proof.
  split; [reflexivity|].
  exact (Dataset_stat_sum_mask (H := Np.sum_serial) Examples.masked).
Defined.

(** ** Dataset._compute_residuals *)

Lemma starts_with_app (n b : string) : PyStr.starts_with n (n ++ b) = true.
Proof.
  induction n as [|c n IH]; [done|].
  change (Ascii.eqb c c && PyStr.starts_with n (n ++ b) = true).
  by rewrite Ascii.eqb_refl, IH.
Qed.

Lemma is_substring_unfold (n s : string) :
  PyStr.is_substring n s
  = PyStr.starts_with n s
    || match s with
       | EmptyString => false
       | String _ s' => PyStr.is_substring n s'
       end.
Proof. by destruct s. Qed.

Lemma is_substring_here (n b : string) : PyStr.is_substring n (n ++ b) = true.
Proof. by rewrite is_substring_unfold, starts_with_app. Qed.

Lemma is_substring_app_r (n a b : string) :
  PyStr.is_substring n b = true -> PyStr.is_substring n (a ++ b) = true.
Proof.
  intros Hb. induction a as [|c a IH]; [done|].
  change (String c a ++ b)%string with (String c (a ++ b)).
  rewrite is_substring_unfold, IH. apply orb_true_r.
Qed.

Lemma ufunc2_same_length {A B C} (f : A -> B -> C) (a : list A) (b : list B) :
  length a = length b -> Np.ufunc2 f a b = Ok (zip_with f a b).
Proof.
  intros Hlen. unfold Np.ufunc2, Np.broadcast1.
  rewrite (proj2 (Nat.eqb_eq _ _) Hlen), fmap_Ok. f_equal.
  clear Hlen. revert b. induction a as [|x a IH]; intros [|y b]; try done.
  cbn. by rewrite IH.
Qed.

Lemma method_neq (s t : string) : s <> t -> String.eqb s t = false.
Proof. intros Hne. by apply String.eqb_neq. Qed.

(** C7.  On arrays of one shape the three valid methods return
    [data - model], [(data - model) / model] and
    [(data - model) / sqrt(model)], entry by entry.  Every other method
    string raises the AttributeError whose text holds the [repr] of the
    method and the three valid choices. *)
Theorem compute_residuals_spec (data model : list float) (method : string) :
  (length data = length model ->
   Dataset._compute_residuals data model "diff"
   = Ok (zip_with sub data model)
   /\ Dataset._compute_residuals data model "diff/model"
      = Ok (zip_with (fun d m => (d - m) / m)%float data model)
   /\ Dataset._compute_residuals data model "diff/sqrt(model)"
      = Ok (zip_with (fun d m => (d - m) / sqrt m)%float data model))
  /\ (method ∉ Dataset.valid_methods ->
      exists msg,
        Dataset._compute_residuals data model method
        = raise AttributeError (Some msg)
        /\ msg = ("Invalid method: " ++ PyStr.repr method
                  ++ ". Choose between 'diff', 'diff/model' and 'diff/sqrt(model)'")%string
        /\ PyStr.is_substring (PyStr.repr method) msg = true
        /\ PyStr.is_substring "'diff'" msg = true
        /\ PyStr.is_substring "'diff/model'" msg = true
        /\ PyStr.is_substring "'diff/sqrt(model)'" msg = true).
Proof.
  split.
  - intros Hlen. unfold Dataset._compute_residuals. cbn [String.eqb Ascii.eqb Bool.eqb].
    rewrite !(ufunc2_same_length _ _ _ Hlen). cbn [mbind result_bind].
    assert (Hlen' : length (zip_with sub data model) = length model)
      by (rewrite length_zip_with; lia).
    rewrite ufunc2_same_length by done.
    rewrite ufunc2_same_length by (unfold Np.sqrt1; by rewrite length_map).
    repeat split; f_equal.
    + clear. revert model. induction data as [|x a IH]; intros [|y b]; try done.
      cbn. by rewrite IH.
    + clear. unfold Np.sqrt1.
      revert model. induction data as [|x a IH]; intros [|y b]; try done.
      cbn. by rewrite IH.
  - intros Hbad. eexists. split; [|split; [reflexivity|]].
    + unfold Dataset._compute_residuals, Dataset.invalid_method_msg.
      unfold Dataset.valid_methods in Hbad.
      rewrite !not_elem_of_cons in Hbad. destruct Hbad as (H1 & H2 & H3 & _).
      by rewrite !method_neq.
    + repeat split.
      * apply is_substring_app_r, is_substring_here.
      * apply is_substring_app_r, is_substring_app_r. reflexivity.
      * apply is_substring_app_r, is_substring_app_r. reflexivity.
      * apply is_substring_app_r, is_substring_app_r. reflexivity.
Qed.

Lemma compute_residuals_spec_witness :
  Dataset._compute_residuals [3; 5]%float [1; 4]%float "diff/sqrt(model)"
  = Ok [2; 0.5]%float
  /\ exists msg,
      Dataset._compute_residuals [3; 5]%float [1; 4]%float "ratio"
      = raise AttributeError (Some msg)
      /\ PyStr.is_substring "'ratio'" msg = true.
Proof.
  split.
  - exact (proj2 (proj2 (proj1 (compute_residuals_spec [3; 5]%float [1; 4]%float "ratio")
                           eq_refl))).
  - destruct (proj2 (compute_residuals_spec [3; 5]%float [1; 4]%float "ratio"))
      as (msg & Hraise & _ & Hrepr & _).
    + unfold Dataset.valid_methods. rewrite !not_elem_of_cons.
      repeat split; try discriminate. apply not_elem_of_nil.
    + exists msg. split; [exact Hraise|exact Hrepr].
Defined.

(** ** Dataset.copy: what the call leaves alone *)

Lemma fresh_ref_datasets (h : Dataset.Heap) :
  Dataset.h_datasets h !! Dataset.fresh_ref h = None.
Proof.
  apply not_elem_of_dom. intros Hin.
  apply (is_fresh (dom (Dataset.h_datasets h) ∪ dom (Dataset.h_models h))).
  apply elem_of_union. by left.
Qed.

Lemma fresh_ref_models (h : Dataset.Heap) :
  Dataset.h_models h !! Dataset.fresh_ref h = None.
Proof.
  apply not_elem_of_dom. intros Hin.
  apply (is_fresh (dom (Dataset.h_datasets h) ∪ dom (Dataset.h_models h))).
  apply elem_of_union. by right.
Qed.

(** Copying models keeps the dataset objects, keeps every model object
    that existed (the set [X]), and returns references outside [X] only. *)
Lemma deepcopy_models_frame (X : gset ref) (refs : list ref) :
  forall (memo : gmap ref ref) (h : Dataset.Heap) out memo' h',
    Dataset.deepcopy_models refs memo h = (out, memo', h') ->
    X ⊆ dom (Dataset.h_models h) ->
    (forall r r', memo !! r = Some r' -> r' ∉ X) ->
    Dataset.h_datasets h' = Dataset.h_datasets h
    /\ X ⊆ dom (Dataset.h_models h')
    /\ (forall r r', memo' !! r = Some r' -> r' ∉ X)
    /\ (forall r, r ∈ X -> Dataset.h_models h' !! r = Dataset.h_models h !! r)
    /\ (forall r', r' ∈ out -> r' ∉ X).
Proof.
  induction refs as [|r refs IH]; intros memo h out memo' h' Hrun HX Hmemo.
  - cbn in Hrun. simplify_eq.
    repeat split; try done. intros r' Hin. by apply elem_of_nil in Hin.
  - cbn [Dataset.deepcopy_models] in Hrun.
    destruct (memo !! r) as [r1|] eqn:Hr.
    + destruct (Dataset.deepcopy_models refs memo h) as [[out1 memo1] h1] eqn:E.
      injection Hrun as <- <- <-.
      destruct (IH _ _ _ _ _ E HX Hmemo) as (Hd & Hdom & Hm & Hag & Hout).
      repeat split; try done.
      intros r' [->|Hin]%elem_of_cons; [by eapply Hmemo|by apply Hout].
    + destruct (Dataset.h_models h !! r) as [m|] eqn:Hm0.
      * set (r1 := Dataset.fresh_ref h) in *.
        set (h1 := Dataset.mk_Heap _ _) in Hrun.
        destruct (Dataset.deepcopy_models refs (<[r:=r1]> memo) h1)
          as [[out1 memo1] h2] eqn:E.
        injection Hrun as <- <- <-.
        assert (Hr1 : r1 ∉ X).
        { intros Hin. apply HX in Hin. apply elem_of_dom in Hin as [? Hin].
          unfold r1 in Hin. by rewrite fresh_ref_models in Hin. }
        assert (HX1 : X ⊆ dom (Dataset.h_models h1)).
        { unfold h1. cbn. rewrite dom_insert_L.
          intros x Hx. apply elem_of_union. right. by apply HX. }
        assert (Hmemo1 : forall a b, <[r:=r1]> memo !! a = Some b -> b ∉ X).
        { intros a b. rewrite lookup_insert. case_decide.
          - by intros [= <-].
          - apply Hmemo. }
        destruct (IH _ _ _ _ _ E HX1 Hmemo1) as (Hd & Hdom & Hm & Hag & Hout).
        repeat split; try done.
        -- intros x Hx. rewrite (Hag _ Hx). unfold h1. cbn.
           apply lookup_insert_ne. by intros ->.
        -- intros r' [->|Hin]%elem_of_cons; [done|by apply Hout].
      * destruct (Dataset.deepcopy_models refs memo h) as [[out1 memo1] h1] eqn:E.
        injection Hrun as <- <- <-.
        destruct (IH _ _ _ _ _ E HX Hmemo) as (Hd & Hdom & Hm & Hag & Hout).
        repeat split; try done.
        intros r' [->|Hin]%elem_of_cons; [|by apply Hout].
        intros Hin. apply HX in Hin. apply elem_of_dom in Hin as [? Hin].
        by rewrite Hm0 in Hin.
Qed.

Lemma rewire_model_other (old new : string) (bkg : option ref)
    (hm : gmap ref Model) (r x : ref) :
  x <> r -> Dataset.rewire_model old new bkg hm r !! x = hm !! x.
Proof.
  intros Hne. unfold Dataset.rewire_model.
  destruct (hm !! r) as [m|]; [|done].
  destruct (datasets_names m); [|done].
  by apply lookup_insert_ne.
Qed.

Lemma rewire_loop_other (old new : string) (bkg : option ref)
    (refs : list ref) (hm : gmap ref Model) (x : ref) :
  x ∉ refs ->
  fold_left (Dataset.rewire_model old new bkg) refs hm !! x = hm !! x.
Proof.
  revert hm. induction refs as [|r refs IH]; intros hm Hx; [done|].
  apply not_elem_of_cons in Hx as [Hne Hx].
  cbn [fold_left]. rewrite IH by done. by apply rewire_model_other.
Qed.

Lemma deepcopy_frame (h : Dataset.Heap) (d new : Dataset.t) (h1 : Dataset.Heap) :
  Dataset.deepcopy h d = (new, h1) ->
  Dataset.h_datasets h !! Dataset.py_id new = None
  /\ Dataset.h_datasets h1 = <[Dataset.py_id new := new]> (Dataset.h_datasets h)
  /\ (forall r, is_Some (Dataset.h_models h !! r) ->
        Dataset.h_models h1 !! r = Dataset.h_models h !! r)
  /\ (forall r, r ∈ default [] (Dataset._models new) ->
        Dataset.h_models h !! r = None)
  /\ Dataset._name new = Dataset._name d.
Proof.
  unfold Dataset.deepcopy. intros Hrun.
  set (X := dom (Dataset.h_models h)).
  assert (Hmodels : exists models' memo ha,
    match Dataset._models d with
    | Some refs =>
        let '(out, memo, h1) := Dataset.deepcopy_models refs ∅ h in
        (Some out, memo, h1)
    | None => (None, ∅, h)
    end = (models', memo, ha)
    /\ Dataset.h_datasets ha = Dataset.h_datasets h
    /\ X ⊆ dom (Dataset.h_models ha)
    /\ (forall r r', memo !! r = Some r' -> r' ∉ X)
    /\ (forall r, r ∈ X -> Dataset.h_models ha !! r = Dataset.h_models h !! r)
    /\ (forall r', r' ∈ default [] models' -> r' ∉ X)).
  { destruct (Dataset._models d) as [refs|].
    - destruct (Dataset.deepcopy_models refs ∅ h) as [[out memo] ha] eqn:E.
      exists (Some out), memo, ha. split; [done|].
      apply (deepcopy_models_frame X _ _ _ _ _ _ E); [done|].
      intros r r' Hr. by rewrite lookup_empty in Hr.
    - exists None, ∅, h. repeat split; try done.
      intros r' Hin. by apply elem_of_nil in Hin. }
  destruct Hmodels as (models' & memo & ha & Emod & Hda & HXa & Hmemo & Haga & Hout).
  rewrite Emod in Hrun.
  assert (Hbkg : exists bkg' hb,
    match Dataset.background_model d with
    | Some b =>
        let '(out, _, h2) := Dataset.deepcopy_models [b] memo ha in
        (head out, h2)
    | None => (None, ha)
    end = (bkg', hb)
    /\ Dataset.h_datasets hb = Dataset.h_datasets h
    /\ (forall r, r ∈ X -> Dataset.h_models hb !! r = Dataset.h_models h !! r)).
  { destruct (Dataset.background_model d) as [b|].
    - destruct (Dataset.deepcopy_models [b] memo ha) as [[out memo2] hb] eqn:E.
      exists (head out), hb. split; [done|].
      destruct (deepcopy_models_frame X _ _ _ _ _ _ E HXa Hmemo)
        as (Hd & _ & _ & Hag & _).
      split; [congruence|]. intros r Hr. rewrite (Hag _ Hr). by apply Haga.
    - exists None, ha. repeat split; done. }
  destruct Hbkg as (bkg' & hb & Erun & Hdb & Hagb).
  rewrite Erun in Hrun. injection Hrun as <- <-.
  cbn [Dataset.py_id Dataset.h_datasets Dataset.h_models Dataset._models
       Dataset._name].
  repeat split.
  - rewrite <- Hdb. apply fresh_ref_datasets.
  - by rewrite Hdb.
  - intros r Hr. apply Hagb. by apply elem_of_dom.
  - intros r Hr. apply not_elem_of_dom. by apply Hout.
Qed.

(** C9.  [d.copy(name)] leaves what existed before the call as it was: the
    dataset [d] itself (so its name), every other dataset and every model
    object that existed, among them the models of [d] with their
    [datasets_names].  The copy is a new object carrying the new name, and
    the models it refers to are not objects of the heap before the call. *)
Theorem Dataset_copy_frame (h : Dataset.Heap) (self : ref) (d : Dataset.t)
    (name : option string) (generated : string) :
  Dataset.h_datasets h !! self = Some d ->
  exists new h',
    Dataset.copy h self name generated = Some (new, h')
    /\ Dataset.h_datasets h !! new = None
    /\ Dataset.h_datasets h' !! self = Some d
    /\ (forall r, r <> new ->
          Dataset.h_datasets h' !! r = Dataset.h_datasets h !! r)
    /\ (forall r, is_Some (Dataset.h_models h !! r) ->
          Dataset.h_models h' !! r = Dataset.h_models h !! r)
    /\ (exists d',
          Dataset.h_datasets h' !! new = Some d'
          /\ Dataset._name d' = Dataset.make_name generated name
          /\ forall r, r ∈ default [] (Dataset._models d') ->
               Dataset.h_models h !! r = None).
Proof.
  intros Hself. unfold Dataset.copy. rewrite Hself.
  destruct (Dataset.deepcopy h d) as [new h1] eqn:E.
  destruct (deepcopy_frame _ _ _ _ E) as (Hfresh & Hd1 & Hm1 & Hout & Hname).
  cbn [Dataset.py_id Dataset._models Dataset.background_model].
  assert (Hne : self <> Dataset.py_id new) by (intros ->; congruence).
  eexists _, _. split; [reflexivity|].
  cbn [Dataset.h_datasets Dataset.h_models].
  repeat split.
  - exact Hfresh.
  - rewrite lookup_insert_ne by done. rewrite Hd1.
    by rewrite lookup_insert_ne.
  - intros r Hr. rewrite lookup_insert_ne by done. rewrite Hd1.
    by rewrite lookup_insert_ne.
  - intros r Hr.
    destruct (Dataset._models new) as [refs|] eqn:Hrefs; [|by apply Hm1].
    rewrite rewire_loop_other; [by apply Hm1|].
    intros Hin. cbn in Hout. specialize (Hout _ Hin).
    destruct Hr as [m Hr]. congruence.
  - eexists. split; [apply lookup_insert_eq|]. by cbn.
Qed.

Lemma Dataset_copy_frame_witness :
  exists new h',
    Dataset.copy Examples.heap 1 (Some "obs-1-copy") "a1b2c3d4" = Some (new, h')
    /\ Dataset.h_datasets Examples.heap !! new = None
    /\ Dataset.h_datasets h' !! 1%positive = Some Examples.observed
    /\ (forall r, r <> new ->
          Dataset.h_datasets h' !! r = Dataset.h_datasets Examples.heap !! r)
    /\ (forall r, is_Some (Dataset.h_models Examples.heap !! r) ->
          Dataset.h_models h' !! r = Dataset.h_models Examples.heap !! r)
    /\ (exists d',
          Dataset.h_datasets h' !! new = Some d'
          /\ Dataset._name d' = "obs-1-copy"
          /\ forall r, r ∈ default [] (Dataset._models d') ->
               Dataset.h_models Examples.heap !! r = None).
Proof.
  apply (Dataset_copy_frame Examples.heap 1 Examples.observed
           (Some "obs-1-copy") "a1b2c3d4").
  vm_compute. reflexivity.
Defined.

(** ** 2-D arrays: shapes and entries *)

Section matrix_facts.
Local Open Scope nat_scope.

Lemma lookup_tabulate {A} (r c : nat) (f : nat -> nat -> A) (i : nat) :
  i < r -> Np.tabulate r c f !! i = Some (map (f i) (seq 0 c)).
Proof.
  intros Hi. unfold Np.tabulate.
  rewrite list_lookup_fmap, lookup_seq_lt by done. reflexivity.
Qed.

Lemma get_tabulate (r c : nat) (f : nat -> nat -> float) (i j : nat) :
  i < r -> j < c -> Np.get (Np.tabulate r c f) i j = f i j.
Proof.
  intros Hi Hj. unfold Np.get. rewrite lookup_tabulate by done. cbn.
  rewrite list_lookup_fmap, lookup_seq_lt by done. reflexivity.
Qed.

Lemma tabulate_ext {A} (r c : nat) (f g : nat -> nat -> A) :
  (forall i j, i < r -> j < c -> f i j = g i j) ->
  Np.tabulate r c f = Np.tabulate r c g.
Proof.
  intros Hfg. unfold Np.tabulate.
  apply map_ext_in. intros i Hi%in_seq.
  apply map_ext_in. intros j Hj%in_seq.
  apply Hfg; lia.
Qed.

Lemma is_shape_spec (r c : nat) (m : Np.matrix) :
  Np.is_shape r c m = true <-> length m = r /\ Forall (fun row => length row = c) m.
Proof.
  unfold Np.is_shape. rewrite andb_true_iff, Nat.eqb_eq, forallb_forall, Forall_forall.
  split; intros [Hr Hc]; (split; [done|]); intros row Hrow.
  - apply Nat.eqb_eq, Hc. by apply list_elem_of_In.
  - apply Nat.eqb_eq, Hc. by apply list_elem_of_In.
Qed.

Lemma is_shape_tabulate {A} (r c : nat) (f : nat -> nat -> A) :
  length (Np.tabulate r c f) = r
  /\ Forall (fun row => length row = c) (Np.tabulate r c f).
Proof.
  unfold Np.tabulate. split.
  - by rewrite length_map, length_seq.
  - apply Forall_fmap, Forall_forall. intros i _. cbn.
    by rewrite length_map, length_seq.
Qed.

Lemma is_shape_tabulate_float (r c : nat) (f : nat -> nat -> float) :
  Np.is_shape r c (Np.tabulate r c f) = true.
Proof. apply is_shape_spec, is_shape_tabulate. Qed.

Lemma is_shape_nrows (r c : nat) (m : Np.matrix) :
  Np.is_shape r c m = true -> Np.nrows m = r.
Proof. intros [Hr _]%is_shape_spec. exact Hr. Qed.

Lemma is_shape_ncols (r c : nat) (m : Np.matrix) :
  Np.is_shape r c m = true -> 0 < r -> Np.ncols m = c.
Proof.
  intros [Hr Hc]%is_shape_spec Hpos. destruct m as [|row m]; [cbn in Hr; lia|].
  cbn. by apply Forall_cons in Hc as [Hrow _].
Qed.

(** A table over the shape of [m] is a table over [r] and [c]. *)
Lemma tabulate_shape {A} (r c : nat) (m : Np.matrix) (f : nat -> nat -> A) :
  Np.is_shape r c m = true ->
  Np.tabulate (Np.nrows m) (Np.ncols m) f = Np.tabulate r c f.
Proof.
  intros Hm. rewrite (is_shape_nrows _ _ _ Hm).
  destruct r as [|r]; [done|].
  by rewrite (is_shape_ncols _ _ _ Hm) by lia.
Qed.

(** A matrix is the table of its entries. *)
Lemma tabulate_get (r c : nat) (m : Np.matrix) :
  Np.is_shape r c m = true -> m = Np.tabulate r c (Np.get m).
Proof.
  intros [Hr Hc]%is_shape_spec.
  apply list_eq. intros i.
  destruct (decide (i < r)) as [Hi|Hi].
  - rewrite lookup_tabulate by done.
    destruct (m !! i) as [row|] eqn:Hrow.
    2:{ apply lookup_ge_None in Hrow. lia. }
    f_equal. apply list_eq. intros j.
    assert (Hlen : length row = c).
    { eapply Forall_forall in Hc; [exact Hc|]. by eapply list_elem_of_lookup_2. }
    destruct (decide (j < c)) as [Hj|Hj].
    + rewrite list_lookup_fmap, lookup_seq_lt by done. cbn.
      unfold Np.get. rewrite Hrow. cbn.
      destruct (row !! j) eqn:Hx; [done|].
      apply lookup_ge_None in Hx. lia.
    + rewrite !lookup_ge_None_2; [done| |lia].
      rewrite length_map, length_seq. lia.
  - rewrite !lookup_ge_None_2; [done| |lia].
    rewrite (proj1 (is_shape_tabulate r c (Np.get m))). lia.
Qed.

Lemma get_bc_get (r c : nat) (m : Np.matrix) (i j : nat) :
  Np.is_shape r c m = true -> i < r -> j < c -> Np.get_bc m i j = Np.get m i j.
Proof.
  intros Hm Hi Hj. unfold Np.get_bc.
  rewrite (is_shape_nrows _ _ _ Hm), (is_shape_ncols _ _ _ Hm) by lia.
  destruct (Nat.eqb_spec r 1) as [->|_], (Nat.eqb_spec c 1) as [->|_];
    repeat f_equal; lia.
Qed.

Lemma broadcast_dim_same (n : nat) : Np.broadcast_dim n n = Ok n.
Proof. unfold Np.broadcast_dim. by rewrite Nat.eqb_refl. Qed.

(** A binary ufunc on two arrays of one shape works entry by entry. *)
Lemma ufunc2_2d_same_shape {C} (f : float -> float -> C) (r c : nat)
    (a b : Np.matrix) :
  Np.is_shape r c a = true -> Np.is_shape r c b = true ->
  Np.ufunc2_2d f a b
  = Ok (Np.tabulate r c (fun i j => f (Np.get a i j) (Np.get b i j))).
Proof.
  intros Ha Hb. unfold Np.ufunc2_2d.
  rewrite (is_shape_nrows _ _ _ Ha), (is_shape_nrows _ _ _ Hb), broadcast_dim_same.
  cbn [mbind result_bind].
  destruct r as [|r].
  { apply is_shape_nrows in Ha, Hb. by destruct a, b. }
  rewrite (is_shape_ncols _ _ _ Ha), (is_shape_ncols _ _ _ Hb) by lia.
  rewrite broadcast_dim_same. cbn [mbind result_bind]. f_equal.
  apply tabulate_ext. intros i j Hi Hj.
  by rewrite (get_bc_get _ _ _ _ _ Ha), (get_bc_get _ _ _ _ _ Hb).
Qed.

End matrix_facts.

(** ** Covariance.correlation *)

Section correlation_facts.
Local Open Scope nat_scope.

Lemma map_map_tabulate {A B} (g : A -> B) (r c : nat) (f : nat -> nat -> A) :
  map (map g) (Np.tabulate r c f) = Np.tabulate r c (fun i j => g (f i j)).
Proof.
  unfold Np.tabulate. rewrite map_map. apply map_ext. intros i.
  by rewrite map_map.
Qed.

Lemma outer_tabulate (u v : list float) :
  Np.outer u v
  = Np.tabulate (length u) (length v)
      (fun i j => (default 0 (u !! i) * default 0 (v !! j))%float).
Proof.
  unfold Np.outer, Np.tabulate.
  apply list_eq. intros i. rewrite !list_lookup_fmap.
  destruct (u !! i) as [x|] eqn:Hx.
  - rewrite lookup_seq_lt by exact (lookup_lt_Some _ _ _ Hx). cbn. f_equal.
    apply list_eq. intros j. rewrite !list_lookup_fmap.
    destruct (v !! j) as [y|] eqn:Hy.
    + rewrite lookup_seq_lt by exact (lookup_lt_Some _ _ _ Hy). cbn.
      by rewrite Hx, Hy.
    + rewrite lookup_seq_ge by by apply lookup_ge_None. done.
  - rewrite lookup_seq_ge by by apply lookup_ge_None. done.
Qed.

Lemma diagonal_square (n : nat) (m : Np.matrix) :
  Np.is_shape n n m = true ->
  Np.diagonal m = map (fun i => Np.get m i i) (seq 0 n).
Proof.
  intros Hm. unfold Np.diagonal. rewrite (is_shape_nrows _ _ _ Hm).
  destruct n as [|n]; [done|].
  rewrite (is_shape_ncols _ _ _ Hm) by lia. by rewrite Nat.min_id.
Qed.

(** [x == 0.0] holds of the two zeros only. *)
Lemma float_eqb_zero (x : float) :
  (x =? 0)%float = true -> x = 0%float \/ x = (-0)%float.
Proof.
  intros Hx. rewrite FloatAxioms.eqb_spec in Hx.
  change (Prim2SF 0%float) with (S754_zero false) in Hx.
  destruct (Prim2SF x) as [s|s| |s m e] eqn:E.
  - apply (f_equal SF2Prim) in E. rewrite SF2Prim_Prim2SF in E. subst x.
    destruct s; [right|left]; reflexivity.
  - destruct s; discriminate Hx.
  - discriminate Hx.
  - destruct s; discriminate Hx.
Qed.

End correlation_facts.

Section correlation_theorems.
Local Open Scope nat_scope.

Lemma float_eqb_infinity (x : float) :
  (x =? infinity)%float = true -> x = infinity.
Proof.
  intros Hx. rewrite FloatAxioms.eqb_spec in Hx.
  change (Prim2SF infinity) with (S754_infinity false) in Hx.
  destruct (Prim2SF x) as [s|s| |s m e] eqn:E.
  - destruct s; discriminate Hx.
  - apply (f_equal SF2Prim) in E. rewrite SF2Prim_Prim2SF in E. subst x.
    destruct s; [discriminate Hx|reflexivity].
  - discriminate Hx.
  - destruct s; discriminate Hx.
Qed.

Lemma float_eqb_neg_infinity (x : float) :
  (x =? neg_infinity)%float = true -> x = neg_infinity.
Proof.
  intros Hx. rewrite FloatAxioms.eqb_spec in Hx.
  change (Prim2SF neg_infinity) with (S754_infinity true) in Hx.
  destruct (Prim2SF x) as [s|s| |s m e] eqn:E.
  - destruct s; discriminate Hx.
  - apply (f_equal SF2Prim) in E. rewrite SF2Prim_Prim2SF in E. subst x.
    destruct s; [reflexivity|discriminate Hx].
  - discriminate Hx.
  - destruct s; discriminate Hx.
Qed.

(** What [np.nan_to_num] does to one entry. *)
Lemma nan_to_num1_cases :
  (forall x, is_nan x = true -> Np.nan_to_num1 x = 0%float)
  /\ Np.nan_to_num1 infinity = Np.float_max
  /\ Np.nan_to_num1 neg_infinity = (- Np.float_max)%float
  /\ (forall x, is_nan x = false -> is_infinity x = false -> Np.nan_to_num1 x = x).
Proof.
  repeat split.
  - intros x Hx. unfold Np.nan_to_num1. by rewrite Hx.
  - intros x Hnan Hinf. unfold Np.nan_to_num1. rewrite Hnan.
    destruct (x =? infinity)%float eqn:E1.
    { apply float_eqb_infinity in E1. subst x. discriminate Hinf. }
    destruct (x =? neg_infinity)%float eqn:E2; [|done].
    apply float_eqb_neg_infinity in E2. subst x. discriminate Hinf.
Qed.

Lemma correlation_entries (C : Covariance.t) (n : nat) :
  Np.is_shape n n (Covariance.data C) = true ->
  Covariance.correlation C
  = Ok (Np.tabulate n n
          (fun i j => Np.nan_to_num1 (Covariance.quotient (Covariance.data C) i j))).
Proof.
  intros Hm. unfold Covariance.correlation.
  rewrite (diagonal_square _ _ Hm), outer_tabulate.
  unfold Np.sqrt1. rewrite !length_map, length_seq.
  rewrite (ufunc2_2d_same_shape _ n n) by (done || apply is_shape_tabulate_float).
  cbn [mbind result_bind]. f_equal.
  unfold Np.nan_to_num. rewrite map_map_tabulate.
  apply tabulate_ext. intros i j Hi Hj. f_equal.
  rewrite get_tabulate by done.
  rewrite !list_lookup_fmap, !lookup_seq_lt by done. reflexivity.
Qed.

(** C8, as the code has it.  For a covariance whose data is N x N, the
    correlation is the N x N array whose entry [(i, j)] is [np.nan_to_num]
    of [data[i][j] / (sqrt(data[i][i]) * sqrt(data[j][j]))]; [nan_to_num]
    turns NaN into 0.0, +inf into the largest finite float64, -inf into
    the most negative one and keeps every other value; the diagonal entry
    at an index whose variance equals 0 is 0.0. *)
Theorem correlation_nan_to_num (C : Covariance.t) :
  let n := length (Covariance.parameters C) in
  Np.is_shape n n (Covariance.data C) = true ->
  exists corr,
    Covariance.correlation C = Ok corr
    /\ Np.is_shape n n corr = true
    /\ (forall i j, i < n -> j < n ->
          Np.get corr i j
          = Np.nan_to_num1 (Covariance.quotient (Covariance.data C) i j))
    /\ (forall i, i < n ->
          (Np.get (Covariance.data C) i i =? 0)%float = true ->
          Np.get corr i i = 0%float)
    /\ (forall x, is_nan x = true -> Np.nan_to_num1 x = 0%float)
    /\ Np.nan_to_num1 infinity = Np.float_max
    /\ Np.nan_to_num1 neg_infinity = (- Np.float_max)%float
    /\ (forall x, is_nan x = false -> is_infinity x = false ->
          Np.nan_to_num1 x = x).
Proof.
  intros n Hm. eexists. split; [by apply correlation_entries|].
  split; [apply is_shape_tabulate_float|].
  split; [intros i j Hi Hj; by rewrite get_tabulate|].
  split; [|exact nan_to_num1_cases].
  intros i Hi Hzero. rewrite get_tabulate by done.
  unfold Covariance.quotient.
  by destruct (float_eqb_zero _ Hzero) as [-> | ->].
Qed.

Lemma correlation_nan_to_num_witness :
  exists corr,
    Covariance.correlation Examples.zero_variance = Ok corr
    /\ Np.get corr 0 0 = 0%float
    /\ Np.get corr 0 1 = Np.float_max.
Proof.
  destruct (correlation_nan_to_num Examples.zero_variance eq_refl)
    as (corr & Hcorr & _ & Hentry & Hdiag & _).
  exists corr. split; [exact Hcorr|]. split.
  - apply Hdiag; [repeat constructor|reflexivity].
  - rewrite Hentry by repeat constructor. reflexivity.
Defined.

(** C8, as it is worded, against the code: an infinite quotient is not
    replaced by 0.0 (it becomes the largest finite float64), and the
    diagonal entry of a positive variance need not be exactly 1.0. *)
Lemma correlation_not_zeroing :
  is_infinity (Covariance.quotient (Covariance.data Examples.zero_variance) 0 1)
  = true
  /\ Covariance.correlation Examples.zero_variance
     = Ok [[0; Np.float_max]; [Np.float_max; 1]]%float
  /\ Covariance.correlation Examples.zero_variance
     <> Ok (Covariance.correlation_zeroing Examples.zero_variance)
  /\ (0 <? Np.get (Covariance.data Examples.two_four) 0 0)%float = true
  /\ Covariance.correlation Examples.two_four
     = Ok [[0x1.ffffffffffffep-1; 0x1.6a09e667f3bccp-2];
           [0x1.6a09e667f3bccp-2; 1]]%float
  /\ (0x1.ffffffffffffep-1 =? 1)%float = false.
Proof.
  repeat split; try reflexivity.
  vm_compute. intros H. discriminate H.
Qed.

End correlation_theorems.

(** ** Looking parameters up in a pool *)

Section pool_facts.
Local Open Scope nat_scope.

Lemma pool_index_Some (ps : ParameterPool.t) (p : Param.t) (i : nat) :
  PyList.index Param.same_object p ps = Some i ->
  ParameterPool.ids ps !! i = Some (Param.py_id p).
Proof.
  revert i. induction ps as [|q ps IH]; intros i Hi; [done|].
  cbn in Hi. unfold Param.same_object in Hi at 1.
  destruct (Pos.eqb_spec (Param.py_id p) (Param.py_id q)) as [Heq|Hne].
  - injection Hi as <-. cbn. by rewrite Heq.
  - destruct (PyList.index Param.same_object p ps) as [i'|]; [|done].
    injection Hi as <-. cbn. by apply IH.
Qed.

Lemma pool_index_elem (ps : ParameterPool.t) (p : Param.t) :
  Param.py_id p ∈ ParameterPool.ids ps ->
  exists i, PyList.index Param.same_object p ps = Some i.
Proof.
  induction ps as [|q ps IH]; intros Hin.
  - by apply elem_of_nil in Hin.
  - cbn. unfold Param.same_object at 1.
    destruct (Pos.eqb_spec (Param.py_id p) (Param.py_id q)) as [Heq|Hne]; [by eexists|].
    cbn in Hin. apply elem_of_cons in Hin as [Heq|Hin]; [done|].
    destruct (IH Hin) as [i ->]. by eexists.
Qed.

(** The indices of the parameters of a sub-pool in the pool that holds
    them: one index per parameter, each within the pool and pointing at
    the same object; distinct objects have distinct indices. *)
Lemma pool_indices (ps qs : ParameterPool.t) :
  (forall q, q ∈ qs -> Param.py_id q ∈ ParameterPool.ids ps) ->
  exists idx,
    mapR (ParameterPool.index ps) qs = Ok idx
    /\ (fun i => ParameterPool.ids ps !! i) <$> idx = Some <$> ParameterPool.ids qs.
Proof.
  induction qs as [|q qs IH]; intros Hin; [by exists []|].
  destruct (pool_index_elem ps q) as [i Hi]; [apply Hin; by left|].
  destruct IH as (idx & Hidx & Hids); [intros q' Hq'; apply Hin; by right|].
  exists (i :: idx). split.
  - assert (Hq : ParameterPool.index ps q = Ok i)
      by (unfold ParameterPool.index; by rewrite Hi).
    cbn [mapR]. by rewrite Hq, Hidx.
  - cbn. rewrite Hids. f_equal. by apply pool_index_Some.
Qed.

Lemma pool_indices_facts (ps qs : ParameterPool.t) (idx : list nat) :
  (fun i => ParameterPool.ids ps !! i) <$> idx = Some <$> ParameterPool.ids qs ->
  length idx = length qs
  /\ Forall (fun i => i < length ps) idx
  /\ (NoDup (ParameterPool.ids qs) -> NoDup idx).
Proof.
  intros Hids. split; [|split].
  - apply (f_equal length) in Hids.
    unfold ParameterPool.ids in Hids. by rewrite !length_fmap in Hids.
  - apply Forall_forall. intros i Hi.
    assert (Hsome : is_Some (ParameterPool.ids ps !! i)).
    { apply (list_elem_of_fmap_2 (fun i => ParameterPool.ids ps !! i)) in Hi.
      rewrite Hids in Hi.
      apply list_elem_of_fmap in Hi as (x & -> & _). by eexists. }
    apply lookup_lt_is_Some in Hsome.
    unfold ParameterPool.ids in Hsome. by rewrite length_fmap in Hsome.
  - intros Hnd. apply (NoDup_fmap_1 (fun i => ParameterPool.ids ps !! i)).
    rewrite Hids. apply NoDup_fmap_2; [|done]. intros x y. congruence.
Qed.

Lemma last_index_of_None (i : nat) (idx : list nat) :
  Np.last_index_of i idx = None <-> i ∉ idx.
Proof.
  induction idx as [|j idx IH]; cbn.
  - split; [intros _; apply not_elem_of_nil|done].
  - rewrite not_elem_of_cons.
    destruct (Np.last_index_of i idx) as [k|].
    + split; [done|]. intros [_ Hin]. by apply IH in Hin.
    + destruct (Nat.eqb_spec i j) as [->|Hne].
      * split; [done|]. by intros [? _].
      * split; [|done]. intros _. split; [done|]. by apply IH.
Qed.

Lemma last_index_of_NoDup (idx : list nat) (a i : nat) :
  NoDup idx -> idx !! a = Some i -> Np.last_index_of i idx = Some a.
Proof.
  intros Hnd. revert a. induction Hnd as [|j idx Hj Hnd IH]; intros a Ha; [done|].
  destruct a as [|a]; cbn in Ha |- *.
  - injection Ha as ->.
    apply last_index_of_None in Hj. rewrite Hj. by rewrite Nat.eqb_refl.
  - by rewrite (IH _ Ha).
Qed.

Lemma map_lookup_seq {A B} (f : A -> B) (l : list A) (d : A) :
  map f l = map (fun a => f (default d (l !! a))) (seq 0 (length l)).
Proof.
  apply list_eq. intros a. rewrite !list_lookup_fmap.
  destruct (l !! a) as [x|] eqn:Hx.
  - rewrite lookup_seq_lt by exact (lookup_lt_Some _ _ _ Hx). cbn. by rewrite Hx.
  - rewrite lookup_seq_ge by by apply lookup_ge_None. done.
Qed.

(** Reading the block at [idx] gives the table of the entries at [idx]. *)
Lemma ix_get_tabulate (n : nat) (m : Np.matrix) (idx : list nat) :
  Np.is_shape n n m = true ->
  Forall (fun i => i < n) idx ->
  Np.ix_get m idx
  = Ok (Np.tabulate (length idx) (length idx)
          (fun a b => Np.get m (default 0 (idx !! a)) (default 0 (idx !! b)))).
Proof.
  intros Hm Hidx. unfold Np.ix_get.
  assert (Hrange : Np.in_range m idx = true).
  { unfold Np.in_range. apply forallb_forall. intros i Hi%list_elem_of_In.
    eapply Forall_forall in Hidx; [|exact Hi].
    rewrite (is_shape_nrows _ _ _ Hm), (is_shape_ncols _ _ _ Hm) by lia.
    apply andb_true_iff. split; by apply Nat.ltb_lt. }
  rewrite Hrange. f_equal. unfold Np.tabulate.
  rewrite (map_lookup_seq _ idx 0). apply map_ext. intros a.
  by rewrite (map_lookup_seq _ idx 0).
Qed.

End pool_facts.

(** ** Covariance.set_subcovariance *)

Section set_subcovariance_facts.
Local Open Scope nat_scope.

Lemma last_index_of_Some (idx : list nat) (a i : nat) :
  Np.last_index_of i idx = Some a -> idx !! a = Some i.
Proof.
  revert a. induction idx as [|j idx IH]; intros a Ha; [done|].
  cbn in Ha. destruct (Np.last_index_of i idx) as [k|].
  - injection Ha as <-. cbn. by apply IH.
  - destruct (Nat.eqb_spec i j) as [->|_]; [|done]. by injection Ha as <-.
Qed.

Lemma ncols_ge (n : nat) (m : Np.matrix) (idx : list nat) :
  Np.is_shape n n m = true -> Forall (fun i => i < n) idx ->
  forallb (fun j => j <? Np.ncols m) idx = true
  /\ forallb (fun i => i <? Np.nrows m) idx = true.
Proof.
  intros Hm Hidx. split; apply forallb_forall; intros i Hi%list_elem_of_In;
    eapply Forall_forall in Hidx; try exact Hi; apply Nat.ltb_lt.
  - by rewrite (is_shape_ncols _ _ _ Hm) by lia.
  - by rewrite (is_shape_nrows _ _ _ Hm).
Qed.

(** [m[idx, :] = 0] followed by [m[:, idx] = 0]. *)
Lemma zero_rows_cols (n : nat) (m : Np.matrix) (idx : list nat) :
  Np.is_shape n n m = true -> Forall (fun i => i < n) idx ->
  (d ← Np.zero_rows idx m; Np.zero_cols idx d)
  = Ok (Np.tabulate n n
          (fun i j => if decide (i ∈ idx \/ j ∈ idx) then 0%float
                      else Np.get m i j)).
Proof.
  intros Hm Hidx. unfold Np.zero_rows.
  rewrite (proj2 (ncols_ge _ _ _ Hm Hidx)), (tabulate_shape _ _ _ _ Hm).
  cbn [mbind result_bind]. unfold Np.zero_cols.
  set (m1 := Np.tabulate n n _).
  assert (Hm1 : Np.is_shape n n m1 = true) by apply is_shape_tabulate_float.
  rewrite (proj1 (ncols_ge _ _ _ Hm1 Hidx)), (tabulate_shape _ _ _ _ Hm1).
  f_equal. apply tabulate_ext. intros i j Hi Hj.
  unfold m1. rewrite get_tabulate by done.
  repeat case_decide; tauto || done.
Qed.

(** [m[np.ix_(idx, idx)] = v] for a block [v] of the shape of the indices. *)
Lemma ix_set_tabulate (n : nat) (m v : Np.matrix) (idx : list nat) :
  Np.is_shape n n m = true -> Forall (fun i => i < n) idx ->
  Np.is_shape (length idx) (length idx) v = true ->
  Np.ix_set m idx v
  = Ok (Np.tabulate n n
          (fun i j =>
             match Np.last_index_of i idx, Np.last_index_of j idx with
             | Some a, Some b => Np.get v a b
             | _, _ => Np.get m i j
             end)).
Proof.
  intros Hm Hidx Hv. unfold Np.ix_set.
  assert (Hrange : Np.in_range m idx = true).
  { unfold Np.in_range. apply forallb_forall. intros i Hi.
    destruct (ncols_ge _ _ _ Hm Hidx) as [Hc Hr].
    rewrite forallb_forall in Hc, Hr. by rewrite (Hc _ Hi), (Hr _ Hi). }
  rewrite Hrange. cbn [negb].
  rewrite (is_shape_nrows _ _ _ Hv), Nat.eqb_refl. cbn [orb andb].
  assert (Hcols : (Np.ncols v =? length idx) = true).
  { apply Nat.eqb_eq. destruct idx as [|i idx].
    - apply is_shape_nrows in Hv. by destruct v.
    - apply (is_shape_ncols _ _ _ Hv). cbn. lia. }
  rewrite Hcols. cbn [orb]. rewrite (tabulate_shape _ _ _ _ Hm). f_equal.
  apply tabulate_ext. intros i j Hi Hj.
  destruct (Np.last_index_of i idx) as [a|] eqn:Ha; [|done].
  destruct (Np.last_index_of j idx) as [b|] eqn:Hb; [|done].
  apply last_index_of_Some, lookup_lt_Some in Ha, Hb.
  by apply (get_bc_get _ _ _ _ _ Hv).
Qed.

Lemma set_subcovariance_entries (C S : Covariance.t) (idx : list nat) :
  let n := length (Covariance.parameters C) in
  Np.is_shape n n (Covariance.data C) = true ->
  Np.is_shape (length idx) (length idx) (Covariance.data S) = true ->
  mapR (ParameterPool.index (Covariance.parameters C)) (Covariance.parameters S)
  = Ok idx ->
  Forall (fun i => i < n) idx ->
  exists prior close,
    Np.ix_get (Covariance.data C) idx = Ok prior
    /\ Np.allclose prior (Covariance.data S) = Ok close
    /\ Covariance.set_subcovariance C S
       = Ok (Covariance.mk (Covariance.parameters C)
               (Np.tabulate n n
                  (Covariance.entries_after close idx (Covariance.data C) (Covariance.data S)))).
Proof.
  intros n Hm Hv Hmap Hidx.
  unfold Covariance.set_subcovariance. rewrite Hmap. cbn [mbind result_bind].
  rewrite (ix_get_tabulate _ _ _ Hm Hidx). cbn [mbind result_bind].
  set (prior := Np.tabulate _ _ _).
  assert (Hprior : Np.is_shape (length idx) (length idx) prior = true)
    by apply is_shape_tabulate_float.
  destruct (Np.allclose prior (Covariance.data S)) as [close|e] eqn:Hclose.
  2:{ unfold Np.allclose in Hclose.
      by rewrite (ufunc2_2d_same_shape _ _ _ _ _ Hprior Hv) in Hclose. }
  exists prior, close. split; [done|]. split; [done|].
  destruct close; cbn [negb mbind result_bind].
  - rewrite (ix_set_tabulate _ _ _ _ Hm Hidx Hv). cbn [mbind result_bind]. do 2 f_equal.
  - rewrite (zero_rows_cols _ _ _ Hm Hidx). cbn [mbind result_bind].
    set (m1 := Np.tabulate n n _).
    assert (Hm1 : Np.is_shape n n m1 = true) by apply is_shape_tabulate_float.
    rewrite (ix_set_tabulate _ _ _ _ Hm1 Hidx Hv). cbn [mbind result_bind].
    do 2 f_equal. apply tabulate_ext. intros i j Hi Hj.
    unfold Covariance.entries_after, m1. by rewrite get_tabulate.
Qed.

End set_subcovariance_facts.

Section set_subcovariance_theorem.
Local Open Scope nat_scope.

Lemma entries_after_block (close : bool) (idx : list nat) (old block : Np.matrix)
    (a b : nat) :
  NoDup idx -> a < length idx -> b < length idx ->
  Covariance.entries_after close idx old block
    (default 0 (idx !! a)) (default 0 (idx !! b))
  = Np.get block a b.
Proof.
  intros Hnd Ha Hb. unfold Covariance.entries_after.
  destruct (lookup_lt_is_Some_2 idx a Ha) as [i Hi].
  destruct (lookup_lt_is_Some_2 idx b Hb) as [j Hj].
  rewrite Hi, Hj. cbn [from_option id].
  by rewrite (last_index_of_NoDup _ _ _ Hnd Hi), (last_index_of_NoDup _ _ _ Hnd Hj).
Qed.

Lemma entries_after_outside (close : bool) (idx : list nat) (old block : Np.matrix)
    (i j : nat) :
  ~ (i ∈ idx /\ j ∈ idx) ->
  Covariance.entries_after close idx old block i j
  = if close then Np.get old i j
    else if decide (i ∈ idx \/ j ∈ idx) then 0%float else Np.get old i j.
Proof.
  intros Hout. unfold Covariance.entries_after.
  destruct (Np.last_index_of i idx) as [a|] eqn:Ha; [|done].
  destruct (Np.last_index_of j idx) as [b|] eqn:Hb; [|done].
  exfalso. apply Hout. split.
  - destruct (decide (i ∈ idx)) as [|Hn]; [done|].
    apply last_index_of_None in Hn. congruence.
  - destruct (decide (j ∈ idx)) as [|Hn]; [done|].
    apply last_index_of_None in Hn. congruence.
Qed.

(** C3.  Let the data of [C] be N x N and the data of [S] k x k, for the
    [N] parameters of [C] and the [k] distinct parameters of [S], all of
    them parameters of [C].  After [C.set_subcovariance(S)] the block of
    [C.data] at the indices of the parameters of [S] is [S.data], and
    [C.get_subcovariance] on the parameters of [S] gives [S] back.  When
    the block was not close to [S.data] before, every entry that lies in a
    row or a column at one of those indices but outside the block is 0.0;
    when it was close, every entry outside the block is what it was. *)
Theorem set_subcovariance_spec `{Square} (C S : Covariance.t) :
  let n := length (Covariance.parameters C) in
  let k := length (Covariance.parameters S) in
  Np.is_shape n n (Covariance.data C) = true ->
  Np.is_shape k k (Covariance.data S) = true ->
  NoDup (ParameterPool.ids (Covariance.parameters S)) ->
  (forall p, p ∈ Covariance.parameters S ->
             Param.py_id p ∈ ParameterPool.ids (Covariance.parameters C)) ->
  exists idx prior close C',
    mapR (ParameterPool.index (Covariance.parameters C)) (Covariance.parameters S)
    = Ok idx
    /\ Np.ix_get (Covariance.data C) idx = Ok prior
    /\ Np.allclose prior (Covariance.data S) = Ok close
    /\ Covariance.set_subcovariance C S = Ok C'
    /\ Covariance.parameters C' = Covariance.parameters C
    /\ Np.is_shape n n (Covariance.data C') = true
    /\ Np.ix_get (Covariance.data C') idx = Ok (Covariance.data S)
    /\ Covariance.get_subcovariance C' (Covariance.parameters S) = Ok S
    /\ (close = false ->
        forall i j, i < n -> j < n ->
          ((i ∈ idx) /\ (j ∉ idx)) \/ ((i ∉ idx) /\ (j ∈ idx)) ->
          Np.get (Covariance.data C') i j = 0%float)
    /\ (close = true ->
        forall i j, i < n -> j < n -> ~ (i ∈ idx /\ j ∈ idx) ->
          Np.get (Covariance.data C') i j = Np.get (Covariance.data C) i j).
Proof.
  intros n k HC HS Hnd Hin.
  destruct (pool_indices _ _ Hin) as (idx & Hmap & Hids).
  destruct (pool_indices_facts _ _ _ Hids) as (Hlen & Hrange & Hnd').
  specialize (Hnd' Hnd). fold n in Hrange. fold k in Hlen.
  rewrite <- Hlen in HS.
  destruct (set_subcovariance_entries C S idx HC HS Hmap Hrange)
    as (prior & close & Hprior & Hclose & Hset).
  fold n in Hset.
  eexists idx, prior, close, _. split; [done|]. split; [done|].
  split; [done|]. split; [exact Hset|].
  cbn [Covariance.parameters Covariance.data Covariance._data].
  split; [done|]. split; [apply is_shape_tabulate_float|].
  match goal with
  | |- Np.ix_get ?m idx = _ /\ _ =>
      assert (Hblock : Np.ix_get m idx = Ok (Covariance.data S))
  end.
  { rewrite (ix_get_tabulate n) by (apply is_shape_tabulate_float || done).
    f_equal. rewrite (tabulate_get _ _ _ HS) at 1.
    symmetry. apply tabulate_ext. intros a b Ha Hb.
    assert (Hbound : forall c, c < length idx -> default 0 (idx !! c) < n).
    { intros c Hc. destruct (lookup_lt_is_Some_2 idx c Hc) as [i Hi]. rewrite Hi.
      eapply Forall_forall in Hrange; [exact Hrange|].
      by eapply list_elem_of_lookup_2. }
    rewrite get_tabulate by by apply Hbound.
    symmetry. by apply entries_after_block. }
  split; [exact Hblock|]. split; [|split].
  - unfold Covariance.get_subcovariance.
    cbn [Covariance.parameters Covariance._data].
    rewrite Hmap. cbn [mbind result_bind].
    unfold Covariance.data in *. cbn [Covariance._data] in *.
    rewrite Hblock. cbn [mbind result_bind]. by destruct S.
  - intros -> i j Hi Hj Hcross. rewrite get_tabulate by done.
    rewrite entries_after_outside by tauto.
    case_decide; [done|tauto].
  - intros -> i j Hi Hj Hout. rewrite get_tabulate by done.
    by rewrite entries_after_outside.
Qed.

End set_subcovariance_theorem.

Lemma set_subcovariance_spec_witness :
  exists C',
    Covariance.set_subcovariance Examples.abc Examples.ca = Ok C'
    /\ Np.ix_get (Covariance.data C') [2; 0]%nat = Ok (Covariance.data Examples.ca)
    /\ Np.get (Covariance.data C') 1 0 = 0%float
    /\ Np.get (Covariance.data C') 2 1 = 0%float.
Proof.
  destruct (set_subcovariance_spec (H := square_product) Examples.abc Examples.ca)
    as (idx & prior & close & C' & Hmap & Hprior & Hclose & Hset & _ & _
        & Hblock & _ & Hzero & _).
  - reflexivity.
  - reflexivity.
  - apply (bool_decide_unpack _). vm_compute. exact I.
  - intros p Hp. apply (bool_decide_unpack _).
    repeat (apply elem_of_cons in Hp as [-> | Hp]); [| |by apply elem_of_nil in Hp];
      vm_compute; exact I.
  - vm_compute in Hmap. injection Hmap as <-.
    vm_compute in Hprior. injection Hprior as <-.
    vm_compute in Hclose. injection Hclose as <-.
    exists C'. split; [exact Hset|]. split; [exact Hblock|].
    split; apply Hzero; try reflexivity; try (cbn; lia).
    + right. split; [|by right; left].
      intros Hin. apply (bool_decide_pack _) in Hin. vm_compute in Hin. exact Hin.
    + left. split; [by left|].
      intros Hin. apply (bool_decide_pack _) in Hin. vm_compute in Hin. exact Hin.
Defined.

(** ** Covariance.from_stack *)

Section from_stack_facts.
Local Open Scope nat_scope.

Lemma unique_fresh (seen : list ref) (l : list Param.t) :
  NoDup (ParameterPool.ids l) ->
  (forall x, x ∈ ParameterPool.ids l -> x ∉ seen) ->
  ParameterPool.unique seen l = l.
Proof.
  revert seen. induction l as [|p l IH]; intros seen Hnd Hseen; [done|].
  cbn in Hnd. apply NoDup_cons in Hnd as [Hp Hnd].
  cbn [ParameterPool.unique]. case_decide as Hin.
  - exfalso. apply (Hseen (Param.py_id p)); [by left|done].
  - f_equal. apply IH; [done|].
    intros x Hx [->|Hx']%elem_of_cons; [done|].
    apply (Hseen x); [by right|done].
Qed.

Lemma from_stack_disjoint (ps1 ps2 : ParameterPool.t) :
  NoDup (ParameterPool.ids (ps1 ++ ps2)) ->
  ParameterPool.from_stack [ps1; ps2] = ps1 ++ ps2.
Proof.
  intros Hnd. unfold ParameterPool.from_stack. cbn [concat].
  rewrite app_nil_r. apply unique_fresh; [done|].
  intros x _. apply not_elem_of_nil.
Qed.

Lemma get_diag (v : list float) (i j : nat) :
  i < length v -> j < length v ->
  Np.get (Np.diag v) i j = if (i =? j) then default 0%float (v !! i) else 0%float.
Proof. intros Hi Hj. unfold Np.diag. by rewrite get_tabulate. Qed.

Lemma last_index_of_seq (start len i : nat) :
  Np.last_index_of i (seq start len)
  = if decide (start <= i < start + len) then Some (i - start) else None.
Proof.
  case_decide as Hi.
  - apply last_index_of_NoDup; [apply NoDup_seq|].
    rewrite lookup_seq_lt by lia. f_equal. lia.
  - apply last_index_of_None. rewrite elem_of_seq. lia.
Qed.

(** In a pool of distinct parameters, the indices of a run of consecutive
    parameters are consecutive. *)
Lemma pool_indices_seq (pre qs post : ParameterPool.t) (idx : list nat) :
  NoDup (ParameterPool.ids (pre ++ qs ++ post)) ->
  (fun i => ParameterPool.ids (pre ++ qs ++ post) !! i) <$> idx
  = Some <$> ParameterPool.ids qs ->
  idx = seq (length pre) (length qs).
Proof.
  intros Hnd Hids.
  assert (Hlen : length idx = length qs).
  { apply (f_equal length) in Hids.
    unfold ParameterPool.ids in Hids. by rewrite !length_fmap in Hids. }
  apply list_eq. intros a.
  destruct (decide (a < length qs)) as [Ha|Ha].
  2:{ rewrite lookup_seq_ge by lia. apply lookup_ge_None. lia. }
  rewrite lookup_seq_lt by done.
  destruct (lookup_lt_is_Some_2 idx a) as [i Hi]; [lia|].
  destruct (lookup_lt_is_Some_2 qs a Ha) as [q Hq].
  rewrite Hi. f_equal.
  apply (f_equal (fun l => l !! a)) in Hids.
  rewrite !list_lookup_fmap, Hi in Hids. unfold ParameterPool.ids in Hids.
  rewrite list_lookup_fmap, Hq in Hids. cbn in Hids. injection Hids as Hids.
  eapply NoDup_lookup; [exact Hnd|exact Hids|].
  unfold ParameterPool.ids. rewrite list_lookup_fmap.
  rewrite lookup_app_r by lia. rewrite lookup_app_l by lia.
  replace (length pre + a - length pre) with a by lia. by rewrite Hq.
Qed.

(** The squares of the errors, when none of them raises: one per
    parameter. *)
Lemma mapR_length {A B} (f : A -> result B) (l : list A) (ys : list B) :
  mapR f l = Ok ys -> length ys = length l.
Proof.
  revert ys. induction l as [|x l IH]; intros ys Hmap.
  - cbn in Hmap. by injection Hmap as <-.
  - cbn [mapR] in Hmap. destruct (f x) as [y|e]; [|done].
    cbn [mbind result_bind] in Hmap.
    destruct (mapR f l) as [ys'|e]; [|done].
    cbn in Hmap. injection Hmap as <-. cbn. by rewrite (IH ys').
Qed.

(** [from_stack] is the stacking loop from the default covariance, once
    the squares of the errors are computed; an exception of the squaring
    escapes. *)
Lemma from_stack_unfold `{Square} (covar_list : list Covariance.t) :
  let pool := ParameterPool.from_stack (map Covariance.parameters covar_list) in
  Covariance.from_stack covar_list
  = (sq ← mapR (fun p => float_square (Param.error p)) pool;
     foldR Covariance.set_subcovariance
       (Covariance.mk pool (Np.diag sq)) covar_list).
Proof.
  intros pool. unfold Covariance.from_stack, Covariance.__init__. fold pool.
  by destruct (mapR _ pool).
Qed.

(** Two sub-covariances over disjoint pools of distinct parameters stack
    to the block-diagonal matrix of their data, whatever the diagonal the
    stack starts from. *)
Lemma from_stack_two_disjoint (S1 S2 : Covariance.t) (sq : list float) :
  let m := length (Covariance.parameters S1) in
  let n := length (Covariance.parameters S2) in
  Np.is_shape m m (Covariance.data S1) = true ->
  Np.is_shape n n (Covariance.data S2) = true ->
  NoDup (ParameterPool.ids (Covariance.parameters S1 ++ Covariance.parameters S2)) ->
  length sq = m + n ->
  foldR Covariance.set_subcovariance
    (Covariance.mk (Covariance.parameters S1 ++ Covariance.parameters S2)
       (Np.diag sq))
    [S1; S2]
  = Ok (Covariance.mk (Covariance.parameters S1 ++ Covariance.parameters S2)
          (Np.tabulate (m + n) (m + n)
             (fun i j =>
                if (i <? m) && (j <? m) then Np.get (Covariance.data S1) i j
                else if (m <=? i) && (m <=? j)
                     then Np.get (Covariance.data S2) (i - m) (j - m)
                     else 0%float))).
Proof.
  intros m n H1 H2 Hnd Hsq.
  set (ps := Covariance.parameters S1 ++ Covariance.parameters S2).
  set (C0 := Covariance.mk ps (Np.diag sq)).
  assert (Hps : length ps = m + n) by (unfold ps; by rewrite length_app).
  assert (HC0 : Np.is_shape (length (Covariance.parameters C0))
                  (length (Covariance.parameters C0)) (Covariance.data C0) = true).
  { cbn. rewrite Hps, <- Hsq. apply is_shape_tabulate_float. }
  (* the first sub-covariance *)
  destruct (pool_indices ps (Covariance.parameters S1)) as (idx1 & Hmap1 & Hids1).
  { intros q Hq. unfold ps, ParameterPool.ids. rewrite fmap_app.
    apply elem_of_app. left. by apply list_elem_of_fmap_2. }
  assert (Hidx1 : idx1 = seq 0 m).
  { apply (pool_indices_seq [] _ (Covariance.parameters S2)); [done|].
    exact Hids1. }
  subst idx1.
  destruct (set_subcovariance_entries C0 S1 (seq 0 m) HC0) as (p1 & c1 & _ & _ & Hset1).
  { by rewrite length_seq. }
  { exact Hmap1. }
  { apply Forall_forall. intros i Hi%elem_of_seq. cbn. lia. }
  (* the second sub-covariance *)
  cbn [Covariance.parameters C0] in Hset1. rewrite Hps in Hset1.
  set (C1 := Covariance.mk ps _) in Hset1.
  assert (HC1 : Np.is_shape (length (Covariance.parameters C1))
                  (length (Covariance.parameters C1)) (Covariance.data C1) = true).
  { cbn. rewrite Hps. apply is_shape_tabulate_float. }
  destruct (pool_indices ps (Covariance.parameters S2)) as (idx2 & Hmap2 & Hids2).
  { intros q Hq. unfold ps, ParameterPool.ids. rewrite fmap_app.
    apply elem_of_app. right. by apply list_elem_of_fmap_2. }
  assert (Hidx2 : idx2 = seq m n).
  { apply (pool_indices_seq _ _ []); rewrite app_nil_r; done. }
  subst idx2.
  destruct (set_subcovariance_entries C1 S2 (seq m n) HC1) as (p2 & c2 & _ & _ & Hset2).
  { by rewrite length_seq. }
  { exact Hmap2. }
  { apply Forall_forall. intros i Hi%elem_of_seq. cbn. lia. }
  cbn [foldR]. rewrite Hset1. cbn [mbind result_bind]. rewrite Hset2.
  cbn [mbind result_bind Covariance.parameters C1]. rewrite Hps.
  do 2 f_equal. apply tabulate_ext. intros i j Hi Hj.
  unfold Covariance.entries_after at 1. rewrite !last_index_of_seq.
  cbn [Covariance.data Covariance._data C1].
  rewrite get_tabulate by done.
  unfold Covariance.entries_after. rewrite !last_index_of_seq.
  cbn [Covariance.data Covariance._data C0].
  rewrite get_diag by lia.
  destruct (Nat.ltb_spec i m), (Nat.ltb_spec j m),
    (Nat.leb_spec m i), (Nat.leb_spec m j); try lia; cbn [andb];
    repeat case_decide; try lia; try done;
    rewrite ?elem_of_seq in *; try lia;
    rewrite ?Nat.sub_0_r;
    destruct c1, c2; try done;
    destruct (Nat.eqb_spec i j); try lia; done.
Qed.

End from_stack_facts.

Section from_stack_theorem.
Local Open Scope nat_scope.

Lemma unique_ids (seen : list ref) (l : list Param.t) (x : ref) :
  x ∈ ParameterPool.ids l -> x ∉ seen ->
  x ∈ ParameterPool.ids (ParameterPool.unique seen l).
Proof.
  revert seen. induction l as [|p l IH]; intros seen Hx Hseen; [done|].
  cbn [ParameterPool.unique]. cbn in Hx. apply elem_of_cons in Hx as [->|Hx].
  - case_decide; [done|]. by left.
  - case_decide as Hp; [by apply IH|].
    destruct (decide (x = Param.py_id p)) as [->|Hne]; [by left|].
    right. apply IH; [done|]. by intros [?|?]%elem_of_cons.
Qed.

(** Every parameter of a stacked pool is in the stack. *)
Lemma from_stack_ids (pools : list ParameterPool.t) (ps : ParameterPool.t) (p : Param.t) :
  ps ∈ pools -> p ∈ ps ->
  Param.py_id p ∈ ParameterPool.ids (ParameterPool.from_stack pools).
Proof.
  intros Hps Hp. unfold ParameterPool.from_stack.
  apply unique_ids; [|apply not_elem_of_nil].
  unfold ParameterPool.ids. apply list_elem_of_fmap_2.
  apply list_elem_of_In, in_concat. exists ps.
  split; by apply list_elem_of_In.
Qed.

Lemma foldR_app {A St} (body : St -> A -> result St) (acc : St) (l1 l2 : list A) :
  foldR body acc (l1 ++ l2) = (foldR body acc l1 ≫= fun acc' => foldR body acc' l2).
Proof.
  revert acc. induction l1 as [|x l1 IH]; intros acc; [done|].
  cbn [foldR app]. destruct (body acc x) as [acc'|e]; [|done]. apply IH.
Qed.

(** One well-formed sub-covariance of the pool: the call succeeds, keeps
    the pool and the shape, and leaves the block equal to the data set. *)
Lemma set_subcovariance_ok (C S : Covariance.t) :
  let n := length (Covariance.parameters C) in
  Np.is_shape n n (Covariance.data C) = true ->
  Covariance.well_formed S ->
  (forall p, p ∈ Covariance.parameters S ->
             Param.py_id p ∈ ParameterPool.ids (Covariance.parameters C)) ->
  exists idx C',
    mapR (ParameterPool.index (Covariance.parameters C)) (Covariance.parameters S)
    = Ok idx
    /\ Covariance.set_subcovariance C S = Ok C'
    /\ Covariance.parameters C' = Covariance.parameters C
    /\ Np.is_shape n n (Covariance.data C') = true
    /\ Np.ix_get (Covariance.data C') idx = Ok (Covariance.data S).
Proof.
  intros n HC [HS Hnd] Hin.
  destruct (pool_indices _ _ Hin) as (idx & Hmap & Hids).
  destruct (pool_indices_facts _ _ _ Hids) as (Hlen & Hrange & Hnd').
  specialize (Hnd' Hnd). fold n in Hrange. rewrite <- Hlen in HS.
  destruct (set_subcovariance_entries C S idx HC HS Hmap Hrange)
    as (prior & close & _ & _ & Hset).
  fold n in Hset. eexists idx, _. split; [done|]. split; [exact Hset|].
  cbn [Covariance.parameters Covariance.data Covariance._data].
  split; [done|]. split; [apply is_shape_tabulate_float|].
  rewrite (ix_get_tabulate n) by (apply is_shape_tabulate_float || done).
  f_equal. rewrite (tabulate_get _ _ _ HS) at 1.
  symmetry. apply tabulate_ext. intros a b Ha Hb.
  assert (Hbound : forall c, c < length idx -> default 0 (idx !! c) < n).
  { intros c Hc. destruct (lookup_lt_is_Some_2 idx c Hc) as [i Hi]. rewrite Hi.
    eapply Forall_forall in Hrange; [exact Hrange|].
    by eapply list_elem_of_lookup_2. }
  rewrite get_tabulate by by apply Hbound.
  symmetry. by apply entries_after_block.
Qed.

(** The loop of [from_stack] over well-formed sub-covariances of the pool. *)
Lemma from_stack_loop (pool : ParameterPool.t) (l : list Covariance.t) :
  forall C0,
    Covariance.parameters C0 = pool ->
    Np.is_shape (length pool) (length pool) (Covariance.data C0) = true ->
    Forall Covariance.well_formed l ->
    (forall S p, S ∈ l -> p ∈ Covariance.parameters S ->
                 Param.py_id p ∈ ParameterPool.ids pool) ->
    exists C,
      foldR Covariance.set_subcovariance C0 l = Ok C
      /\ Covariance.parameters C = pool
      /\ Np.is_shape (length pool) (length pool) (Covariance.data C) = true.
Proof.
  induction l as [|S l IH]; intros C0 Hpool Hshape Hwf Hin; [by exists C0|].
  apply Forall_cons in Hwf as [HS Hwf].
  destruct (set_subcovariance_ok C0 S) as (idx & C1 & _ & Hset & Hp1 & Hs1 & _).
  - by rewrite Hpool.
  - done.
  - intros p Hp. rewrite Hpool. apply (Hin S); [by left|done].
  - cbn [foldR]. rewrite Hset. cbn [mbind result_bind].
    apply IH; [congruence| |done|].
    + by rewrite Hpool in Hs1.
    + intros S' p HS' Hp. apply (Hin S'); [by right|done].
Qed.

(** C5, as the code has it.  [from_stack] stacks the pools and builds the
    default covariance over the stacked pool, which is the diagonal
    matrix of the squared parameter errors [p.error ** 2] and not a zero
    matrix; an exception of the squaring (the OverflowError of a square
    out of range) escapes.  It then applies [set_subcovariance] for each
    sub-covariance in list order.  When the squares are computed, on
    well-formed sub-covariances it succeeds with a matrix over the stacked
    pool in which the block of the last sub-covariance is the data of
    that sub-covariance.  For two sub-covariances over disjoint pools of 2
    and of 3 distinct parameters the result is then the 5 x 5
    block-diagonal matrix of their data, with 0.0 in every entry outside
    the two blocks. *)
Theorem from_stack_spec `{Square} (covar_list : list Covariance.t) :
  let pool := ParameterPool.from_stack (map Covariance.parameters covar_list) in
  let squares := mapR (fun p => float_square (Param.error p)) pool in
  Covariance.from_stack covar_list
  = (sq ← squares;
     foldR Covariance.set_subcovariance
       (Covariance.mk pool (Np.diag sq)) covar_list)
  /\ (forall e, squares = Raise e ->
        Covariance.from_stack covar_list = Raise e)
  /\ (forall sq, squares = Ok sq ->
      Forall Covariance.well_formed covar_list ->
      exists C,
        Covariance.from_stack covar_list = Ok C
        /\ Covariance.parameters C = pool
        /\ Np.is_shape (length pool) (length pool) (Covariance.data C) = true
        /\ forall init last, covar_list = init ++ [last] ->
             exists idx,
               mapR (ParameterPool.index pool) (Covariance.parameters last) = Ok idx
               /\ Np.ix_get (Covariance.data C) idx = Ok (Covariance.data last))
  /\ (forall S1 S2 sq,
        covar_list = [S1; S2] ->
        squares = Ok sq ->
        length (Covariance.parameters S1) = 2 ->
        length (Covariance.parameters S2) = 3 ->
        Np.is_shape 2 2 (Covariance.data S1) = true ->
        Np.is_shape 3 3 (Covariance.data S2) = true ->
        NoDup (ParameterPool.ids (Covariance.parameters S1 ++ Covariance.parameters S2)) ->
        exists C,
          Covariance.from_stack covar_list = Ok C
          /\ Covariance.parameters C
             = Covariance.parameters S1 ++ Covariance.parameters S2
          /\ Np.is_shape 5 5 (Covariance.data C) = true
          /\ (forall i j, i < 2 -> j < 2 ->
                Np.get (Covariance.data C) i j = Np.get (Covariance.data S1) i j)
          /\ (forall i j, 2 <= i < 5 -> 2 <= j < 5 ->
                Np.get (Covariance.data C) i j
                = Np.get (Covariance.data S2) (i - 2) (j - 2))
          /\ (forall i j, (i < 2 /\ 2 <= j < 5) \/ (2 <= i < 5 /\ j < 2) ->
                Np.get (Covariance.data C) i j = 0%float)).
Proof.
  intros pool squares.
  pose proof (from_stack_unfold covar_list) as Hunfold. cbn zeta in Hunfold.
  fold pool in Hunfold. fold squares in Hunfold.
  split; [exact Hunfold|]. split; [|split].
  - intros e He. by rewrite Hunfold, He.
  - intros sq Hsq Hwf. rewrite Hunfold, Hsq. cbn [mbind result_bind].
    set (start := Covariance.mk pool (Np.diag sq)).
    assert (Hstart : Np.is_shape (length pool) (length pool) (Covariance.data start) = true).
    { cbn. rewrite <- (mapR_length _ _ _ Hsq). apply is_shape_tabulate_float. }
    assert (Hin : forall S p, S ∈ covar_list -> p ∈ Covariance.parameters S ->
                    Param.py_id p ∈ ParameterPool.ids pool).
    { intros S p HS Hp. apply (from_stack_ids _ (Covariance.parameters S)); [|done].
      by apply list_elem_of_fmap_2. }
    destruct (from_stack_loop pool covar_list start eq_refl Hstart Hwf Hin)
      as (C & Hfold & Hpool & Hshape).
    exists C. split; [exact Hfold|]. split; [done|]. split; [done|].
    intros init last Hlist.
    rewrite Hlist in Hwf, Hin, Hfold.
    apply Forall_app in Hwf as [Hwf_init Hwf_last].
    apply Forall_cons in Hwf_last as [Hwf_last _].
    destruct (from_stack_loop pool init start eq_refl Hstart Hwf_init)
      as (C1 & Hfold1 & Hpool1 & Hshape1).
    { intros S p HS Hp. apply (Hin S); [|done]. apply elem_of_app. by left. }
    rewrite foldR_app, Hfold1 in Hfold. cbn [mbind result_bind foldR] in Hfold.
    destruct (set_subcovariance_ok C1 last) as (idx & C2 & Hmap & Hset & _ & _ & Hblock).
    + by rewrite Hpool1.
    + done.
    + intros p Hp. rewrite Hpool1. apply (Hin last); [|done].
      apply elem_of_app. right. by left.
    + rewrite Hset in Hfold. cbn [mbind result_bind] in Hfold.
      injection Hfold as <-. exists idx. split; [|done]. by rewrite <- Hpool1.
  - intros S1 S2 sq -> Hsq Hlen1 Hlen2 H1 H2 Hnd.
    rewrite <- Hlen1 in H1. rewrite <- Hlen2 in H2.
    assert (Hpool : pool = Covariance.parameters S1 ++ Covariance.parameters S2)
      by (apply from_stack_disjoint, Hnd).
    assert (Hlen : length sq = length (Covariance.parameters S1)
                               + length (Covariance.parameters S2)).
    { rewrite (mapR_length _ _ _ Hsq), Hpool. apply length_app. }
    rewrite Hunfold, Hsq. cbn [mbind result_bind]. rewrite Hpool.
    rewrite (from_stack_two_disjoint S1 S2 sq H1 H2 Hnd Hlen), Hlen1, Hlen2.
    eexists. split; [reflexivity|].
    cbn [Covariance.parameters Covariance.data Covariance._data].
    split; [done|]. split; [apply is_shape_tabulate_float|].
    split; [|split].
    + intros i j Hi Hj. rewrite get_tabulate by lia.
      by rewrite (proj2 (Nat.ltb_lt i 2) Hi), (proj2 (Nat.ltb_lt j 2) Hj).
    + intros i j Hi Hj. rewrite get_tabulate by lia.
      rewrite (proj2 (Nat.ltb_ge i 2)) by lia. cbn [andb].
      by rewrite (proj2 (Nat.leb_le 2 i)), (proj2 (Nat.leb_le 2 j)) by lia.
    + intros i j Hij. rewrite get_tabulate by lia.
      destruct Hij as [[Hi Hj]|[Hi Hj]].
      * rewrite (proj2 (Nat.ltb_lt i 2) Hi), (proj2 (Nat.ltb_ge j 2)) by lia.
        cbn [andb]. by rewrite (proj2 (Nat.leb_gt 2 i)) by lia.
      * rewrite (proj2 (Nat.ltb_ge i 2)) by lia. cbn [andb].
        rewrite (proj2 (Nat.leb_le 2 i)) by lia.
        by rewrite (proj2 (Nat.leb_gt 2 j)) by lia.
Qed.

Lemma from_stack_spec_witness :
  Covariance.from_stack (H := square_product) [Examples.pair; Examples.triple]
  = Ok (Covariance.mk [Examples.a; Examples.b; Examples.c; Examples.d; Examples.e]
          [[1; 0.5; 0; 0; 0];
           [0.5; 2; 0; 0; 0];
           [0; 0; 3; 0.25; 0.125];
           [0; 0; 0.25; 4; 0.75];
           [0; 0; 0.125; 0.75; 5]]%float).
Proof.
  destruct (proj2 (proj2 (proj2 (from_stack_spec (H := square_product)
                                   [Examples.pair; Examples.triple])))
              Examples.pair Examples.triple [0; 0; 1; 0.25; 0]%float
              eq_refl eq_refl eq_refl eq_refl eq_refl eq_refl)
    as (C & Hstack & _).
  - apply (bool_decide_unpack _). vm_compute. exact I.
  - transitivity (Ok C); [exact Hstack|].
    vm_compute in Hstack. injection Hstack as <-. reflexivity.
Defined.

(** C5, as it is worded, against the code: starting from a zero covariance
    is not what [from_stack] does.  With the pools [a, b] and [b, c], where
    [c] has error 1, the default start already holds the variance of [c],
    the second block is found close to its data and the covariance of [a]
    and [b] stays 0.5; from a zero start it would be cleared to 0.0. *)
Lemma from_stack_not_zero_start :
  Covariance.from_stack (H := square_product) [Examples.ab; Examples.bc]
  = Ok (Covariance.mk [Examples.a; Examples.b; Examples.c]
          [[1; 0.5; 0]; [0.5; 1; 0]; [0; 0; 1]]%float)
  /\ Covariance.from_stack_zero_start [Examples.ab; Examples.bc]
     = Ok (Covariance.mk [Examples.a; Examples.b; Examples.c]
             [[1; 0; 0]; [0; 1; 0]; [0; 0; 1]]%float)
  /\ Covariance.from_stack (H := square_product) [Examples.ab; Examples.bc]
     <> Covariance.from_stack_zero_start [Examples.ab; Examples.bc].
Proof.
  repeat split; try reflexivity.
  vm_compute. intros H. discriminate H.
Qed.

(** The same outcome for every squaring that gives 0.0 for 0.0 and 1.0
    for 1.0, as the [pow] of every C library does. *)
Lemma from_stack_close_block `{Square} :
  float_square 0%float = Ok 0%float ->
  float_square 1%float = Ok 1%float ->
  Covariance.from_stack [Examples.ab; Examples.bc]
  = Ok (Covariance.mk [Examples.a; Examples.b; Examples.c]
          [[1; 0.5; 0]; [0.5; 1; 0]; [0; 0; 1]]%float).
Proof.
  intros H0 H1. rewrite from_stack_unfold.
  change (ParameterPool.from_stack
            (map Covariance.parameters [Examples.ab; Examples.bc]))
    with [Examples.a; Examples.b; Examples.c].
  cbn [mapR Examples.a Examples.b Examples.c Examples.par Param.error].
  rewrite H0, H1. reflexivity.
Qed.

End from_stack_theorem.

(** ** Covariance.from_factor_matrix *)

Section from_factor_matrix_facts.
Local Open Scope nat_scope.

Lemma tabulate_map2 {A B C} (g : A -> B -> C) (dA : A) (dB : B)
    (l : list A) (l' : list B) :
  Np.tabulate (length l) (length l')
    (fun i j => g (default dA (l !! i)) (default dB (l' !! j)))
  = map (fun x => map (g x) l') l.
Proof.
  unfold Np.tabulate. rewrite (map_lookup_seq _ l dA).
  apply map_ext. intros i. by rewrite (map_lookup_seq _ l' dB).
Qed.

Lemma spread_length {A} (d : A) (frozen : list bool) (vals : list A) :
  length (Covariance.spread d frozen vals) = length frozen.
Proof.
  revert vals. induction frozen as [|[] frozen IH]; intros vals; [done|..].
  - cbn. by rewrite IH.
  - destruct vals; cbn; by rewrite IH.
Qed.

Lemma spread_lookup {A} (d : A) (frozen : list bool) (vals : list A) (j : nat) :
  j < length frozen ->
  Covariance.spread d frozen vals !! j
  = Some (if default false (frozen !! j) then d
          else default d (vals !! Covariance.rank frozen j)).
Proof.
  revert vals j. induction frozen as [|b frozen IH]; intros vals j Hj; [cbn in Hj; lia|].
  destruct b.
  - destruct j as [|j]; [done|]. cbn in Hj |- *. rewrite IH by lia. done.
  - destruct vals as [|v vals]; destruct j as [|j]; try done; cbn in Hj |- *.
    + rewrite IH by lia. by destruct (default false (frozen !! j)).
    + rewrite IH by lia. done.
Qed.

Lemma rank_lt (frozen : list bool) (j : nat) :
  frozen !! j = Some false ->
  Covariance.rank frozen j < Covariance.count_free frozen.
Proof.
  revert j. induction frozen as [|b frozen IH]; intros j Hj; [done|].
  unfold Covariance.count_free. rewrite filter_cons.
  destruct j as [|j]; cbn in Hj.
  - injection Hj as ->. case_decide; [|done]. cbn. lia.
  - specialize (IH _ Hj). unfold Covariance.count_free in IH.
    destruct b; case_decide; try done; cbn; lia.
Qed.

Lemma assign_row_frozen (row : list float) (frozen : list bool) (vals : list float) :
  Np.assign_row row (map (fun bj => negb (bj || true)) frozen) vals = (row, vals).
Proof.
  revert frozen. induction row as [|x row IH]; intros [|b frozen]; try done.
  cbn. rewrite orb_true_r. cbn. by rewrite IH.
Qed.

Lemma assign_row_free (frozen : list bool) (vals rest : list float) :
  length vals = Covariance.count_free frozen ->
  Np.assign_row (map (fun _ => 0%float) frozen)
                (map (fun bj => negb (bj || false)) frozen) (vals ++ rest)
  = (Covariance.spread 0%float frozen vals, rest).
Proof.
  revert vals. induction frozen as [|b frozen IH]; intros vals Hlen.
  - destruct vals; [done|]. cbn in Hlen. lia.
  - unfold Covariance.count_free in Hlen. rewrite filter_cons in Hlen.
    destruct b; case_decide; try done.
    + cbn. by rewrite (IH vals Hlen).
    + destruct vals as [|v vals]; cbn in Hlen; [lia|].
      cbn. rewrite (IH vals) by (unfold Covariance.count_free; lia). done.
Qed.

Lemma assign_rows_spread (frozen rows : list bool) (mrows : list (list float)) :
  length mrows = Covariance.count_free rows ->
  Forall (fun r => length r = Covariance.count_free frozen) mrows ->
  Np.assign_rows (map (fun _ => map (fun _ => 0%float) frozen) rows)
                 (map (fun bi => map (fun bj => negb (bj || bi)) frozen) rows)
                 (concat mrows)
  = Covariance.spread (map (fun _ => 0%float) frozen) rows
      (map (Covariance.spread 0%float frozen) mrows).
Proof.
  revert mrows. induction rows as [|b rows IH]; intros mrows Hlen Hrows; [done|].
  unfold Covariance.count_free in Hlen. rewrite filter_cons in Hlen.
  destruct b; case_decide; try done.
  - cbn [map Np.assign_rows Covariance.spread].
    rewrite assign_row_frozen. f_equal. by apply IH.
  - destruct mrows as [|r mrows]; cbn in Hlen; [lia|].
    apply Forall_cons in Hrows as [Hr Hrows].
    cbn [map Np.assign_rows Covariance.spread concat].
    rewrite (assign_row_free _ _ _ Hr). f_equal.
    apply IH; [unfold Covariance.count_free; lia|done].
Qed.

Lemma count_free_mask_row (frozen : list bool) (b : bool) :
  length (filter (fun x => x = true) (map (fun bj => negb (bj || b)) frozen))
  = if b then 0 else Covariance.count_free frozen.
Proof.
  unfold Covariance.count_free.
  induction frozen as [|bj frozen IH]; [by destruct b|].
  cbn [map]. rewrite !filter_cons.
  destruct b, bj; cbn; repeat case_decide; try done; cbn; by rewrite IH.
Qed.

Lemma count_free_cons (b : bool) (frozen : list bool) :
  Covariance.count_free (b :: frozen)
  = (if b then 0 else 1) + Covariance.count_free frozen.
Proof.
  unfold Covariance.count_free. rewrite filter_cons.
  destruct b; case_decide; done.
Qed.

Lemma count_true_free_mask (frozen rows : list bool) :
  Np.count_true (map (fun bi => map (fun bj => negb (bj || bi)) frozen) rows)
  = Covariance.count_free rows * Covariance.count_free frozen.
Proof.
  unfold Np.count_true.
  induction rows as [|b rows IH]; [done|].
  cbn [map concat]. rewrite filter_app, length_app, IH, count_free_mask_row.
  rewrite count_free_cons. destruct b; lia.
Qed.

Lemma length_concat_rows {A} (c : nat) (m : list (list A)) :
  Forall (fun r => length r = c) m -> length (concat m) = length m * c.
Proof.
  induction 1 as [|r m Hr _ IH]; [done|].
  cbn. rewrite length_app, IH, Hr. lia.
Qed.

Lemma map_const_length {A B C} (c : C) (l : list A) (l' : list B) :
  length l = length l' -> map (fun _ => c) l = map (fun _ => c) l'.
Proof.
  revert l'. induction l as [|x l IH]; intros [|y l'] Hlen; try done.
  cbn. f_equal. apply IH. by injection Hlen.
Qed.

Lemma zeros_map {A B} (l : list A) (l' : list B) :
  Np.zeros (length l) (length l')
  = map (fun _ => map (fun _ => 0%float) l') l.
Proof.
  unfold Np.zeros, Np.tabulate.
  rewrite (map_const_length 0%float (seq 0 (length l')) l') by apply length_seq.
  apply map_const_length, length_seq.
Qed.

(** The boolean-mask assignment of [_expand_factor_matrix]. *)
Lemma mask_assign_expansion (frozen : list bool) (matrix : Np.matrix) :
  let n := length frozen in
  let f := Covariance.count_free frozen in
  Np.is_shape f f matrix = true ->
  Np.mask_assign (Np.zeros n n)
    (Np.tabulate n n
       (fun i j => negb (default false (frozen !! j) || default false (frozen !! i))))
    (Np.ravel matrix)
  = Ok (Np.tabulate n n
          (fun i j =>
             if default false (frozen !! i) || default false (frozen !! j)
             then 0%float
             else Np.get matrix (Covariance.rank frozen i) (Covariance.rank frozen j))).
Proof.
  intros n f [Hrows Hcols]%is_shape_spec. unfold n.
  rewrite (tabulate_map2 (fun bi bj => negb (bj || bi)) false false frozen frozen).
  rewrite zeros_map.
  unfold Np.mask_assign, Np.ravel.
  rewrite count_true_free_mask, (length_concat_rows f) by done.
  rewrite Hrows. fold f. rewrite Nat.eqb_refl.
  rewrite assign_rows_spread by done. f_equal.
  apply list_eq. intros i.
  destruct (decide (i < length frozen)) as [Hi|Hi].
  2:{ rewrite !lookup_ge_None_2; [done| |];
        rewrite ?spread_length, ?(proj1 (is_shape_tabulate _ _ _)); lia. }
  rewrite lookup_tabulate, spread_lookup by done. f_equal.
  destruct (lookup_lt_is_Some_2 frozen i Hi) as [bi Hbi]. rewrite Hbi.
  cbn [from_option id]. destruct bi.
  - cbn [orb]. apply list_eq. intros j. rewrite !list_lookup_fmap.
    destruct (decide (j < length frozen)) as [Hj|Hj].
    + rewrite lookup_seq_lt by done.
      destruct (lookup_lt_is_Some_2 frozen j Hj) as [bj ->]. done.
    + rewrite lookup_seq_ge by lia. rewrite lookup_ge_None_2 by lia. done.
  - cbn [orb]. rewrite list_lookup_fmap.
    pose proof (rank_lt _ _ Hbi) as Hrank. fold f in Hrank.
    destruct (lookup_lt_is_Some_2 matrix (Covariance.rank frozen i)) as [r Hr]; [lia|].
    rewrite Hr. cbn [fmap option_fmap option_map from_option id].
    apply list_eq. intros j.
    destruct (decide (j < length frozen)) as [Hj|Hj].
    2:{ rewrite !lookup_ge_None_2; [done| |];
          rewrite ?spread_length, ?length_map, ?length_seq; lia. }
    rewrite spread_lookup by done.
    rewrite list_lookup_fmap, lookup_seq_lt by done. cbn. f_equal.
    destruct (lookup_lt_is_Some_2 frozen j Hj) as [bj Hbj]. rewrite Hbj.
    cbn [from_option id]. destruct bj; [done|].
    unfold Np.get. rewrite Hr. cbn. done.
Qed.

(** [_expand_factor_matrix] on a reduced matrix of the side of the free
    parameters gives the expansion. *)
Lemma expand_factor_matrix_expansion (matrix : Np.matrix) (parameters : ParameterPool.t) :
  let f := Covariance.count_free (map Param.frozen parameters) in
  parameters <> [] ->
  Np.is_shape f f matrix = true ->
  Covariance._expand_factor_matrix matrix parameters
  = Ok (Covariance.expansion matrix parameters).
Proof.
  intros f Hne Hm. unfold Covariance._expand_factor_matrix, Covariance.expansion.
  rewrite <- (length_map Param.frozen parameters).
  rewrite <- (mask_assign_expansion _ _ Hm).
  destruct parameters as [|p ps]; [done|]. reflexivity.
Qed.

End from_factor_matrix_facts.

Section from_factor_matrix_theorem.
Local Open Scope nat_scope.

(** The rescaling step of [from_factor_matrix]. *)
Lemma scale_step `{Square} (parameters : ParameterPool.t) (m : Np.matrix) :
  let n := length parameters in
  Np.is_shape n n m = true ->
  (data ← Np.ufunc2_2d mul
            (Np.outer (map Param.scale parameters) (map Param.scale parameters)) m;
   Covariance.__init__ parameters (Some data))
  = Ok (Covariance.mk parameters (Covariance.scaled parameters m)).
Proof.
  intros n Hm. rewrite outer_tabulate, !length_map. fold n.
  rewrite (ufunc2_2d_same_shape _ n n) by (apply is_shape_tabulate_float || done).
  cbn [mbind result_bind]. unfold Covariance.__init__, Covariance.scaled.
  cbn [mbind result_bind]. do 2 f_equal. apply tabulate_ext. intros i j Hi Hj. by rewrite get_tabulate.
Qed.

Lemma shape_square (n : nat) (m : Np.matrix) :
  Np.is_shape n n m = true -> Np.shape m = (n, n).
Proof.
  intros Hm. unfold Np.shape. rewrite (is_shape_nrows _ _ _ Hm).
  destruct n as [|n].
  - apply is_shape_nrows in Hm. by destruct m.
  - by rewrite (is_shape_ncols _ _ _ Hm) by lia.
Qed.

(** C4.  For a pool of N parameters of which F are free: when the matrix
    is N x N the data of the result is the element-wise product of the
    outer product of the scales with the matrix; when it is F x F, with
    F other than N, the product is taken with the expansion of the matrix,
    which holds its entries at the index pairs of free parameters and 0.0
    in every row and column of a frozen parameter. *)
Theorem from_factor_matrix_spec `{Square} (parameters : ParameterPool.t) (matrix : Np.matrix) :
  let n := length parameters in
  let f := Covariance.count_free (map Param.frozen parameters) in
  (Np.is_shape n n matrix = true ->
   Covariance.from_factor_matrix parameters matrix
   = Ok (Covariance.mk parameters (Covariance.scaled parameters matrix)))
  /\ (f <> n -> Np.is_shape f f matrix = true ->
      Covariance.from_factor_matrix parameters matrix
      = Ok (Covariance.mk parameters
              (Covariance.scaled parameters
                 (Covariance.expansion matrix parameters)))).
Proof.
  intros n f. split.
  - intros Hm. unfold Covariance.from_factor_matrix. fold n.
    rewrite (shape_square _ _ Hm). unfold Np.shape_eqb. cbn [fst snd].
    rewrite Nat.eqb_refl. cbn [andb negb mbind result_bind].
    by apply scale_step.
  - intros Hfn Hm. unfold Covariance.from_factor_matrix. fold n.
    rewrite (shape_square _ _ Hm). unfold Np.shape_eqb. cbn [fst snd].
    rewrite (proj2 (Nat.eqb_neq f n) Hfn). cbn [andb negb].
    rewrite expand_factor_matrix_expansion; [| |done].
    + cbn [mbind result_bind]. apply scale_step.
      unfold Covariance.expansion. apply is_shape_tabulate_float.
    + intros ->. apply Hfn. reflexivity.
Qed.

Lemma from_factor_matrix_spec_witness :
  Covariance.from_factor_matrix (H := square_product) Examples.scaled_pool Examples.reduced
  = Ok (Covariance.mk Examples.scaled_pool
          [[1; 0; 6]; [0; 0; 0]; [9; 0; 36]]%float).
Proof.
  refine (eq_trans
            (proj2 (from_factor_matrix_spec (H := square_product) Examples.scaled_pool Examples.reduced) _ _)
            _).
  - discriminate.
  - reflexivity.
  - vm_compute. reflexivity.
Defined.

End from_factor_matrix_theorem.

(** * Further properties of the collection *)

Section datasets_sequence.
Local Open Scope nat_scope.

Lemma init_loop_unique (l : list Dataset.t) (seen : list string) :
  NoDup (seen ++ map Dataset.name l) ->
  foldR (fun unique_names dataset =>
           if decide (Dataset.name dataset ∈ unique_names)
           then raise ValueError (Some Datasets.unique_msg)
           else Ok (unique_names ++ [Dataset.name dataset]))
        seen l
  = Ok (seen ++ map Dataset.name l).
Proof.
  revert seen. induction l as [|x l IH]; intros seen Hnd.
  - cbn. by rewrite app_nil_r.
  - cbn [foldR map] in *. case_decide as Hx.
    + exfalso. apply NoDup_app in Hnd as (_ & Hdisj & _).
      apply (Hdisj _ Hx). by left.
    + rewrite bind_Ok, IH; rewrite <- app_assoc; done.
Qed.

(** X1.  Constructing a collection from a list succeeds exactly when the
    names in the list are pairwise distinct, and the collection then holds
    the list as it is; otherwise the ValueError is raised. *)
Theorem Datasets_init_list (l : list Dataset.t) :
  Datasets.__init__ (Some (Datasets.PyList l))
  = if decide (NoDup (map Dataset.name l))
    then Ok (Datasets.mk l)
    else raise ValueError (Some Datasets.unique_msg).
Proof.
  case_decide as Hnd; [|by apply init_duplicate].
  unfold Datasets.__init__. rewrite bind_Ok.
  by rewrite (init_loop_unique l []).
Qed.

Lemma insert_names (l : list Dataset.t) (idx : Z) (d : Dataset.t) :
  map Dataset.name (PyList.insert l idx d)
  = PyList.insert (map Dataset.name l) idx (Dataset.name d).
Proof.
  unfold PyList.insert. rewrite length_map.
  by rewrite map_app, <- !fmap_take, <- !fmap_drop.
Qed.

Lemma insert_NoDup {A} (l : list A) (idx : Z) (x : A) :
  NoDup l -> x ∉ l -> NoDup (PyList.insert l idx x).
Proof.
  intros Hnd Hx. unfold PyList.insert. set (j := Z.to_nat _).
  rewrite <- (take_drop j l) in Hnd, Hx.
  apply NoDup_app in Hnd as (Hl & Hdisj & Hr).
  apply not_elem_of_app in Hx as [Hxl Hxr].
  apply NoDup_app. split; [done|]. split.
  - intros y Hy [->|Hy']%elem_of_cons; [done|]. by apply (Hdisj y).
  - by apply NoDup_cons.
Qed.

Lemma insert_lookup {A} (l : list A) (idx : Z) (x : A) :
  (0 <= idx)%Z ->
  PyList.insert l idx x !! Z.to_nat (Z.min idx (Z.of_nat (length l))) = Some x.
Proof.
  intros Hidx. unfold PyList.insert.
  destruct (Z.ltb_spec idx 0) as [?|_]; [lia|].
  set (j := Z.to_nat _).
  rewrite lookup_app_r by (rewrite length_take; lia).
  rewrite length_take. replace (j - j `min` length l) with 0; [done|].
  unfold j. lia.
Qed.

(** X2.  Inserting a dataset whose name is new into a collection of
    distinct names succeeds: the collection has one dataset more, its names
    are still distinct, every dataset it held is still there, and for a
    position [idx >= 0] the new dataset is found at [min(idx, len)]. *)
Theorem Datasets_insert_fresh (D : Datasets.t) (d : Dataset.t) (idx : Z) :
  NoDup (Datasets.names D) ->
  Dataset.name d ∉ Datasets.names D ->
  exists D',
    Datasets.insert idx (Datasets.PyDataset d) D = (Ok tt, D')
    /\ Datasets.__len__ D' = S (Datasets.__len__ D)
    /\ NoDup (Datasets.names D')
    /\ d ∈ Datasets._datasets D'
    /\ (forall x, x ∈ Datasets._datasets D -> x ∈ Datasets._datasets D')
    /\ ((0 <= idx)%Z ->
        Datasets.__getitem__ D'
          (Datasets.KInt (Z.min idx (Z.of_nat (Datasets.__len__ D))))
        = Ok (Datasets.One d)).
Proof.
  intros Hnd Hfresh. destruct D as [l]. unfold Datasets.names in *. cbn in *.
  eexists. unfold Datasets.insert. cbn [Datasets.as_dataset].
  case_decide as Hin; [done|]. split; [reflexivity|].
  unfold Datasets.__len__, Datasets.names. cbn [Datasets._datasets].
  repeat split.
  - unfold PyList.insert. rewrite length_app. cbn [length].
    rewrite length_take, length_drop. lia.
  - rewrite insert_names. by apply insert_NoDup.
  - unfold PyList.insert. apply elem_of_app. right. by left.
  - intros x Hx. unfold PyList.insert. set (j := Z.to_nat _).
    rewrite <- (take_drop j l) in Hx.
    apply elem_of_app in Hx as [Hx|Hx]; apply elem_of_app; [by left|].
    right. by right.
  - intros Hidx. unfold Datasets.__getitem__.
    cbn [Datasets.index mbind result_bind Datasets._datasets].
    pose proof (insert_lookup l idx d Hidx) as Hlook.
    rewrite <- (Z2Nat.id (Z.min idx (Z.of_nat (length l)))) by lia.
    by rewrite (getitem_nat_Some _ _ _ Hlook).
Qed.

Lemma Datasets_insert_fresh_witness :
  exists D',
    Datasets.insert 1 (Datasets.PyDataset (Examples.one_bin 9 "obs-9" 0)) Examples.three
    = (Ok tt, D')
    /\ Datasets.__len__ D' = 4
    /\ Datasets.__getitem__ D' (Datasets.KInt 1)
       = Ok (Datasets.One (Examples.one_bin 9 "obs-9" 0)).
Proof.
  destruct (Datasets_insert_fresh Examples.three (Examples.one_bin 9 "obs-9" 0) 1)
    as (D' & Hins & Hlen & _ & _ & _ & Hget).
  - apply (bool_decide_unpack _). vm_compute. exact I.
  - apply (bool_decide_unpack _). vm_compute. exact I.
  - exists D'. split; [exact Hins|]. split; [exact Hlen|]. apply Hget. lia.
Defined.

End datasets_sequence.

Section datasets_lookup.
Local Open Scope nat_scope.

(** [l.index(x)] for an equality test that compares a key of the entries. *)
Lemma index_key_Some {A K} (eqb : A -> A -> bool) (key : A -> K)
    (x : A) (l : list A) (i : nat) :
  (forall a b, eqb a b = true <-> key a = key b) ->
  PyList.index eqb x l = Some i ->
  exists y, l !! i = Some y /\ key y = key x
            /\ forall j z, j < i -> l !! j = Some z -> key z <> key x.
Proof.
  intros Heqb. revert i. induction l as [|y l IH]; intros i Hi; [done|].
  cbn in Hi. destruct (eqb x y) eqn:Hxy.
  - injection Hi as <-. exists y. apply Heqb in Hxy.
    split; [done|]. split; [done|]. intros j z Hj. lia.
  - destruct (PyList.index eqb x l) as [i'|] eqn:Hi'; [|done].
    injection Hi as <-. destruct (IH _ eq_refl) as (z & Hz & Hkey & Hfirst).
    exists z. split; [done|]. split; [done|].
    intros [|j] w Hj Hw.
    + cbn in Hw. injection Hw as <-. intros Hk.
      symmetry in Hk. apply Heqb in Hk. congruence.
    + cbn in Hw. apply (Hfirst j); [lia|done].
Qed.

Lemma index_key_None {A K} (eqb : A -> A -> bool) (key : A -> K)
    (x : A) (l : list A) :
  (forall a b, eqb a b = true <-> key a = key b) ->
  PyList.index eqb x l = None <-> (forall y, y ∈ l -> key y <> key x).
Proof.
  intros Heqb. induction l as [|y l IH]; cbn.
  - split; [|done]. intros _ y Hy. by apply elem_of_nil in Hy.
  - destruct (eqb x y) eqn:Hxy.
    + split; [done|]. intros Hall. exfalso.
      apply Heqb in Hxy. apply (Hall y); [by left|done].
    + rewrite fmap_None, IH. split.
      * intros Hall z [->|Hz]%elem_of_cons; [|by apply Hall].
        intros Hk. symmetry in Hk. apply Heqb in Hk. congruence.
      * intros Hall z Hz. apply Hall. by right.
Qed.

Lemma string_eqb_key (a b : string) : String.eqb a b = true <-> id a = id b.
Proof. apply String.eqb_eq. Qed.

Lemma same_object_key (a b : Dataset.t) :
  Datasets.same_object a b = true <-> Dataset.py_id a = Dataset.py_id b.
Proof. apply Pos.eqb_eq. Qed.

(** Looking a name up in a collection of distinct names. *)
Lemma getitem_by_name_unique (l : list Dataset.t) (d : Dataset.t) :
  NoDup (map Dataset.name l) -> d ∈ l ->
  Datasets.__getitem__ (Datasets.mk l) (Datasets.KStr (Dataset.name d))
  = Ok (Datasets.One d).
Proof.
  intros Hnd Hd. unfold Datasets.__getitem__, Datasets.index, Datasets.names.
  cbn [Datasets._datasets].
  destruct (PyList.index String.eqb (Dataset.name d) (map Dataset.name l))
    as [i|] eqn:Hi.
  - destruct (index_key_Some String.eqb id _ _ _ string_eqb_key Hi) as (n & Hn & Hkey & _).
    cbn in Hkey. subst n. cbn [mbind result_bind].
    apply list_elem_of_lookup in Hd as [j Hj].
    assert (i = j) as ->.
    { eapply NoDup_lookup; [exact Hnd|exact Hn|].
      by rewrite list_lookup_fmap, Hj. }
    by rewrite (getitem_nat_Some _ _ _ Hj).
  - exfalso.
    pose proof (proj1 (index_key_None String.eqb id _ _ string_eqb_key) Hi) as Hall.
    apply (Hall (Dataset.name d)); [|done]. by apply list_elem_of_fmap_2.
Qed.

(** X3.  [D[name]]: when some dataset has the name, the first such dataset
    is returned, and it is the only one when the names are distinct; when
    no dataset has the name, a ValueError is raised. *)
Theorem Datasets_getitem_by_name (D : Datasets.t) (n : string) :
  (n ∈ Datasets.names D ->
   exists i d,
     Datasets.index D (Datasets.KStr n) = Ok (Datasets.PInt (Z.of_nat i))
     /\ Datasets.__getitem__ D (Datasets.KStr n) = Ok (Datasets.One d)
     /\ Datasets._datasets D !! i = Some d
     /\ Dataset.name d = n
     /\ (forall j d', j < i -> Datasets._datasets D !! j = Some d' ->
                      Dataset.name d' <> n)
     /\ (NoDup (Datasets.names D) ->
         forall d', d' ∈ Datasets._datasets D -> Dataset.name d' = n -> d' = d))
  /\ (n ∉ Datasets.names D ->
      Datasets.__getitem__ D (Datasets.KStr n) = raise ValueError None).
Proof.
  destruct D as [l]. unfold Datasets.names. cbn [Datasets._datasets]. split.
  - intros Hin.
    destruct (PyList.index String.eqb n (map Dataset.name l)) as [i|] eqn:Hi.
    2:{ exfalso.
        pose proof (proj1 (index_key_None String.eqb id _ _ string_eqb_key) Hi) as Hall.
        by apply (Hall n). }
    destruct (index_key_Some String.eqb id _ _ _ string_eqb_key Hi) as (m & Hm & Hkey & Hfirst).
    cbn in Hkey. subst m.
    rewrite list_lookup_fmap in Hm.
    destruct (l !! i) as [d|] eqn:Hd; [|done]. cbn in Hm. injection Hm as Hname.
    exists i, d.
    unfold Datasets.__getitem__, Datasets.index, Datasets.names.
    cbn [Datasets._datasets]. rewrite Hi. cbn [mbind result_bind].
    rewrite (getitem_nat_Some _ _ _ Hd).
    repeat split; try done.
    + intros j d' Hj Hd'. apply (Hfirst j (Dataset.name d') Hj).
      by rewrite list_lookup_fmap, Hd'.
    + intros Hnd d' Hd' Hname'.
      apply list_elem_of_lookup in Hd' as [j Hj].
      assert (i = j) as ->; [|congruence].
      eapply NoDup_lookup; [exact Hnd| |].
      * by rewrite list_lookup_fmap, Hd.
      * rewrite list_lookup_fmap, Hj. cbn. congruence.
  - intros Hnin.
    unfold Datasets.__getitem__, Datasets.index, Datasets.names.
    cbn [Datasets._datasets].
    destruct (PyList.index String.eqb n (map Dataset.name l)) as [i|] eqn:Hi; [|done].
    exfalso. destruct (index_key_Some String.eqb id _ _ _ string_eqb_key Hi) as (m & Hm & Hkey & _).
    cbn in Hkey. subst m. apply Hnin. by eapply list_elem_of_lookup_2.
Qed.

Lemma Datasets_getitem_by_name_witness :
  Datasets.__getitem__ Examples.three (Datasets.KStr "obs-2")
  = Ok (Datasets.One (Examples.one_bin 2 "obs-2" 2.5))
  /\ Datasets.__getitem__ Examples.three (Datasets.KStr "obs-7")
     = raise ValueError None.
Proof.
  split.
  - destruct (proj1 (Datasets_getitem_by_name Examples.three "obs-2"))
      as (i & d & _ & Hget & _ & _ & _ & Huniq).
    + apply (bool_decide_unpack _). vm_compute. exact I.
    + rewrite Hget. do 2 f_equal. symmetry. apply Huniq.
      * apply (bool_decide_unpack _). vm_compute. exact I.
      * right. left.
      * reflexivity.
  - apply (proj2 (Datasets_getitem_by_name Examples.three "obs-7")).
    apply (bool_decide_unpack _). vm_compute. exact I.
Defined.

(** X4.  A dataset inserted under a new name is what a lookup of that name
    returns afterwards. *)
Theorem Datasets_insert_then_lookup (D : Datasets.t) (d : Dataset.t) (idx : Z) :
  NoDup (Datasets.names D) ->
  Dataset.name d ∉ Datasets.names D ->
  Datasets.__getitem__
    (snd (Datasets.insert idx (Datasets.PyDataset d) D))
    (Datasets.KStr (Dataset.name d))
  = Ok (Datasets.One d).
Proof.
  intros Hnd Hfresh. destruct D as [l]. unfold Datasets.names in *. cbn in *.
  unfold Datasets.insert. cbn [Datasets.as_dataset].
  case_decide as Hin; [done|]. cbn [snd].
  apply getitem_by_name_unique.
  - rewrite insert_names. by apply insert_NoDup.
  - unfold PyList.insert. apply elem_of_app. right. by left.
Qed.

Lemma Datasets_insert_then_lookup_witness :
  Datasets.__getitem__
    (snd (Datasets.insert (-1) (Datasets.PyDataset (Examples.one_bin 9 "obs-9" 0))
            Examples.three))
    (Datasets.KStr "obs-9")
  = Ok (Datasets.One (Examples.one_bin 9 "obs-9" 0)).
Proof.
  apply (Datasets_insert_then_lookup Examples.three (Examples.one_bin 9 "obs-9" 0) (-1)).
  - apply (bool_decide_unpack _). vm_compute. exact I.
  - apply (bool_decide_unpack _). vm_compute. exact I.
Defined.

End datasets_lookup.

Section datasets_mutation.
Local Open Scope Z_scope.

Lemma norm_index_cases {A} (l : list A) (i : Z) :
  PyList.norm_index l i
  = if decide (0 <= i < Z.of_nat (length l)) then Some (Z.to_nat i)
    else if decide (- Z.of_nat (length l) <= i < 0)
         then Some (Z.to_nat (i + Z.of_nat (length l)))
         else None.
Proof.
  unfold PyList.norm_index. set (n := Z.of_nat (length l)).
  destruct (Z.ltb_spec i 0), (Z.leb_spec 0 (i + n)), (Z.leb_spec 0 i),
    (Z.ltb_spec (i + n) n), (Z.ltb_spec i n);
    repeat case_decide; try lia; done.
Qed.

(** X5.  [D[i]] for an integer: positions [0 .. len-1] count from the
    front, positions [-len .. -1] from the back ([D[i]] is [D[i + len]]),
    and every other integer raises IndexError; so every integer does on the
    empty collection. *)
Theorem Datasets_getitem_position (D : Datasets.t) (i : Z) :
  (0 <= i < Z.of_nat (Datasets.__len__ D) ->
   exists d, Datasets._datasets D !! Z.to_nat i = Some d
             /\ Datasets.__getitem__ D (Datasets.KInt i) = Ok (Datasets.One d))
  /\ (- Z.of_nat (Datasets.__len__ D) <= i < 0 ->
      Datasets.__getitem__ D (Datasets.KInt i)
      = Datasets.__getitem__ D
          (Datasets.KInt (i + Z.of_nat (Datasets.__len__ D))))
  /\ (i < - Z.of_nat (Datasets.__len__ D) \/ Z.of_nat (Datasets.__len__ D) <= i ->
      Datasets.__getitem__ D (Datasets.KInt i) = raise IndexError None).
Proof.
  destruct D as [l]. unfold Datasets.__len__, Datasets.__getitem__.
  cbn [Datasets._datasets Datasets.index mbind result_bind].
  unfold PyList.getitem. rewrite !norm_index_cases.
  repeat split.
  - intros Hi. case_decide; [|lia].
    destruct (lookup_lt_is_Some_2 l (Z.to_nat i)) as [d Hd]; [lia|].
    exists d. by rewrite Hd.
  - intros Hi. repeat case_decide; try lia. done.
  - intros Hi. repeat case_decide; try lia. done.
Qed.

Lemma Datasets_getitem_position_witness :
  Datasets.__getitem__ Examples.three (Datasets.KInt (-1))
  = Datasets.__getitem__ Examples.three (Datasets.KInt 2)
  /\ Datasets.__getitem__ Examples.three (Datasets.KInt 3) = raise IndexError None.
Proof.
  split.
  - apply (proj1 (proj2 (Datasets_getitem_position Examples.three (-1)))).
    cbn. lia.
  - apply (proj2 (proj2 (Datasets_getitem_position Examples.three 3))).
    right. cbn. lia.
Defined.

Lemma NoDup_insert_fresh {A} (l : list A) (j : nat) (x : A) :
  NoDup l -> x ∉ l -> NoDup (<[j := x]> l).
Proof.
  intros Hnd Hx.
  destruct (l !! j) as [y|] eqn:Hy.
  2:{ apply lookup_ge_None in Hy. by rewrite list_insert_ge. }
  rewrite insert_take_drop by by eapply lookup_lt_Some.
  rewrite <- (take_drop_middle l j y Hy) in Hnd, Hx.
  apply NoDup_app in Hnd as (Hl & Hdisj & Hr).
  apply NoDup_cons in Hr as [Hy' Hr].
  apply not_elem_of_app in Hx as [Hxl Hxr].
  apply not_elem_of_cons in Hxr as [_ Hxr].
  apply NoDup_app. split; [done|]. split.
  - intros z Hz [->|Hz']%elem_of_cons; [done|].
    apply (Hdisj z Hz). by right.
  - by apply NoDup_cons.
Qed.

(** X6.  [D[i] = d] for a position within the collection and a dataset
    whose name is new: the assignment succeeds, the length is unchanged,
    the names are still distinct, [D[i]] is [d] afterwards and the datasets
    at the other positions are the ones that were there. *)
Theorem Datasets_setitem_fresh (D : Datasets.t) (d : Dataset.t) (i : Z) (j : nat) :
  NoDup (Datasets.names D) ->
  Dataset.name d ∉ Datasets.names D ->
  PyList.norm_index (Datasets._datasets D) i = Some j ->
  exists D',
    Datasets.__setitem__ (Datasets.KInt i) (Datasets.PyDataset d) D = (Ok tt, D')
    /\ Datasets.__len__ D' = Datasets.__len__ D
    /\ NoDup (Datasets.names D')
    /\ Datasets.__getitem__ D' (Datasets.KInt i) = Ok (Datasets.One d)
    /\ (forall k, k <> j ->
          Datasets._datasets D' !! k = Datasets._datasets D !! k).
Proof.
  intros Hnd Hfresh Hnorm. destruct D as [l].
  unfold Datasets.names in *. cbn [Datasets._datasets] in *.
  unfold Datasets.__setitem__. cbn [Datasets.as_dataset].
  case_decide as Hin; [done|].
  cbn [Datasets.index Datasets._datasets]. unfold PyList.setitem. rewrite Hnorm.
  eexists. split; [reflexivity|].
  unfold Datasets.__len__, Datasets.names, Datasets.__getitem__.
  cbn [Datasets._datasets Datasets.index mbind result_bind].
  assert (Hj : (j < length l)%nat).
  { rewrite norm_index_cases in Hnorm. repeat case_decide; simplify_eq; lia. }
  repeat split.
  - by rewrite length_insert.
  - rewrite list_fmap_insert. by apply NoDup_insert_fresh.
  - unfold PyList.getitem, PyList.norm_index in *. rewrite length_insert, Hnorm.
    by rewrite list_lookup_insert_eq.
  - intros k Hk. by apply list_lookup_insert_ne.
Qed.

Lemma Datasets_setitem_fresh_witness :
  exists D',
    Datasets.__setitem__ (Datasets.KInt (-3))
      (Datasets.PyDataset (Examples.one_bin 9 "obs-9" 0)) Examples.three
    = (Ok tt, D')
    /\ Datasets.names D' = ["obs-9"; "obs-2"; "obs-3"]%string.
Proof.
  destruct (Datasets_setitem_fresh Examples.three (Examples.one_bin 9 "obs-9" 0)
              (-3) 0)
    as (D' & Hset & _).
  - apply (bool_decide_unpack _). vm_compute. exact I.
  - apply (bool_decide_unpack _). vm_compute. exact I.
  - reflexivity.
  - exists D'. split; [exact Hset|].
    vm_compute in Hset. injection Hset as <-. reflexivity.
Defined.

Lemma delete_filter_unique {A B} `{EqDecision B} (f : A -> B)
    (l : list A) (i : nat) (x : A) :
  NoDup (map f l) -> l !! i = Some x ->
  delete i l = filter (fun y => f y <> f x) l.
Proof.
  revert i. induction l as [|y l IH]; intros i Hnd Hx; [done|].
  cbn [map] in Hnd. apply NoDup_cons in Hnd as [Hy Hnd].
  rewrite filter_cons. destruct i as [|i]; cbn in Hx.
  - injection Hx as ->. case_decide; [done|]. cbn.
    clear IH Hnd. induction l as [|z l IH]; [done|].
    cbn [map] in Hy. apply not_elem_of_cons in Hy as [Hz Hy].
    rewrite filter_cons. case_decide; [|congruence]. f_equal. by apply IH.
  - case_decide as Hne.
    + cbn. f_equal. by apply IH.
    + exfalso. apply Hy.
      assert (f y = f x) as -> by (by destruct (decide (f y = f x))).
      apply list_elem_of_fmap_2. by eapply list_elem_of_lookup_2.
Qed.

(** X7.  [del D[name]] in a collection of distinct names: the dataset of
    that name is removed and no other; the length drops by one, the other
    datasets keep their order, and the name is free again. *)
Theorem Datasets_delitem_by_name (D : Datasets.t) (n : string) :
  NoDup (Datasets.names D) ->
  n ∈ Datasets.names D ->
  exists D',
    Datasets.__delitem__ (Datasets.KStr n) D = (Ok tt, D')
    /\ S (Datasets.__len__ D') = Datasets.__len__ D
    /\ Datasets._datasets D'
       = filter (fun d => Dataset.name d <> n) (Datasets._datasets D)
    /\ NoDup (Datasets.names D')
    /\ n ∉ Datasets.names D'.
Proof.
  intros Hnd Hin. destruct D as [l].
  unfold Datasets.names in *. cbn [Datasets._datasets] in *.
  destruct (PyList.index String.eqb n (map Dataset.name l)) as [i|] eqn:Hi.
  2:{ exfalso.
      pose proof (proj1 (index_key_None String.eqb id _ _ string_eqb_key) Hi) as Hall.
      by apply (Hall n). }
  destruct (index_key_Some String.eqb id _ _ _ string_eqb_key Hi) as (m & Hm & Hkey & _).
  cbn in Hkey. subst m.
  rewrite list_lookup_fmap in Hm.
  destruct (l !! i) as [x|] eqn:Hx; [|done]. cbn in Hm. injection Hm as <-.
  assert (Hlt : (i < length l)%nat) by by eapply lookup_lt_Some.
  unfold Datasets.__delitem__, Datasets.index, Datasets.names.
  cbn [Datasets._datasets]. rewrite Hi.
  unfold PyList.delitem. rewrite norm_index_nat.
  case_decide; [|lia]. eexists. split; [reflexivity|].
  unfold Datasets.__len__. cbn [Datasets._datasets].
  pose proof (delete_filter_unique Dataset.name l i x Hnd Hx) as Hfilter.
  repeat split.
  - rewrite length_delete by by eexists. lia.
  - exact Hfilter.
  - rewrite Hfilter. eapply sublist_NoDup; [exact Hnd|].
    apply fmap_sublist, sublist_filter.
  - rewrite Hfilter. intros Hn.
    apply list_elem_of_fmap in Hn as (y & -> & Hy).
    by apply list_elem_of_filter in Hy as [Hne _].
Qed.

Lemma Datasets_delitem_by_name_witness :
  exists D',
    Datasets.__delitem__ (Datasets.KStr "obs-2") Examples.three = (Ok tt, D')
    /\ Datasets.names D' = ["obs-1"; "obs-3"]%string.
Proof.
  destruct (Datasets_delitem_by_name Examples.three "obs-2")
    as (D' & Hdel & _ & Hlist & _).
  - apply (bool_decide_unpack _). vm_compute. exact I.
  - apply (bool_decide_unpack _). vm_compute. exact I.
  - exists D'. split; [exact Hdel|].
    vm_compute in Hdel. injection Hdel as <-. reflexivity.
Defined.

End datasets_mutation.

Section datasets_statistics.
Local Open Scope nat_scope.
Lemma stat_sum_unfold `{Np.Sum} (D : Datasets.t) :
  Datasets.stat_sum D
  = foldR (fun stat_sum dataset =>
             s ← Dataset.stat_sum dataset; Ok (py_add stat_sum (PyFloat s)))
          (PyInt 0) (Datasets._datasets D).
Proof. unfold Datasets.stat_sum. by rewrite iter_datasets. Qed.

Lemma insert_at_end {A} (l : list A) (idx : Z) (x : A) :
  (Z.of_nat (length l) <= idx)%Z -> PyList.insert l idx x = l ++ [x].
Proof.
  intros Hidx. unfold PyList.insert.
  destruct (Z.ltb_spec idx 0) as [?|_]; [lia|].
  rewrite Z.min_r, Nat2Z.id by lia.
  by rewrite take_ge, drop_ge by lia.
Qed.

(** X8.  Appending a dataset adds its statistic to the joint statistic:
    when [D.stat_sum()] is [s] and [d.stat_sum()] is [v], then after
    [D.insert(idx, d)] with [idx >= len(D)] and a new name the joint
    statistic is [s + v]. *)
Theorem Datasets_stat_sum_append `{Np.Sum} (D : Datasets.t) (d : Dataset.t) (idx : Z)
    (s : pynum) (v : float) :
  Datasets.stat_sum D = Ok s ->
  Dataset.stat_sum d = Ok v ->
  Dataset.name d ∉ Datasets.names D ->
  (Z.of_nat (Datasets.__len__ D) <= idx)%Z ->
  exists D',
    Datasets.insert idx (Datasets.PyDataset d) D = (Ok tt, D')
    /\ Datasets.stat_sum D' = Ok (py_add s (PyFloat v)).
Proof.
  intros Hs Hv Hfresh Hidx. destruct D as [l].
  unfold Datasets.insert. cbn [Datasets.as_dataset].
  case_decide as Hin; [done|]. eexists. split; [reflexivity|].
  rewrite stat_sum_unfold in Hs |- *. cbn [Datasets._datasets] in *.
  rewrite insert_at_end by done.
  rewrite foldR_app, Hs. cbn [mbind result_bind foldR]. by rewrite Hv.
Qed.

Lemma Datasets_stat_sum_append_witness :
  exists D',
    Datasets.insert 3 (Datasets.PyDataset (Examples.one_bin 9 "obs-9" 0.25))
      Examples.three
    = (Ok tt, D')
    /\ Datasets.stat_sum (H := Np.sum_serial) D' = Ok (PyFloat 4.5).
Proof.
  apply (Datasets_stat_sum_append (H := Np.sum_serial) Examples.three
           (Examples.one_bin 9 "obs-9" 0.25) 3 (PyFloat 4.25) 0.25%float).
  - reflexivity.
  - reflexivity.
  - apply (bool_decide_unpack _). vm_compute. exact I.
  - cbn. lia.
Defined.

(** X9.  The joint statistic stops at the first dataset whose own
    statistic raises: that exception escapes, whatever comes after. *)
Theorem Datasets_stat_sum_raises `{Np.Sum} (D : Datasets.t)
    (before after : list Dataset.t) (d : Dataset.t) (e : exn) :
  Datasets._datasets D = before ++ d :: after ->
  Forall (fun x => exists v, Dataset.stat_sum x = Ok v) before ->
  Dataset.stat_sum d = Raise e ->
  Datasets.stat_sum D = Raise e.
Proof.
  intros Hl Hbefore Hd. rewrite stat_sum_unfold, Hl. clear Hl.
  generalize (PyInt 0). induction Hbefore as [|x before [v Hx] _ IH]; intros acc.
  - cbn. by rewrite Hd.
  - cbn [app foldR]. rewrite Hx. cbn [mbind result_bind]. apply IH.
Qed.

Lemma Datasets_stat_sum_raises_witness :
  Datasets.stat_sum (H := Np.sum_serial)
    (Datasets.mk [Examples.one_bin 1 "obs-1" 1;
                  Dataset.mk 5 "obs-5" "SpectrumDataset" None (Some [true])
                             [1; 2]%float None None;
                  Examples.one_bin 3 "obs-3" 0.75])
  = raise IndexError None.
Proof.
  apply (Datasets_stat_sum_raises (H := Np.sum_serial) _
           [Examples.one_bin 1 "obs-1" 1] [Examples.one_bin 3 "obs-3" 0.75]
           (Dataset.mk 5 "obs-5" "SpectrumDataset" None (Some [true])
                       [1; 2]%float None None)).
  - reflexivity.
  - repeat constructor. by eexists.
  - reflexivity.
Defined.

Lemma select_all_true {A} (a : list A) :
  Np.select a (replicate (length a) true) = a.
Proof. induction a as [|x a IH]; [done|]. cbn. by rewrite IH. Qed.

Lemma select_all_false {A} (a : list A) :
  Np.select a (replicate (length a) false) = [].
Proof. induction a as [|x a IH]; [done|]. cbn. by rewrite IH. Qed.

(** X10.  A fit mask that is True everywhere changes nothing: the
    statistic is the sum over the whole array, as without mask.  A fit
    mask that is False everywhere leaves the sum of the empty array. *)
Theorem Dataset_stat_sum_trivial_masks `{Np.Sum} (d : Dataset.t) (b : bool) :
  Dataset.mask_safe d = None ->
  Dataset.mask_fit d = Some (replicate (length (Dataset.stat_array d)) b) ->
  Dataset.stat_sum d
  = Ok (Np.sum (if b then Dataset.stat_array d else [])).
Proof.
  intros Hsafe Hfit. unfold Dataset.stat_sum, Dataset.mask.
  rewrite Hsafe, Hfit. cbn [mbind result_bind]. unfold Np.bool_index.
  rewrite length_replicate, Nat.eqb_refl. cbn [mbind result_bind].
  destruct b; by rewrite ?select_all_true, ?select_all_false.
Qed.

Lemma Dataset_stat_sum_trivial_masks_witness :
  Dataset.stat_sum (H := Np.sum_serial)
    (Dataset.mk 6 "obs-6" "SpectrumDataset" None (Some [true; true])
                [1; 2]%float None None)
  = Ok 3%float.
Proof.
  exact (Dataset_stat_sum_trivial_masks (H := Np.sum_serial)
           (Dataset.mk 6 "obs-6" "SpectrumDataset" None (Some [true; true])
                       [1; 2]%float None None) true eq_refl eq_refl).
Defined.

End datasets_statistics.

Section datasets_homogeneity.
Local Open Scope nat_scope.

Lemma remove_dups_singleton {A} `{EqDecision A} (l : list A) :
  length (remove_dups l) = 1
  <-> l <> [] /\ forall x y, x ∈ l -> y ∈ l -> x = y.
Proof.
  split.
  - intros Hlen.
    destruct (remove_dups l) as [|c [|c' r]] eqn:Hr; try discriminate Hlen.
    assert (Hall : forall x, x ∈ l -> x = c).
    { intros x Hx. apply elem_of_remove_dups in Hx. rewrite Hr in Hx.
      by apply list_elem_of_singleton in Hx. }
    split.
    + intros ->. discriminate Hr.
    + intros x y Hx Hy. by rewrite (Hall x Hx), (Hall y Hy).
  - intros [Hne Hall].
    pose proof (NoDup_remove_dups l) as Hnd.
    destruct (remove_dups l) as [|c [|c' r]] eqn:Hr; [|done|].
    + destruct l as [|x l]; [done|].
      assert (Hx : x ∈ remove_dups (x :: l)) by (apply elem_of_remove_dups; by left).
      rewrite Hr in Hx. by apply elem_of_nil in Hx.
    + exfalso.
      assert (Hc : c ∈ l) by (apply elem_of_remove_dups; rewrite Hr; by left).
      assert (Hc' : c' ∈ l)
        by (apply elem_of_remove_dups; rewrite Hr; right; by left).
      rewrite (Hall c c' Hc Hc') in Hnd.
      apply NoDup_cons in Hnd as [Hnin _]. apply Hnin. by left.
Qed.

(** X11.  [is_all_same_type], [is_all_same_shape] and
    [is_all_same_energy_shape] hold exactly when the collection is not
    empty and the attribute has one value over all its datasets; on the
    empty collection each of them is False. *)
Theorem Datasets_is_all_same_spec {C} `{EqDecision C}
    (attr : Dataset.t -> C) (D : Datasets.t) :
  exists b,
    Datasets.is_all_same attr D = Ok b
    /\ (b = true <->
        Datasets._datasets D <> []
        /\ forall x y, x ∈ Datasets._datasets D -> y ∈ Datasets._datasets D ->
                       attr x = attr y)
    /\ (Datasets._datasets D = [] -> b = false).
Proof.
  unfold Datasets.is_all_same. rewrite iter_datasets.
  eexists. split; [reflexivity|]. split.
  - rewrite Nat.eqb_eq, remove_dups_singleton. split.
    + intros [Hne Hall]. split.
      * intros Hnil. apply Hne. by rewrite Hnil.
      * intros x y Hx Hy. apply Hall; by apply list_elem_of_fmap_2.
    + intros [Hne Hall]. split.
      * intros Hnil. apply Hne. by apply fmap_nil_inv in Hnil.
      * intros a b (x & -> & Hx)%list_elem_of_fmap (y & -> & Hy)%list_elem_of_fmap.
        by apply Hall.
  - by intros ->.
Qed.

End datasets_homogeneity.

Section datasets_select_time.
Local Open Scope nat_scope.
Context {time quantity : Type}.
Variable time_ge time_le : time -> time -> bool.
Variable time_minus time_plus : time -> quantity -> time.
Variable gti_span : Dataset.t -> option (time * time).
Variable t_min t_max : time.
Variable atol : quantity.

Local Abbreviation within :=
  (Datasets.within_interval time_ge time_le time_minus time_plus gti_span
     t_min t_max atol).

Lemma in_interval_span (d : Dataset.t) :
  Datasets.in_interval time_ge time_le time_minus time_plus gti_span
    t_min t_max atol d
  = match gti_span d with
    | Some _ => Ok (within d)
    | None => raise AttributeError None
    end.
Proof.
  unfold Datasets.in_interval, Datasets.within_interval.
  by destruct (gti_span d) as [[a b]|].
Qed.

Lemma select_loop (l acc : list Dataset.t) :
  Forall (fun d => is_Some (gti_span d)) l ->
  foldR (fun datasets dataset =>
           (fun keep : bool => if keep then datasets ++ [dataset] else datasets)
           <$> Datasets.in_interval time_ge time_le time_minus time_plus
                 gti_span t_min t_max atol dataset)
        acc l
  = Ok (acc ++ filter (fun d => within d = true) l).
Proof.
  intros Hall. revert acc.
  induction Hall as [|d l [[a b] Hd] _ IH]; intros acc.
  - cbn. by rewrite app_nil_r.
  - cbn [foldR]. rewrite (in_interval_span d), Hd, fmap_Ok.
    cbn [mbind result_bind]. rewrite IH, filter_cons.
    destruct (within d); case_decide; try done.
    by rewrite <- app_assoc.
Qed.

(** X12.  [select_time] on a collection of distinct names whose datasets
    all have a GTI returns the collection of exactly the datasets whose
    span lies within [[t_min - atol, t_max + atol]], in their order; the
    names of the selection are distinct, so building the result never
    fails. *)
Theorem Datasets_select_time_spec (D : Datasets.t) :
  NoDup (Datasets.names D) ->
  Forall (fun d => is_Some (gti_span d)) (Datasets._datasets D) ->
  Datasets.select_time time_ge time_le time_minus time_plus gti_span
    t_min t_max atol D
  = Ok (Datasets.mk
          (filter (fun d => within d = true) (Datasets._datasets D)))
  /\ NoDup (map Dataset.name
              (filter (fun d => within d = true) (Datasets._datasets D))).
Proof.
  intros Hnd Hall.
  unfold Datasets.select_time. rewrite iter_datasets. cbn [mbind result_bind].
  rewrite (select_loop _ _ Hall). cbn [mbind result_bind app].
  assert (Hsel : NoDup (map Dataset.name
            (filter (fun d => within d = true) (Datasets._datasets D)))).
  { eapply sublist_NoDup; [exact Hnd|]. apply fmap_sublist, sublist_filter. }
  split; [|exact Hsel].
  unfold Datasets.__init__. rewrite bind_Ok.
  by rewrite (init_loop_unique _ []).
Qed.

End datasets_select_time.

Lemma Datasets_select_time_spec_witness :
  Datasets.names <$>
    Datasets.select_time Z.geb Z.leb Z.sub Z.add Examples.span 19 50 1
      Examples.three
  = Ok ["obs-2"; "obs-3"]%string.
Proof.
  destruct (Datasets_select_time_spec Z.geb Z.leb Z.sub Z.add Examples.span
              19 50 1 Examples.three) as [Hsel _].
  - apply (bool_decide_unpack _). vm_compute. exact I.
  - repeat constructor; by eexists.
  - rewrite Hsel. reflexivity.
Defined.

(** * Further properties of the covariance *)

Section covariance_projection.
Local Open Scope nat_scope.

Lemma get_tabulate_outside (r c : nat) (f : nat -> nat -> float) (i j : nat) :
  ~ (i < r /\ j < c) -> Np.get (Np.tabulate r c f) i j = 0%float.
Proof.
  intros Hout. unfold Np.get, Np.tabulate.
  rewrite list_lookup_fmap.
  destruct (seq 0 r !! i) as [i'|] eqn:Hi; [|done]. cbn.
  rewrite list_lookup_fmap.
  destruct (seq 0 c !! j) as [j'|] eqn:Hj; [|done].
  apply lookup_lt_Some in Hi, Hj. rewrite length_seq in Hi, Hj. lia.
Qed.

Lemma symmetric_tabulate (n : nat) (f : nat -> nat -> float) :
  (forall i j, i < n -> j < n -> f i j = f j i) ->
  Covariance.symmetric (Np.tabulate n n f).
Proof.
  intros Hf i j.
  destruct (decide (i < n /\ j < n)) as [[Hi Hj]|Hout].
  - rewrite !get_tabulate by done. by apply Hf.
  - rewrite !get_tabulate_outside by lia. done.
Qed.

Lemma index_same_object (ps : ParameterPool.t) (p q : Param.t) :
  Param.py_id p = Param.py_id q ->
  ParameterPool.index ps p = ParameterPool.index ps q.
Proof.
  intros Hid. unfold ParameterPool.index.
  assert (Hidx : PyList.index Param.same_object p ps
                 = PyList.index Param.same_object q ps).
  { induction ps as [|x ps IH]; [done|].
    cbn. unfold Param.same_object at 1 3. rewrite Hid.
    destruct (Pos.eqb _ _); [done|]. by rewrite IH. }
  by rewrite Hidx.
Qed.

Lemma mapR_raises {A B} (f : A -> result B) (l : list A) (e : exn) :
  Exists (fun x => f x = Raise e) l ->
  Forall (fun x => f x = Raise e \/ exists y, f x = Ok y) l ->
  mapR f l = Raise e.
Proof.
  induction 1 as [x l Hx|x l _ IH]; intros Hall%Forall_cons; destruct Hall as [Hx' Hall].
  - cbn. by rewrite Hx.
  - cbn. destruct Hx' as [->|[y ->]]; [done|].
    cbn. by rewrite IH.
Qed.

Lemma pool_index_missing (ps : ParameterPool.t) (p : Param.t) :
  Param.py_id p ∉ ParameterPool.ids ps ->
  ParameterPool.index ps p = raise ValueError None.
Proof.
  intros Hnin. unfold ParameterPool.index.
  destruct (PyList.index Param.same_object p ps) as [i|] eqn:Hi; [|done].
  exfalso. apply Hnin. apply pool_index_Some in Hi.
  by eapply list_elem_of_lookup_2.
Qed.

Lemma pool_index_total (ps : ParameterPool.t) (p : Param.t) :
  ParameterPool.index ps p = raise ValueError None
  \/ exists i, ParameterPool.index ps p = Ok i.
Proof.
  unfold ParameterPool.index.
  destruct (PyList.index Param.same_object p ps) as [i|]; [right; by eexists|by left].
Qed.

Lemma pool_indices_missing (ps qs : ParameterPool.t) (q : Param.t) :
  q ∈ qs -> Param.py_id q ∉ ParameterPool.ids ps ->
  mapR (ParameterPool.index ps) qs = raise ValueError None.
Proof.
  intros Hq Hnin. apply mapR_raises.
  - apply Exists_exists. exists q. split; [done|]. by apply pool_index_missing.
  - apply Forall_forall. intros x _. apply pool_index_total.
Qed.

Lemma mapR_lookup {A B} (f : A -> result B) (l : list A) (ys : list B) :
  mapR f l = Ok ys ->
  length ys = length l
  /\ forall a x, l !! a = Some x -> exists y, ys !! a = Some y /\ f x = Ok y.
Proof.
  revert ys. induction l as [|x l IH]; intros ys Hmap.
  - cbn in Hmap. injection Hmap as <-. by split.
  - cbn [mapR] in Hmap. destruct (f x) as [y|e] eqn:Hx; [|done].
    cbn [mbind result_bind] in Hmap.
    destruct (mapR f l) as [ys'|e] eqn:Hl; [|done].
    cbn in Hmap. injection Hmap as <-.
    destruct (IH ys' eq_refl) as [Hlen Hlook]. split; [cbn; by rewrite Hlen|].
    intros [|a] x' Ha; cbn in Ha.
    + injection Ha as <-. by exists y.
    + by apply Hlook.
Qed.

(** The sub-covariance read at the indices [idx] of the parameters. *)
Lemma get_subcovariance_tabulate `{Square} (C : Covariance.t) (pars : ParameterPool.t)
    (idx : list nat) :
  let n := length (Covariance.parameters C) in
  Np.is_shape n n (Covariance.data C) = true ->
  mapR (ParameterPool.index (Covariance.parameters C)) pars = Ok idx ->
  Forall (fun i => i < n) idx ->
  Covariance.get_subcovariance C pars
  = Ok (Covariance.mk pars
          (Np.tabulate (length idx) (length idx)
             (fun a b => Np.get (Covariance.data C)
                           (default 0 (idx !! a)) (default 0 (idx !! b))))).
Proof.
  intros n HC Hmap Hrange. unfold Covariance.get_subcovariance.
  rewrite Hmap. cbn [mbind result_bind].
  change (Covariance._data C) with (Covariance.data C).
  by rewrite (ix_get_tabulate n _ _ HC Hrange).
Qed.

(** X13.  For a covariance whose data is N x N for its N parameters and
    a list of k parameters of its pool, [get_subcovariance] returns a
    covariance over exactly that list whose data is k x k: the entry at
    [(a, b)] is the entry of the covariance at the pool indices of the
    a-th and the b-th parameter of the list.  The list may repeat a
    parameter and may be in any order.  A symmetric covariance has
    symmetric sub-covariances. *)
Theorem get_subcovariance_spec `{Square} (C : Covariance.t) (pars : ParameterPool.t) :
  let n := length (Covariance.parameters C) in
  let k := length pars in
  Np.is_shape n n (Covariance.data C) = true ->
  (forall p, p ∈ pars ->
             Param.py_id p ∈ ParameterPool.ids (Covariance.parameters C)) ->
  exists idx S,
    mapR (ParameterPool.index (Covariance.parameters C)) pars = Ok idx
    /\ Covariance.get_subcovariance C pars = Ok S
    /\ Covariance.parameters S = pars
    /\ Np.is_shape k k (Covariance.data S) = true
    /\ (forall a b i j, idx !! a = Some i -> idx !! b = Some j ->
          Np.get (Covariance.data S) a b = Np.get (Covariance.data C) i j)
    /\ (Covariance.symmetric (Covariance.data C) ->
        Covariance.symmetric (Covariance.data S)).
Proof.
  intros n k HC Hin.
  destruct (pool_indices _ _ Hin) as (idx & Hmap & Hids).
  destruct (pool_indices_facts _ _ _ Hids) as (Hlen & Hrange & _).
  fold n in Hrange. fold k in Hlen.
  eexists idx, _. split; [done|].
  split; [by apply get_subcovariance_tabulate|].
  cbn [Covariance.parameters Covariance.data Covariance._data].
  rewrite Hlen. repeat split.
  - apply is_shape_tabulate_float.
  - intros a b i j Ha Hb.
    rewrite get_tabulate.
    + by rewrite Ha, Hb.
    + rewrite <- Hlen. by eapply lookup_lt_Some.
    + rewrite <- Hlen. by eapply lookup_lt_Some.
  - intros Hsym. apply symmetric_tabulate. intros a b _ _. apply Hsym.
Qed.

Lemma get_subcovariance_spec_witness :
  Covariance.get_subcovariance (H := square_product) Examples.abc [Examples.c; Examples.a]
  = Ok (Covariance.mk [Examples.c; Examples.a] [[3; 0.25]; [0.25; 1]]%float).
Proof.
  destruct (get_subcovariance_spec (H := square_product) Examples.abc [Examples.c; Examples.a])
    as (idx & S & _ & Hget & _).
  - reflexivity.
  - intros p Hp. apply (bool_decide_unpack _).
    apply elem_of_cons in Hp as [->|Hp]; [by vm_compute|].
    apply list_elem_of_singleton in Hp as ->. by vm_compute.
  - rewrite Hget. vm_compute in Hget. by injection Hget as <-.
Defined.

(** X14.  A parameter that is not an object of the pool of [C] makes both
    [C.get_subcovariance] and [C.set_subcovariance] raise the ValueError
    of the index lookup. *)
Theorem subcovariance_unknown_parameter `{Square} (C S : Covariance.t) (q : Param.t) :
  q ∈ Covariance.parameters S ->
  Param.py_id q ∉ ParameterPool.ids (Covariance.parameters C) ->
  Covariance.get_subcovariance C (Covariance.parameters S)
  = raise ValueError None
  /\ Covariance.set_subcovariance C S = raise ValueError None.
Proof.
  intros Hq Hnin.
  unfold Covariance.get_subcovariance, Covariance.set_subcovariance.
  by rewrite (pool_indices_missing _ _ _ Hq Hnin).
Qed.

Lemma subcovariance_unknown_parameter_witness :
  Covariance.get_subcovariance (H := square_product) Examples.ab (Covariance.parameters Examples.bc)
  = raise ValueError None
  /\ Covariance.set_subcovariance Examples.ab Examples.bc
     = raise ValueError None.
Proof.
  apply (subcovariance_unknown_parameter (H := square_product) Examples.ab Examples.bc Examples.c).
  - apply list_elem_of_further, list_elem_of_here.
  - apply (bool_decide_unpack _). by vm_compute.
Defined.

(** X15.  Asked for its own pool, a well-formed covariance returns
    itself: the projection onto all parameters, in pool order, changes
    nothing. *)
Theorem get_subcovariance_own_pool `{Square} (C : Covariance.t) :
  Covariance.well_formed C ->
  Covariance.get_subcovariance C (Covariance.parameters C) = Ok C.
Proof.
  intros [HC Hnd]. cbn zeta in HC.
  destruct (pool_indices (Covariance.parameters C) (Covariance.parameters C))
    as (idx & Hmap & Hids); [intros p Hp; by apply list_elem_of_fmap_2|].
  destruct (pool_indices_facts _ _ _ Hids) as (Hlen & Hrange & _).
  assert (Hseq : idx = seq 0 (length (Covariance.parameters C))).
  { apply (pool_indices_seq [] (Covariance.parameters C) []).
    - cbn. by rewrite app_nil_r.
    - cbn. by rewrite app_nil_r. }
  rewrite (get_subcovariance_tabulate C _ idx HC Hmap Hrange).
  destruct C as [ps m]. cbn [Covariance.parameters Covariance.data
                              Covariance._data] in *.
  f_equal. f_equal. rewrite Hlen.
  transitivity (Np.tabulate (length ps) (length ps) (Np.get m));
    [|symmetry; by apply tabulate_get].
  apply tabulate_ext. intros a b Ha Hb.
  by rewrite Hseq, !lookup_seq_lt by done.
Qed.

Lemma get_subcovariance_own_pool_witness :
  Covariance.get_subcovariance (H := square_product) Examples.abc (Covariance.parameters Examples.abc)
  = Ok Examples.abc.
Proof.
  apply (get_subcovariance_own_pool (H := square_product) Examples.abc). split.
  - reflexivity.
  - apply (bool_decide_unpack _). by vm_compute.
Defined.

(** X16.  Projections compose: taking from [C] the sub-covariance over
    [ps] and from that the sub-covariance over [qs] is the same as taking
    the sub-covariance over [qs] from [C] at once, whenever the parameters
    of [qs] are among those of [ps] and these among those of [C]. *)
Theorem get_subcovariance_compose `{Square} (C : Covariance.t) (ps qs : ParameterPool.t) :
  let n := length (Covariance.parameters C) in
  Np.is_shape n n (Covariance.data C) = true ->
  (forall p, p ∈ ps ->
             Param.py_id p ∈ ParameterPool.ids (Covariance.parameters C)) ->
  (forall q, q ∈ qs -> Param.py_id q ∈ ParameterPool.ids ps) ->
  (S ← Covariance.get_subcovariance C ps; Covariance.get_subcovariance S qs)
  = Covariance.get_subcovariance C qs.
Proof.
  intros n HC Hps Hqs.
  assert (Hqc : forall q, q ∈ qs ->
            Param.py_id q ∈ ParameterPool.ids (Covariance.parameters C)).
  { intros q Hq. apply Hqs in Hq.
    apply list_elem_of_fmap in Hq as (p & -> & Hp). by apply Hps. }
  destruct (pool_indices _ _ Hps) as (ip & Hmp & Hip).
  destruct (pool_indices_facts _ _ _ Hip) as (Hlp & Hrp & _).
  destruct (pool_indices _ _ Hqc) as (ic & Hmc & Hic).
  destruct (pool_indices_facts _ _ _ Hic) as (Hlc & Hrc & _).
  destruct (pool_indices _ _ Hqs) as (iq & Hmq & Hiq).
  destruct (pool_indices_facts _ _ _ Hiq) as (Hlq & Hrq & _).
  rewrite (get_subcovariance_tabulate C ps ip HC Hmp Hrp).
  rewrite (get_subcovariance_tabulate C qs ic HC Hmc Hrc).
  cbn [mbind result_bind].
  rewrite (get_subcovariance_tabulate _ qs iq).
  2:{ cbn. rewrite <- Hlp. apply is_shape_tabulate_float. }
  2:{ done. }
  2:{ done. }
  cbn [Covariance.data Covariance._data]. f_equal. f_equal.
  rewrite Hlq, Hlc. apply tabulate_ext. intros a b Ha Hb.
  destruct (mapR_lookup _ _ _ Hmp) as [_ Hlookp].
  destruct (mapR_lookup _ _ _ Hmc) as [_ Hlookc].
  destruct (mapR_lookup _ _ _ Hmq) as [_ Hlookq].
  assert (Hstep : forall a, a < length qs ->
            exists s, iq !! a = Some s /\ s < length ip
                      /\ default 0 (ip !! s) = default 0 (ic !! a)).
  { intros a' Ha'.
    destruct (lookup_lt_is_Some_2 qs a' Ha') as [q Hq].
    destruct (Hlookq _ _ Hq) as (s & Hs & Hqs').
    destruct (Hlookc _ _ Hq) as (c & Hc & Hqc').
    unfold ParameterPool.index in Hqs'.
    destruct (PyList.index Param.same_object q ps) as [s'|] eqn:Hidx; [|done].
    injection Hqs' as ->.
    pose proof (pool_index_Some _ _ _ Hidx) as Hid.
    unfold ParameterPool.ids in Hid. rewrite list_lookup_fmap in Hid.
    destruct (ps !! s) as [p|] eqn:Hp; [|done]. cbn in Hid.
    injection Hid as Hid.
    destruct (Hlookp _ _ Hp) as (c' & Hc' & Hpc).
    rewrite (index_same_object _ _ _ Hid), Hqc' in Hpc. injection Hpc as <-.
    exists s. split; [done|]. split.
    - rewrite Hlp. by eapply lookup_lt_Some.
    - by rewrite Hc, Hc'. }
  destruct (Hstep a Ha) as (sa & -> & Hsa & Hea).
  destruct (Hstep b Hb) as (sb & -> & Hsb & Heb).
  cbn [from_option id default]. rewrite get_tabulate by done.
  by rewrite Hea, Heb.
Qed.

Lemma get_subcovariance_compose_witness :
  (S ← Covariance.get_subcovariance (H := square_product) Examples.abc [Examples.c; Examples.a];
   Covariance.get_subcovariance (H := square_product) S [Examples.a])
  = Covariance.get_subcovariance (H := square_product) Examples.abc [Examples.a].
Proof.
  apply (get_subcovariance_compose (H := square_product) Examples.abc
           [Examples.c; Examples.a] [Examples.a]).
  - reflexivity.
  - intros p Hp. apply (bool_decide_unpack _).
    apply elem_of_cons in Hp as [->|Hp]; [by vm_compute|].
    apply list_elem_of_singleton in Hp as ->. by vm_compute.
  - intros q Hq. apply (bool_decide_unpack _).
    apply list_elem_of_singleton in Hq as ->. by vm_compute.
Defined.

End covariance_projection.

Section covariance_symmetry.
Local Open Scope nat_scope.

Lemma entries_after_symmetric (close : bool) (idx : list nat)
    (old block : Np.matrix) (i j : nat) :
  Covariance.symmetric old -> Covariance.symmetric block ->
  Covariance.entries_after close idx old block i j
  = Covariance.entries_after close idx old block j i.
Proof.
  intros Hold Hblock. unfold Covariance.entries_after.
  destruct (Np.last_index_of i idx) as [a|], (Np.last_index_of j idx) as [b|];
    try apply Hblock;
    destruct close; try apply Hold;
    repeat case_decide; try done; try apply Hold; tauto.
Qed.

Lemma symmetric_diag (v : list float) : Covariance.symmetric (Np.diag v).
Proof.
  apply symmetric_tabulate. intros i j _ _.
  destruct (Nat.eqb_spec i j) as [->|Hne]; [by rewrite Nat.eqb_refl|].
  destruct (Nat.eqb_spec j i) as [->|_]; done.
Qed.

(** One step of the stacking loop on symmetric operands. *)
Lemma set_subcovariance_symmetric_step (C S : Covariance.t) :
  let n := length (Covariance.parameters C) in
  let k := length (Covariance.parameters S) in
  Np.is_shape n n (Covariance.data C) = true ->
  Np.is_shape k k (Covariance.data S) = true ->
  (forall p, p ∈ Covariance.parameters S ->
             Param.py_id p ∈ ParameterPool.ids (Covariance.parameters C)) ->
  Covariance.symmetric (Covariance.data C) ->
  Covariance.symmetric (Covariance.data S) ->
  exists C',
    Covariance.set_subcovariance C S = Ok C'
    /\ Covariance.parameters C' = Covariance.parameters C
    /\ Np.is_shape n n (Covariance.data C') = true
    /\ Covariance.symmetric (Covariance.data C').
Proof.
  intros n k HC HS Hin HsC HsS.
  destruct (pool_indices _ _ Hin) as (idx & Hmap & Hids).
  destruct (pool_indices_facts _ _ _ Hids) as (Hlen & Hrange & _).
  fold n in Hrange. fold k in Hlen. rewrite <- Hlen in HS.
  destruct (set_subcovariance_entries C S idx HC HS Hmap Hrange)
    as (prior & close & _ & _ & Hset).
  fold n in Hset. eexists. split; [exact Hset|].
  cbn [Covariance.parameters Covariance.data Covariance._data].
  split; [done|]. split; [apply is_shape_tabulate_float|].
  apply symmetric_tabulate. intros i j _ _.
  by apply entries_after_symmetric.
Qed.

(** X17.  [set_subcovariance] keeps a covariance symmetric: when the data
    of [C] (N x N) and the data of [S] (k x k, over parameters of [C]) are
    both symmetric, the call succeeds and leaves [C] with its pool, an
    N x N matrix, and symmetric data, whether or not rows and columns were
    set to zero on the way. *)
Theorem set_subcovariance_symmetric (C S : Covariance.t) :
  let n := length (Covariance.parameters C) in
  let k := length (Covariance.parameters S) in
  Np.is_shape n n (Covariance.data C) = true ->
  Np.is_shape k k (Covariance.data S) = true ->
  (forall p, p ∈ Covariance.parameters S ->
             Param.py_id p ∈ ParameterPool.ids (Covariance.parameters C)) ->
  Covariance.symmetric (Covariance.data C) ->
  Covariance.symmetric (Covariance.data S) ->
  exists C',
    Covariance.set_subcovariance C S = Ok C'
    /\ Covariance.parameters C' = Covariance.parameters C
    /\ Np.is_shape n n (Covariance.data C') = true
    /\ Covariance.symmetric (Covariance.data C').
Proof. exact (set_subcovariance_symmetric_step C S). Qed.

Lemma symmetric_within (n : nat) (m : Np.matrix) :
  Np.is_shape n n m = true ->
  (forall i j, i < n -> j < n -> Np.get m i j = Np.get m j i) ->
  Covariance.symmetric m.
Proof.
  intros Hm Hall. rewrite (tabulate_get _ _ _ Hm).
  by apply symmetric_tabulate.
Qed.

End covariance_symmetry.

Ltac split_index i := repeat (destruct i as [|i]; [|try (exfalso; lia)]).

Ltac symmetric_by_cases n :=
  apply (symmetric_within n); [reflexivity|];
  let i := fresh "i" in let j := fresh "j" in
  intros i j ? ?; split_index i; split_index j; reflexivity.

Lemma set_subcovariance_symmetric_witness :
  exists C',
    Covariance.set_subcovariance Examples.abc Examples.ca = Ok C'
    /\ Covariance.symmetric (Covariance.data C').
Proof.
  destruct (set_subcovariance_symmetric Examples.abc Examples.ca)
    as (C' & Hset & _ & _ & Hsym).
  - reflexivity.
  - reflexivity.
  - intros p Hp. apply (bool_decide_unpack _).
    apply elem_of_cons in Hp as [->|Hp]; [by vm_compute|].
    apply list_elem_of_singleton in Hp as ->. by vm_compute.
  - symmetric_by_cases 3%nat.
  - symmetric_by_cases 2%nat.
  - by exists C'.
Defined.

Section covariance_stacking.
Local Open Scope nat_scope.

Lemma from_stack_loop_symmetric (pool : ParameterPool.t) (l : list Covariance.t) :
  forall C0,
    Covariance.parameters C0 = pool ->
    Np.is_shape (length pool) (length pool) (Covariance.data C0) = true ->
    Covariance.symmetric (Covariance.data C0) ->
    Forall Covariance.well_formed l ->
    Forall (fun S => Covariance.symmetric (Covariance.data S)) l ->
    (forall S p, S ∈ l -> p ∈ Covariance.parameters S ->
                 Param.py_id p ∈ ParameterPool.ids pool) ->
    exists C,
      foldR Covariance.set_subcovariance C0 l = Ok C
      /\ Covariance.parameters C = pool
      /\ Np.is_shape (length pool) (length pool) (Covariance.data C) = true
      /\ Covariance.symmetric (Covariance.data C).
Proof.
  induction l as [|S l IH]; intros C0 Hpool Hshape Hsym Hwf Hsyms Hin;
    [by exists C0|].
  apply Forall_cons in Hwf as [[HS _] Hwf].
  apply Forall_cons in Hsyms as [HsS Hsyms].
  destruct (set_subcovariance_symmetric_step C0 S)
    as (C1 & Hset & Hp1 & Hs1 & Hsym1); try done.
  - by rewrite Hpool.
  - intros p Hp. rewrite Hpool. apply (Hin S); [by left|done].
  - cbn [foldR]. rewrite Hset. cbn [mbind result_bind].
    apply IH; try done; [congruence| |].
    + by rewrite Hpool in Hs1.
    + intros S' p HS' Hp. apply (Hin S'); [by right|done].
Qed.

(** X18.  Stacking well-formed sub-covariances with symmetric data, when
    the squares of the parameter errors are computed without overflow,
    succeeds and gives a covariance over the stacked pool whose data is
    square and symmetric, however the pools overlap.  When squaring an
    error raises, that exception is the outcome of the stacking. *)
Theorem from_stack_symmetric `{Square} (covar_list : list Covariance.t) :
  let pool := ParameterPool.from_stack (map Covariance.parameters covar_list) in
  let squares := mapR (fun p => float_square (Param.error p)) pool in
  Forall Covariance.well_formed covar_list ->
  Forall (fun S => Covariance.symmetric (Covariance.data S)) covar_list ->
  (forall sq, squares = Ok sq ->
     exists C,
       Covariance.from_stack covar_list = Ok C
       /\ Covariance.parameters C = pool
       /\ Np.is_shape (length (Covariance.parameters C))
            (length (Covariance.parameters C)) (Covariance.data C) = true
       /\ Covariance.symmetric (Covariance.data C))
  /\ (forall e, squares = Raise e ->
        Covariance.from_stack covar_list = Raise e).
Proof.
  intros pool squares Hwf Hsym.
  pose proof (from_stack_unfold covar_list) as Hunfold. cbn zeta in Hunfold.
  fold pool in Hunfold. fold squares in Hunfold. rewrite Hunfold. split.
  - intros sq Hsq. rewrite Hsq. cbn [mbind result_bind].
    destruct (from_stack_loop_symmetric pool covar_list
                (Covariance.mk pool (Np.diag sq)))
      as (C & Hrun & Hpool & Hshape & HsC); try done.
    + cbn. rewrite <- (mapR_length _ _ _ Hsq). apply is_shape_tabulate_float.
    + apply symmetric_diag.
    + intros S p HS Hp. apply (from_stack_ids _ (Covariance.parameters S)); [|done].
      by apply list_elem_of_fmap_2.
    + exists C. rewrite Hpool. by repeat split.
  - intros e He. by rewrite He.
Qed.

Lemma from_stack_symmetric_witness :
  exists C,
    Covariance.from_stack (H := square_product) [Examples.ab; Examples.bc] = Ok C
    /\ Covariance.symmetric (Covariance.data C).
Proof.
  destruct (from_stack_symmetric (H := square_product) [Examples.ab; Examples.bc])
    as [Hok _].
  - repeat constructor; apply (bool_decide_unpack _); by vm_compute.
  - repeat constructor; symmetric_by_cases 2%nat.
  - destruct (Hok [0; 0; 1]%float eq_refl) as (C & Hrun & _ & _ & Hsym).
    by exists C.
Defined.

(** X19.  Stacking a single well-formed covariance gives that covariance
    back, its pool in its order and its data, whenever the squares of the
    errors of its parameters are computed without overflow: whatever
    those squares are, and whether or not the data is close to the
    diagonal matrix of them the stack starts from.  When squaring an
    error raises, that exception is the outcome instead. *)
Theorem from_stack_singleton `{Square} (S : Covariance.t) :
  let squares :=
    mapR (fun p => float_square (Param.error p)) (Covariance.parameters S) in
  Covariance.well_formed S ->
  (forall sq, squares = Ok sq -> Covariance.from_stack [S] = Ok S)
  /\ (forall e, squares = Raise e -> Covariance.from_stack [S] = Raise e).
Proof.
  intros squares [HS Hnd]. cbn zeta in HS.
  pose proof (from_stack_unfold [S]) as Hunfold. cbn zeta in Hunfold.
  assert (Hpool : ParameterPool.from_stack (map Covariance.parameters [S])
                  = Covariance.parameters S).
  { unfold ParameterPool.from_stack. cbn [map concat]. rewrite app_nil_r.
    apply unique_fresh; [done|]. intros x _. apply not_elem_of_nil. }
  rewrite Hpool in Hunfold. fold squares in Hunfold. rewrite Hunfold.
  split; [|intros e He; by rewrite He].
  intros sq Hsq. rewrite Hsq. cbn [mbind result_bind].
  set (C0 := Covariance.mk (Covariance.parameters S) (Np.diag sq)).
  set (n := length (Covariance.parameters S)) in *.
  assert (H0 : Np.is_shape n n (Covariance.data C0) = true).
  { cbn. unfold n. rewrite <- (mapR_length _ _ _ Hsq).
    apply is_shape_tabulate_float. }
  destruct (pool_indices (Covariance.parameters C0) (Covariance.parameters S))
    as (idx & Hmap & Hids); [intros p Hp; by apply list_elem_of_fmap_2|].
  destruct (pool_indices_facts _ _ _ Hids) as (Hlen & Hrange & _).
  assert (Hseq : idx = seq 0 n).
  { apply (pool_indices_seq [] (Covariance.parameters S) []).
    - cbn. by rewrite app_nil_r.
    - cbn. rewrite app_nil_r. exact Hids. }
  fold n in Hlen. rewrite <- Hlen in HS.
  destruct (set_subcovariance_entries C0 S idx H0 HS Hmap Hrange)
    as (prior & close & _ & _ & Hset).
  cbn [foldR]. rewrite Hset. cbn [mbind result_bind].
  destruct S as [ps m]. cbn [Covariance.parameters Covariance.data
                              Covariance._data] in *.
  f_equal. f_equal. rewrite Hlen in HS.
  transitivity (Np.tabulate n n (Np.get m)); [|symmetry; by apply tabulate_get].
  apply tabulate_ext. intros i j Hi Hj.
  unfold Covariance.entries_after. rewrite Hseq, !last_index_of_seq.
  repeat case_decide; try lia. by rewrite !Nat.sub_0_r.
Qed.

Lemma from_stack_singleton_witness :
  Covariance.from_stack (H := square_product) [Examples.abc] = Ok Examples.abc
  /\ Covariance.from_stack (H := square_product) [Examples.huge]
     = raise OverflowError (Some "(34, 'Numerical result out of range')").
Proof.
  split.
  - refine (proj1 (from_stack_singleton (H := square_product) Examples.abc _)
              [0; 0; 1]%float eq_refl).
    split; [reflexivity|]. apply (bool_decide_unpack _). by vm_compute.
  - refine (proj2 (from_stack_singleton (H := square_product) Examples.huge _)
              _ eq_refl).
    split; [reflexivity|]. apply (bool_decide_unpack _). by vm_compute.
Defined.

End covariance_stacking.

Section correlation_symmetry.
Local Open Scope nat_scope.

(** The float64 product does not depend on the order of its factors. *)
Lemma float_mul_comm (x y : float) : (x * y = y * x)%float.
Proof.
  apply Prim2SF_inj. rewrite !mul_spec.
  destruct (Prim2SF x) as [sx|sx| |sx mx ex], (Prim2SF y) as [sy|sy| |sy my ey];
    cbn; try reflexivity; try (by rewrite xorb_comm).
  by rewrite xorb_comm, Pos.mul_comm, Z.add_comm.
Qed.

Lemma quotient_symmetric (m : Np.matrix) (i j : nat) :
  Covariance.symmetric m ->
  Covariance.quotient m i j = Covariance.quotient m j i.
Proof.
  intros Hm. unfold Covariance.quotient.
  by rewrite (Hm i j), float_mul_comm.
Qed.

(** X20.  The correlation matrix of a covariance with square, symmetric
    data is square and symmetric as well, entry for entry as float64
    values: also where variances are zero or negative and the entries are
    the replacements of NaN and of the infinities. *)
Theorem correlation_symmetric (C : Covariance.t) (n : nat) :
  Np.is_shape n n (Covariance.data C) = true ->
  Covariance.symmetric (Covariance.data C) ->
  exists R,
    Covariance.correlation C = Ok R
    /\ Np.is_shape n n R = true
    /\ Covariance.symmetric R.
Proof.
  intros HC Hsym. rewrite (correlation_entries C n HC).
  eexists. split; [reflexivity|]. split; [apply is_shape_tabulate_float|].
  apply symmetric_tabulate. intros i j _ _.
  by rewrite (quotient_symmetric _ i j Hsym).
Qed.

End correlation_symmetry.

Lemma correlation_symmetric_witness :
  exists R,
    Covariance.correlation Examples.zero_variance = Ok R
    /\ Covariance.symmetric R.
Proof.
  destruct (correlation_symmetric Examples.zero_variance 2)
    as (R & Hrun & _ & Hsym).
  - reflexivity.
  - symmetric_by_cases 2%nat.
  - by exists R.
Defined.

Section covariance_shapes.
Local Open Scope nat_scope.

Lemma shape_rectangular (r c : nat) (m : Np.matrix) :
  0 < r -> Np.is_shape r c m = true -> Np.shape m = (r, c).
Proof.
  intros Hr Hm. unfold Np.shape.
  by rewrite (is_shape_nrows _ _ _ Hm), (is_shape_ncols _ _ _ Hm).
Qed.

Lemma shape_eqb_spec (s1 s2 : nat * nat) :
  Np.shape_eqb s1 s2 = true <-> s1 = s2.
Proof.
  destruct s1 as [a b], s2 as [c d]. unfold Np.shape_eqb. cbn.
  rewrite andb_true_iff, !Nat.eqb_eq. split; [intros [-> ->]; done|].
  intros [= -> ->]. done.
Qed.

(** X21.  Assigning to [data] an r x c array over N parameters succeeds
    exactly when r = c = N, and then stores the array and leaves the pool
    as it is; any other shape is refused with a ValueError whose text
    names the shape given and the shape expected. *)
Theorem data_setter_spec (C : Covariance.t) (value : Np.matrix) (r c : nat) :
  let n := length (Covariance.parameters C) in
  0 < r -> Np.is_shape r c value = true ->
  (r = n /\ c = n ->
   Covariance.data_setter C value
   = Ok (Covariance.mk (Covariance.parameters C) value))
  /\ (~ (r = n /\ c = n) ->
      Covariance.data_setter C value
      = raise ValueError
          (Some ("Invalid covariance shape: " ++ Covariance.repr_shape (r, c)
                 ++ ", expected " ++ Covariance.repr_shape (n, n))%string)).
Proof.
  intros n Hr Hm. unfold Covariance.data_setter.
  rewrite (shape_rectangular _ _ _ Hr Hm). fold n.
  destruct (Np.shape_eqb (r, c) (n, n)) eqn:Heq; cbn [negb]; split; try done.
  - intros Hne. apply shape_eqb_spec in Heq. injection Heq as -> ->. tauto.
  - intros [-> ->]. apply not_true_iff_false in Heq.
    exfalso. apply Heq. by apply shape_eqb_spec.
Qed.

Lemma data_setter_spec_witness :
  Covariance.data_setter Examples.ab [[1; 2; 3]; [4; 5; 6]]%float
  = raise ValueError
      (Some "Invalid covariance shape: (2, 3), expected (2, 2)"%string).
Proof.
  refine (proj2 (data_setter_spec Examples.ab
                   [[1; 2; 3]; [4; 5; 6]]%float 2 3 _ _) _).
  - lia.
  - reflexivity.
  - cbn. lia.
Defined.

Lemma mask_assign_one_value (m : Np.matrix) (mask : list (list bool)) (v : float) :
  Np.mask_assign m mask [v]
  = Np.mask_assign m mask (replicate (Np.count_true mask) v).
Proof.
  unfold Np.mask_assign. rewrite length_replicate, Nat.eqb_refl.
  cbn [length]. destruct (Nat.eqb_spec 1 (Np.count_true mask)) as [<-|Hne]; done.
Qed.

Lemma concat_replicate_rows {A} (f k : nat) (v : A) :
  concat (replicate k (replicate f v)) = replicate (k * f) v.
Proof.
  induction k as [|k IH]; [done|].
  cbn [replicate concat]. rewrite IH. symmetry. apply replicate_add.
Qed.

Lemma is_shape_replicate (f : nat) (v : float) :
  Np.is_shape f f (replicate f (replicate f v)) = true.
Proof.
  apply is_shape_spec. split; [apply length_replicate|].
  apply Forall_replicate, length_replicate.
Qed.

Lemma get_replicate (f : nat) (v : float) (i j : nat) :
  i < f -> j < f -> Np.get (replicate f (replicate f v)) i j = v.
Proof.
  intros Hi Hj. unfold Np.get.
  rewrite (lookup_replicate_2 f (replicate f v) i Hi). cbn.
  by rewrite (lookup_replicate_2 f v j Hj).
Qed.

Lemma free_mask_count (frozen : list bool) :
  Np.count_true
    (Np.tabulate (length frozen) (length frozen)
       (fun i j => negb (default false (frozen !! j) || default false (frozen !! i))))
  = Covariance.count_free frozen * Covariance.count_free frozen.
Proof.
  rewrite (tabulate_map2 (fun bi bj => negb (bj || bi)) false false frozen frozen).
  apply count_true_free_mask.
Qed.

Lemma expand_factor_matrix_unfold (matrix : Np.matrix)
    (parameters : ParameterPool.t) :
  let frozen := map Param.frozen parameters in
  parameters <> [] ->
  Covariance._expand_factor_matrix matrix parameters
  = Np.mask_assign (Np.zeros (length frozen) (length frozen))
      (Np.tabulate (length frozen) (length frozen)
         (fun i j => negb (default false (frozen !! j)
                           || default false (frozen !! i))))
      (Np.ravel matrix).
Proof.
  intros frozen Hne. unfold Covariance._expand_factor_matrix, frozen.
  rewrite length_map. by destruct parameters.
Qed.

(** X22.  A factor matrix with a single entry [v] is not refused by
    [_expand_factor_matrix], whatever the number of free parameters: the
    boolean-mask assignment broadcasts it, so that every entry at a pair
    of free parameters is [v] and every row and column of a frozen
    parameter is 0.0. *)
Theorem expand_factor_matrix_one_value (parameters : ParameterPool.t) (v : float) :
  parameters <> [] ->
  Covariance._expand_factor_matrix [[v]] parameters
  = Ok (Np.tabulate (length parameters) (length parameters)
          (fun i j =>
             if default false (Param.frozen <$> parameters !! i)
                || default false (Param.frozen <$> parameters !! j)
             then 0%float else v)).
Proof.
  intros Hne. rewrite expand_factor_matrix_unfold by done.
  cbn [Np.ravel concat app].
  rewrite <- (length_map Param.frozen parameters).
  set (frozen := map Param.frozen parameters).
  rewrite mask_assign_one_value, free_mask_count.
  rewrite <- concat_replicate_rows.
  change (concat ?m) with (Np.ravel m).
  rewrite mask_assign_expansion by apply is_shape_replicate.
  f_equal. apply tabulate_ext. intros i j Hi Hj.
  unfold frozen. rewrite !list_lookup_fmap. fold frozen.
  destruct (lookup_lt_is_Some_2 frozen i Hi) as [bi Hbi].
  destruct (lookup_lt_is_Some_2 frozen j Hj) as [bj Hbj].
  unfold frozen in Hbi, Hbj. rewrite list_lookup_fmap in Hbi, Hbj.
  rewrite Hbi, Hbj. cbn [from_option id].
  destruct bi, bj; try done. cbn [orb].
  apply get_replicate; apply rank_lt; unfold frozen;
    by rewrite list_lookup_fmap.
Qed.

Lemma expand_factor_matrix_one_value_witness :
  Covariance._expand_factor_matrix [[7]]%float Examples.scaled_pool
  = Ok (Np.tabulate 3 3
          (fun i j =>
             if default false (Param.frozen <$> Examples.scaled_pool !! i)
                || default false (Param.frozen <$> Examples.scaled_pool !! j)
             then 0%float else 7%float)).
Proof.
  apply (expand_factor_matrix_one_value Examples.scaled_pool 7%float).
  discriminate.
Defined.

(** X23.  [from_factor_matrix] refuses a factor matrix that is neither
    N x N nor made of F * F entries nor of a single entry, for the N
    parameters of the pool of which F are free: the boolean-mask
    assignment of the expansion raises a ValueError, and no covariance is
    built. *)
Theorem from_factor_matrix_wrong_size `{Square} (parameters : ParameterPool.t)
    (matrix : Np.matrix) :
  let n := length parameters in
  let f := Covariance.count_free (map Param.frozen parameters) in
  parameters <> [] ->
  Np.shape matrix <> (n, n) ->
  length (Np.ravel matrix) <> f * f ->
  length (Np.ravel matrix) <> 1 ->
  Covariance.from_factor_matrix parameters matrix = raise ValueError None.
Proof.
  intros n f Hne Hshape Hcount Hone. unfold Covariance.from_factor_matrix.
  fold n. destruct (Np.shape_eqb (Np.shape matrix) (n, n)) eqn:Heq.
  { by apply shape_eqb_spec in Heq. }
  cbn [negb]. rewrite expand_factor_matrix_unfold by done.
  unfold Np.mask_assign. rewrite free_mask_count. fold f.
  destruct (Nat.eqb_spec (length (Np.ravel matrix)) (f * f)) as [|_]; [done|].
  destruct (Np.ravel matrix) as [|v [|v' vs]]; try done.
Qed.

Lemma from_factor_matrix_wrong_size_witness :
  Covariance.from_factor_matrix (H := square_product) Examples.scaled_pool [[1; 2; 3]]%float
  = raise ValueError None.
Proof.
  apply (from_factor_matrix_wrong_size (H := square_product) Examples.scaled_pool [[1; 2; 3]]%float).
  - discriminate.
  - discriminate.
  - vm_compute. lia.
  - vm_compute. lia.
Defined.

End covariance_shapes.

Section covariance_block_shape.
Local Open Scope nat_scope.

Lemma broadcast_dim_total (n1 n2 : nat) :
  Np.broadcast_dim n1 n2 = raise ValueError None
  \/ exists n, Np.broadcast_dim n1 n2 = Ok n.
Proof.
  unfold Np.broadcast_dim.
  destruct (n1 =? n2); [right; by eexists|].
  destruct (n1 =? 1); [right; by eexists|].
  destruct (n2 =? 1); [right; by eexists|by left].
Qed.

Lemma allclose_total (a b : Np.matrix) :
  Np.allclose a b = raise ValueError None
  \/ exists close, Np.allclose a b = Ok close.
Proof.
  unfold Np.allclose, Np.ufunc2_2d.
  destruct (broadcast_dim_total (Np.nrows a) (Np.nrows b)) as [->|[r ->]];
    [by left|].
  destruct (broadcast_dim_total (Np.ncols a) (Np.ncols b)) as [->|[c ->]];
    [by left|].
  right. by eexists.
Qed.

Lemma ix_set_wrong_shape (n r c : nat) (m v : Np.matrix) (idx : list nat) :
  Np.is_shape n n m = true -> Forall (fun i => i < n) idx ->
  0 < r -> Np.is_shape r c v = true ->
  ~ ((r = length idx \/ r = 1) /\ (c = length idx \/ c = 1)) ->
  Np.ix_set m idx v = raise ValueError None.
Proof.
  intros Hm Hidx Hr Hv Hwrong. unfold Np.ix_set.
  assert (Hrange : Np.in_range m idx = true).
  { unfold Np.in_range. apply forallb_forall. intros i Hi.
    destruct (ncols_ge _ _ _ Hm Hidx) as [Hc Hr'].
    rewrite forallb_forall in Hc, Hr'. by rewrite (Hc _ Hi), (Hr' _ Hi). }
  rewrite Hrange. cbn [negb].
  rewrite (is_shape_nrows _ _ _ Hv), (is_shape_ncols _ _ _ Hv) by done.
  destruct (Nat.eqb_spec r (length idx)), (Nat.eqb_spec r 1),
    (Nat.eqb_spec c (length idx)), (Nat.eqb_spec c 1); cbn; try done; tauto.
Qed.

(** X24.  [set_subcovariance] refuses a sub-covariance whose data does
    not fit its pool: for k parameters, all of the pool of [C], and r x c
    data with r other than k and 1, or c other than k and 1, the call
    raises a ValueError, either when the block is compared with the data
    or when the data is written to the block. *)
Theorem set_subcovariance_wrong_shape (C S : Covariance.t) (r c : nat) :
  let n := length (Covariance.parameters C) in
  let k := length (Covariance.parameters S) in
  Np.is_shape n n (Covariance.data C) = true ->
  (forall p, p ∈ Covariance.parameters S ->
             Param.py_id p ∈ ParameterPool.ids (Covariance.parameters C)) ->
  0 < r -> Np.is_shape r c (Covariance.data S) = true ->
  ~ ((r = k \/ r = 1) /\ (c = k \/ c = 1)) ->
  Covariance.set_subcovariance C S = raise ValueError None.
Proof.
  intros n k HC Hin Hr HS Hwrong.
  destruct (pool_indices _ _ Hin) as (idx & Hmap & Hids).
  destruct (pool_indices_facts _ _ _ Hids) as (Hlen & Hrange & _).
  fold n in Hrange. fold k in Hlen. rewrite <- Hlen in Hwrong.
  unfold Covariance.set_subcovariance. rewrite Hmap. cbn [mbind result_bind].
  rewrite (ix_get_tabulate _ _ _ HC Hrange). cbn [mbind result_bind].
  destruct (allclose_total
              (Np.tabulate (length idx) (length idx)
                 (fun a b => Np.get (Covariance.data C)
                               (default 0 (idx !! a)) (default 0 (idx !! b))))
              (Covariance.data S)) as [->|[close ->]]; [done|].
  cbn [mbind result_bind]. destruct close; cbn [negb mbind result_bind].
  - by rewrite (ix_set_wrong_shape n r c).
  - rewrite (zero_rows_cols _ _ _ HC Hrange). cbn [mbind result_bind].
    rewrite (ix_set_wrong_shape n r c); try done.
    apply is_shape_tabulate_float.
Qed.

Lemma set_subcovariance_wrong_shape_witness :
  Covariance.set_subcovariance Examples.abc
    (Covariance.mk [Examples.a; Examples.b] [[1; 2; 3]; [4; 5; 6]; [7; 8; 9]]%float)
  = raise ValueError None.
Proof.
  apply (set_subcovariance_wrong_shape Examples.abc
           (Covariance.mk [Examples.a; Examples.b]
              [[1; 2; 3]; [4; 5; 6]; [7; 8; 9]]%float) 3 3).
  - reflexivity.
  - intros p Hp. apply (bool_decide_unpack _).
    apply elem_of_cons in Hp as [->|Hp]; [by vm_compute|].
    apply list_elem_of_singleton in Hp as ->. by vm_compute.
  - lia.
  - reflexivity.
  - cbn. lia.
Defined.

End covariance_block_shape.

(** * Further properties of [Dataset.copy] *)

Section dataset_copy_models.
Local Open Scope nat_scope.

(** The copies [deepcopy_models] makes, relative to the heap [h0] before
    the copy began: every model of [h0] stays, every entry of the memo
    leads from a model of [h0] to a new object with the same state, and
    no two originals share a copy. *)
Lemma deepcopy_models_content (h0 : Dataset.Heap) (refs : list ref) :
  forall (memo : gmap ref ref) (h : Dataset.Heap) out memo' h',
    Dataset.deepcopy_models refs memo h = (out, memo', h') ->
    (forall r, r ∈ refs -> is_Some (Dataset.h_models h0 !! r)) ->
    (forall r m, Dataset.h_models h0 !! r = Some m ->
                 Dataset.h_models h !! r = Some m) ->
    (forall r r', memo !! r = Some r' ->
       Dataset.h_models h0 !! r' = None
       /\ exists m, Dataset.h_models h0 !! r = Some m
                    /\ Dataset.h_models h !! r' = Some m) ->
    (forall r1 r2 r', memo !! r1 = Some r' -> memo !! r2 = Some r' -> r1 = r2) ->
    (forall r m, Dataset.h_models h0 !! r = Some m ->
                 Dataset.h_models h' !! r = Some m)
    /\ (forall r r', memo' !! r = Some r' ->
          Dataset.h_models h0 !! r' = None
          /\ exists m, Dataset.h_models h0 !! r = Some m
                       /\ Dataset.h_models h' !! r' = Some m)
    /\ (forall r1 r2 r', memo' !! r1 = Some r' -> memo' !! r2 = Some r' -> r1 = r2)
    /\ (forall r r', memo !! r = Some r' -> memo' !! r = Some r')
    /\ length out = length refs
    /\ (forall k r, refs !! k = Some r ->
          exists r', out !! k = Some r' /\ memo' !! r = Some r').
Proof.
  induction refs as [|r refs IH];
    intros memo h out memo' h' Hrun Hrefs Hext Hsound Hinj.
  - cbn in Hrun. injection Hrun as <- <- <-.
    do 5 (split; [done|]). intros k r Hk. by rewrite lookup_nil in Hk.
  - assert (Hrefs' : forall x, x ∈ refs -> is_Some (Dataset.h_models h0 !! x))
      by (intros x Hx; apply Hrefs; by right).
    destruct (Hrefs r) as [m0 Hm0]; [by left|].
    cbn [Dataset.deepcopy_models] in Hrun.
    destruct (memo !! r) as [r1|] eqn:Hr.
    + destruct (Dataset.deepcopy_models refs memo h) as [[out1 memo1] h1] eqn:E.
      injection Hrun as <- <- <-.
      destruct (IH _ _ _ _ _ E Hrefs' Hext Hsound Hinj)
        as (Hext1 & Hsound1 & Hinj1 & Hmono & Hlen & Hout).
      do 4 (split; [done|]). split; [cbn; by rewrite Hlen|].
      intros [|k] x Hx; cbn in Hx.
      * injection Hx as <-. exists r1. split; [done|by apply Hmono].
      * by apply Hout.
    + rewrite (Hext _ _ Hm0) in Hrun.
      set (r1 := Dataset.fresh_ref h) in *.
      set (h1 := Dataset.mk_Heap _ _) in Hrun.
      destruct (Dataset.deepcopy_models refs (<[r:=r1]> memo) h1)
        as [[out1 memo1] h2] eqn:E.
      injection Hrun as <- <- <-.
      assert (Hfresh : Dataset.h_models h !! r1 = None)
        by apply fresh_ref_models.
      assert (Hext1 : forall x m, Dataset.h_models h0 !! x = Some m ->
                                  Dataset.h_models h1 !! x = Some m).
      { intros x m Hx. unfold h1. cbn. rewrite lookup_insert_ne; [by apply Hext|].
        intros <-. apply Hext in Hx. congruence. }
      assert (Hsound1 : forall a b, <[r:=r1]> memo !! a = Some b ->
                Dataset.h_models h0 !! b = None
                /\ exists m, Dataset.h_models h0 !! a = Some m
                             /\ Dataset.h_models h1 !! b = Some m).
      { intros a b. rewrite lookup_insert. case_decide as Har.
        - intros [= <-]. subst a. split.
          + destruct (Dataset.h_models h0 !! r1) as [m1|] eqn:H1; [|done].
            apply Hext in H1. congruence.
          + exists m0. split; [done|]. unfold h1. cbn. apply lookup_insert_eq.
        - intros Hab. destruct (Hsound _ _ Hab) as (Hb & m & Ha & Hb').
          split; [done|]. exists m. split; [done|].
          unfold h1. cbn. rewrite lookup_insert_ne; [done|].
          intros <-. congruence. }
      assert (Hinj1 : forall a1 a2 b, <[r:=r1]> memo !! a1 = Some b ->
                <[r:=r1]> memo !! a2 = Some b -> a1 = a2).
      { intros a1 a2 b. rewrite !lookup_insert.
        repeat case_decide; subst; try done.
        - intros [= <-] Hb. destruct (Hsound _ _ Hb) as (_ & m & _ & Hb').
          congruence.
        - intros Hb [= <-]. destruct (Hsound _ _ Hb) as (_ & m & _ & Hb').
          congruence.
        - apply Hinj. }
      destruct (IH _ _ _ _ _ E Hrefs' Hext1 Hsound1 Hinj1)
        as (Hext2 & Hsound2 & Hinj2 & Hmono & Hlen & Hout).
      do 3 (split; [done|]). split; [|split].
      * intros a b Hab. apply Hmono. rewrite lookup_insert_ne; [done|].
        intros <-. congruence.
      * cbn. by rewrite Hlen.
      * intros [|k] x Hx; cbn in Hx.
        -- injection Hx as <-. exists r1. split; [done|].
           apply Hmono. apply lookup_insert_eq.
        -- by apply Hout.
Qed.

Lemma rename_in_idempotent (old new : string) (names : list string) :
  Dataset.rename_in old new (Dataset.rename_in old new names)
  = Dataset.rename_in old new names.
Proof.
  unfold Dataset.rename_in. rewrite map_map. apply map_ext. intros d.
  destruct (String.eqb d old) eqn:Hd; [|by rewrite Hd].
  by destruct (String.eqb new old).
Qed.

Lemma rewired_idempotent (old new : string) (b : bool) (m : Model) :
  Dataset.rewired old new b (Dataset.rewired old new b m)
  = Dataset.rewired old new b m.
Proof.
  unfold Dataset.rewired.
  destruct (datasets_names m) as [names|] eqn:Hnames; cbn.
  - rewrite rename_in_idempotent. by destruct b.
  - by rewrite Hnames.
Qed.

Lemma rewire_model_at (old new : string) (bkg : option ref)
    (hm : gmap ref Model) (r : ref) (m : Model) :
  hm !! r = Some m ->
  Dataset.rewire_model old new bkg hm r !! r
  = Some (Dataset.rewired old new (bool_decide (bkg = Some r)) m).
Proof.
  intros Hm. unfold Dataset.rewire_model, Dataset.rewired. rewrite Hm.
  destruct (datasets_names m) as [names|]; [|done].
  rewrite lookup_insert_eq. cbn.
  case_decide; [by rewrite bool_decide_eq_true_2|by rewrite bool_decide_eq_false_2].
Qed.

Lemma rewire_loop_at (old new : string) (bkg : option ref) (refs : list ref) :
  forall (hm : gmap ref Model) (x : ref) (m : Model),
    hm !! x = Some m ->
    fold_left (Dataset.rewire_model old new bkg) refs hm !! x
    = Some (if decide (x ∈ refs)
            then Dataset.rewired old new (bool_decide (bkg = Some x)) m
            else m).
Proof.
  induction refs as [|r refs IH]; intros hm x m Hm.
  - cbn. rewrite Hm. case_decide as Hin; [by apply elem_of_nil in Hin|done].
  - cbn [fold_left]. destruct (decide (x = r)) as [->|Hne].
    + rewrite (IH _ r _ (rewire_model_at old new bkg hm r m Hm)).
      rewrite rewired_idempotent.
      rewrite (decide_True (P := r ∈ r :: refs)) by by left.
      by case_decide.
    + rewrite (IH _ x m) by (by rewrite rewire_model_other).
      destruct (decide (x ∈ refs)) as [Hin|Hnin].
      * by rewrite decide_True by by right.
      * rewrite decide_False; [done|].
        intros [?|?]%elem_of_cons; done.
Qed.

Lemma deepcopy_content (h : Dataset.Heap) (d new : Dataset.t)
    (h1 : Dataset.Heap) (refs : list ref) :
  Dataset.deepcopy h d = (new, h1) ->
  Dataset._models d = Some refs ->
  (forall r, r ∈ refs -> is_Some (Dataset.h_models h !! r)) ->
  (forall b, Dataset.background_model d = Some b ->
             is_Some (Dataset.h_models h !! b)) ->
  exists (out : list ref) (memo : gmap ref ref),
    Dataset._models new = Some out
    /\ length out = length refs
    /\ (forall k r, refs !! k = Some r ->
          exists r', out !! k = Some r' /\ memo !! r = Some r')
    /\ (forall r r', memo !! r = Some r' ->
          Dataset.h_models h !! r' = None
          /\ exists m, Dataset.h_models h !! r = Some m
                       /\ Dataset.h_models h1 !! r' = Some m)
    /\ (forall r1 r2 r', memo !! r1 = Some r' -> memo !! r2 = Some r' -> r1 = r2)
    /\ (forall b, Dataset.background_model d = Some b ->
          exists b', Dataset.background_model new = Some b'
                     /\ memo !! b = Some b')
    /\ (Dataset.background_model d = None ->
        Dataset.background_model new = None).
Proof.
  intros Hrun Hmodels Hrefs Hbkg. unfold Dataset.deepcopy in Hrun.
  rewrite Hmodels in Hrun.
  destruct (Dataset.deepcopy_models refs ∅ h) as [[out memo] ha] eqn:E1.
  destruct (deepcopy_models_content h refs _ _ _ _ _ E1)
    as (Hext & Hsound & Hinj & _ & Hlen & Hout); try done.
  destruct (Dataset.background_model d) as [b|] eqn:Hb.
  - destruct (Dataset.deepcopy_models [b] memo ha) as [[outb memob] hb] eqn:E2.
    destruct (deepcopy_models_content h [b] _ _ _ _ _ E2)
      as (Hextb & Hsoundb & Hinjb & Hmono & _ & Houtb); try done.
    { intros r Hr%list_elem_of_singleton. subst r. by apply Hbkg. }
    injection Hrun as <- <-.
    cbn [Dataset._models Dataset.background_model Dataset.h_models].
    exists out, memob. split; [done|]. split; [done|].
    split; [|split; [done|]; split; [done|]; split; [|done]].
    + intros k r Hk. destruct (Hout _ _ Hk) as (r' & Hr' & Hm).
      exists r'. split; [done|]. by apply Hmono.
    + intros b0 [= <-]. destruct (Houtb 0 b eq_refl) as (b' & Hb' & Hm).
      exists b'. split; [|done]. by rewrite head_lookup.
  - injection Hrun as <- <-.
    cbn [Dataset._models Dataset.background_model Dataset.h_models].
    exists out, memo. by repeat (split; [done|]).
Qed.

(** X25.  The models of a copy.  Let the dataset [d] refer to models that
    all exist.  [d.copy(name)] gives a dataset that refers to as many
    models, in the same order, each a new object and shared within the
    copy exactly where the original was shared within [d].  The state of
    each is that of its original, except that where [datasets_names] is
    set every occurrence of the name of [d] in it is replaced by the new
    name, and the copy of the background model is then named after the
    new dataset, with the suffix [-bkg]. *)
Theorem Dataset_copy_models (h : Dataset.Heap) (self : ref) (d : Dataset.t)
    (name : option string) (generated : string) (refs : list ref) :
  Dataset.h_datasets h !! self = Some d ->
  Dataset._models d = Some refs ->
  (forall r, r ∈ refs -> is_Some (Dataset.h_models h !! r)) ->
  (forall b, Dataset.background_model d = Some b ->
             is_Some (Dataset.h_models h !! b)) ->
  exists new h' d' refs',
    Dataset.copy h self name generated = Some (new, h')
    /\ Dataset.h_datasets h' !! new = Some d'
    /\ Dataset._models d' = Some refs'
    /\ length refs' = length refs
    /\ (forall k r m,
          refs !! k = Some r -> Dataset.h_models h !! r = Some m ->
          exists r',
            refs' !! k = Some r'
            /\ Dataset.h_models h !! r' = None
            /\ Dataset.h_models h' !! r'
               = Some (Dataset.rewired (Dataset.name d)
                         (Dataset.make_name generated name)
                         (bool_decide (Dataset.background_model d = Some r))
                         m))
    /\ (forall k1 k2, refs' !! k1 = refs' !! k2 <-> refs !! k1 = refs !! k2).
Proof.
  intros Hself Hmodels Hrefs Hbkg. unfold Dataset.copy. rewrite Hself.
  destruct (Dataset.deepcopy h d) as [new h1] eqn:E.
  destruct (deepcopy_frame _ _ _ _ E) as (Hfresh & Hd1 & _ & _ & _).
  destruct (deepcopy_content _ _ _ _ _ E Hmodels Hrefs Hbkg)
    as (out & memo & Hout & Hlen & Hcopies & Hsound & Hinj & Hb1 & Hb2).
  cbn [Dataset.py_id Dataset._models Dataset.background_model].
  assert (Hne : self <> Dataset.py_id new) by (intros ->; congruence).
  rewrite lookup_insert_ne, Hd1, lookup_insert_ne, Hself by done.
  rewrite Hout. eexists _, _, _, out. split; [reflexivity|].
  cbn [Dataset.h_datasets Dataset.h_models Dataset._models].
  split; [apply lookup_insert_eq|]. cbn [Dataset._models].
  split; [done|]. split; [done|]. split.
  - intros k r m Hk Hm. destruct (Hcopies _ _ Hk) as (r' & Hr' & Hmemo).
    destruct (Hsound _ _ Hmemo) as (Hnew & m' & Hm' & Hcopy).
    assert (m' = m) as -> by congruence.
    exists r'. split; [done|]. split; [done|].
    rewrite (rewire_loop_at _ _ _ _ _ _ _ Hcopy).
    rewrite decide_True by by eapply list_elem_of_lookup_2.
    do 2 f_equal. apply bool_decide_ext.
    destruct (Dataset.background_model d) as [b|] eqn:Hb.
    + destruct (Hb1 b eq_refl) as (b' & -> & Hmb). split.
      * intros [= ->]. f_equal. by eapply Hinj.
      * intros [= ->]. f_equal. congruence.
    + rewrite (Hb2 eq_refl). done.
  - intros k1 k2.
    destruct (refs !! k1) as [r1|] eqn:H1, (refs !! k2) as [r2|] eqn:H2.
    + destruct (Hcopies _ _ H1) as (r1' & -> & Hm1).
      destruct (Hcopies _ _ H2) as (r2' & -> & Hm2). split.
      * intros [= ->]. f_equal. by eapply Hinj.
      * intros [= ->]. f_equal. congruence.
    + destruct (Hcopies _ _ H1) as (r1' & -> & _).
      apply lookup_ge_None in H2. rewrite <- Hlen in H2.
      apply lookup_ge_None in H2. by rewrite H2.
    + destruct (Hcopies _ _ H2) as (r2' & -> & _).
      apply lookup_ge_None in H1. rewrite <- Hlen in H1.
      apply lookup_ge_None in H1. by rewrite H1.
    + apply lookup_ge_None in H1, H2. rewrite <- Hlen in H1, H2.
      apply lookup_ge_None in H1, H2. by rewrite H1, H2.
Qed.

Lemma Dataset_copy_models_witness :
  exists new h' source bkg,
    Dataset.copy Examples.heap 1 (Some "obs-1-copy") "a1b2c3d4" = Some (new, h')
    /\ (Dataset._models <$> Dataset.h_datasets h' !! new)
       = Some (Some [source; bkg; source])
    /\ Dataset.h_models h' !! source
       = Some (mk_Model "source" (Some ["obs-1-copy"; "obs-2"]))
    /\ Dataset.h_models h' !! bkg
       = Some (mk_Model "obs-1-copy-bkg" (Some ["obs-1-copy"])).
Proof.
  destruct (Dataset_copy_models Examples.heap 1 Examples.observed
              (Some "obs-1-copy") "a1b2c3d4" [5; 6; 5]%positive)
    as (new & h' & d' & refs' & Hcopy & Hd' & Hrefs' & _ & Hmodels & _).
  - reflexivity.
  - reflexivity.
  - intros r Hr. apply (bool_decide_unpack _). revert r Hr.
    apply Forall_forall. repeat constructor.
  - intros b [= <-]. by eexists.
  - destruct (Hmodels 0 5%positive _ eq_refl eq_refl) as (source & Hs & _ & Hms).
    destruct (Hmodels 1 6%positive _ eq_refl eq_refl) as (bkg & Hb & _ & Hmb).
    exists new, h', source, bkg. split; [exact Hcopy|].
    vm_compute in Hcopy. injection Hcopy as <- <-.
    vm_compute in Hd'. injection Hd' as <-.
    vm_compute in Hrefs'. injection Hrefs' as <-.
    vm_compute in Hs. injection Hs as <-.
    vm_compute in Hb. injection Hb as <-.
    repeat split; reflexivity.
Defined.

End dataset_copy_models.
